(** * The parallel crawler of [cpp/src/main.cpp]

    A shallow embedding of the URL utilities, the fetcher wrapper, the
    [ParallelCrawler] worker loop and the readers of the configuration
    file, followed by the properties of the crawl engine
    (deduplication, termination at quiescence, the [max_pages] bound,
    the behaviour of the filters, mutual exclusion and progress, what
    is written to disk) and of the functions it is built from.

    Conventions.
    - [std::string] is [string]; a [char] is an [ascii].  [std::tolower]
      and the character classes are those of the "C" locale.
    - [std::unordered_set<std::string>] is [gset string]; the
      [std::queue] is a [list] with its front at the head.
    - [long] counters are [Z] with the 64-bit wrap-around of
      [std::atomic<long>] written out ([wrap64]).
    - The [#pragma omp parallel] region is an interleaving of worker
      steps over one shared [state]; a [std::lock_guard] is a step that
      is enabled only while the mutex is free.
    - A [std::regex] is the deterministic scanner that its pattern
      describes; an exception that leaves a function is [None]. *)

From Stdlib Require Import ZArith String Ascii Bool List Lia.
From stdpp Require Import base tactics option list gmap strings.

#[local] Set Warnings "-clear-no-such-hyp".

Open Scope string_scope.

(** ** [std::string] primitives used by the source *)

Module StdString.

Definition code (c : ascii) : nat := nat_of_ascii c.

Definition in_range (lo hi : nat) (c : ascii) : bool :=
  (lo <=? code c)%nat && (code c <=? hi)%nat.

Definition is_upper : ascii -> bool := in_range 65 90.
Definition is_lower : ascii -> bool := in_range 97 122.
Definition is_digit : ascii -> bool := in_range 48 57.
Definition is_alpha (c : ascii) : bool := is_upper c || is_lower c.
Definition is_alnum (c : ascii) : bool := is_alpha c || is_digit c.

(** [std::isspace] in the "C" locale: space and 0x09..0x0D. *)
Definition is_space (c : ascii) : bool :=
  (code c =? 32)%nat || in_range 9 13 c.

(** [std::tolower] in the "C" locale. *)
Definition tolower (c : ascii) : ascii :=
  if is_upper c then ascii_of_nat (code c + 32) else c.

Fixpoint map_chars (f : ascii -> ascii) (s : string) : string :=
  match s with
  | EmptyString => EmptyString
  | String c r => String (f c) (map_chars f r)
  end.

Fixpoint all_chars (p : ascii -> bool) (s : string) : bool :=
  match s with
  | EmptyString => true
  | String c r => p c && all_chars p r
  end.

(** [s.substr(0, n)] *)
Fixpoint take (n : nat) (s : string) : string :=
  match n, s with
  | S k, String c r => String c (take k r)
  | _, _ => EmptyString
  end.

(** [s.substr(n)] *)
Fixpoint drop (n : nat) (s : string) : string :=
  match n, s with
  | S k, String _ r => drop k r
  | _, _ => s
  end.

(** [s.substr(pos, len)] *)
Definition substr (pos len : nat) (s : string) : string :=
  take len (drop pos s).

(** Position of the first character satisfying [p];
    [None] is [std::string::npos]. *)
Fixpoint find_if (p : ascii -> bool) (s : string) : option nat :=
  match s with
  | EmptyString => None
  | String c r => if p c then Some 0%nat else S <$> find_if p r
  end.

(** Position of the last character satisfying [p]. *)
Fixpoint find_last_if (p : ascii -> bool) (s : string) : option nat :=
  match s with
  | EmptyString => None
  | String c r =>
      match find_last_if p r with
      | Some k => Some (S k)
      | None => if p c then Some 0%nat else None
      end
  end.

(** [s.find(c)] and [s.find_last_of(c)] for a single character. *)
Definition find (c : ascii) : string -> option nat := find_if (Ascii.eqb c).
Definition find_last_of (c : ascii) : string -> option nat :=
  find_last_if (Ascii.eqb c).

(** [s.rfind(p, 0) == 0]: [p] is a prefix of [s]. *)
Definition starts_with (p s : string) : bool := String.prefix p s.

(** [s.find(sub) != npos] *)
Fixpoint contains (sub s : string) : bool :=
  String.prefix sub s ||
  match s with
  | EmptyString => false
  | String _ r => contains sub r
  end.

(** The longest prefix whose characters all satisfy [p]. *)
Fixpoint take_while (p : ascii -> bool) (s : string) : string :=
  match s with
  | EmptyString => EmptyString
  | String c r => if p c then String c (take_while p r) else EmptyString
  end.

Fixpoint drop_while (p : ascii -> bool) (s : string) : string :=
  match s with
  | EmptyString => EmptyString
  | String c r => if p c then drop_while p r else s
  end.

Definition is_empty (s : string) : bool :=
  match s with EmptyString => true | _ => false end.

End StdString.

Import StdString.

(** ** URL utilities *)

(** [to_lower], lines 99-102. *)
Definition to_lower (value : string) : string := map_chars tolower value.

(** [trim], lines 171-178: the characters of [" \t\n\r"] are removed
    from both ends. *)
Definition is_trim_char (c : ascii) : bool :=
  (code c =? 32)%nat || (code c =? 9)%nat || (code c =? 10)%nat
  || (code c =? 13)%nat.

Definition trim (input : string) : string :=
  match find_if (fun c => negb (is_trim_char c)) input,
        find_last_if (fun c => negb (is_trim_char c)) input with
  | Some start, Some end_ => substr start (end_ - start + 1) input
  | _, _ => ""
  end.

Record UrlParts := mkUrlParts {
  scheme : string;
  host : string;
  path : string
}.

(** [parse_url], lines 186-197.  The pattern is matched against the
    whole string: a scheme (a letter, then letters, digits, [+], [.]
    or [-]), the literal [://], a non-empty host of characters other
    than [/], and optionally a path made of [/] followed by any number
    of [.] characters.  The character classes of adjacent pieces are
    disjoint, so the match is deterministic: the scheme is the longest
    run of scheme characters, the host the longest run of characters
    other than [/], and the remainder is absent or starts with [/].
    The ECMAScript [.] matches every character except the line
    terminators LF and CR. *)
Definition is_scheme_char (c : ascii) : bool :=
  is_alnum c || (code c =? 43)%nat || (code c =? 46)%nat || (code c =? 45)%nat.

Definition is_slash (c : ascii) : bool := (code c =? 47)%nat.

Definition is_line_terminator (c : ascii) : bool :=
  (code c =? 10)%nat || (code c =? 13)%nat.

Definition parse_url (url : string) : option UrlParts :=
  match url with
  | EmptyString => None
  | String c0 _ =>
      if is_alpha c0 then
        let sch := take_while is_scheme_char url in
        let rest := drop (String.length sch) url in
        if starts_with "://" rest then
          let after := drop 3 rest in
          let hst := take_while (fun c => negb (is_slash c)) after in
          match hst, drop (String.length hst) after with
          | EmptyString, _ => None
          | _, EmptyString =>
              Some (mkUrlParts (to_lower sch) (to_lower hst) "/")
          | _, String sl tail as pth =>
              if all_chars (fun c => negb (is_line_terminator c)) tail
              then Some (mkUrlParts (to_lower sch) (to_lower hst) pth)
              else None
          end
        else None
      else None
  end.

(** [strip_fragment], lines 199-205. *)
Definition strip_fragment (url : string) : string :=
  match find "#" url with
  | Some pos => substr 0 pos url
  | None => url
  end.

(** [make_absolute], lines 207-238.  [{}] is the empty string. *)
Definition make_absolute (base_url href : string) : string :=
  let link := trim href in
  if is_empty link then ""
  else if starts_with "mailto:" link || starts_with "javascript:" link then ""
  else if starts_with "http://" link || starts_with "https://" link
  then strip_fragment link
  else if starts_with "//" link then
    match parse_url base_url with
    | None => ""
    | Some base_parts => scheme base_parts ++ ":" ++ strip_fragment link
    end
  else
    match parse_url base_url with
    | None => ""
    | Some base_parts =>
        let base_path :=
          if starts_with "/" link then link
          else
            let directory :=
              match find_last_of "/" (path base_parts) with
              | None => "/"
              | Some slash => substr 0 (slash + 1) (path base_parts)
              end in
            directory ++ link in
        scheme base_parts ++ "://" ++ host base_parts ++ base_path
    end.

(** [extension_from_url], lines 240-255. *)
Definition extension_from_url (url : string) : string :=
  let clean := strip_fragment url in
  let clean :=
    match find "?" clean with
    | Some query_pos => substr 0 query_pos clean
    | None => clean
    end in
  let filename :=
    match find_last_of "/" clean with
    | None => clean
    | Some slash => drop (slash + 1) clean
    end in
  match find_last_of "." filename with
  | None => ""
  | Some dot => map_chars tolower (drop dot filename)
  end.

(** [query_indicates_download], lines 257-269. *)
Definition query_indicates_download (url : string) : bool :=
  let lower := to_lower url in
  if contains "format=pdf" lower then true
  else if contains "format=doc" lower then true
  else if contains "download=1" lower then true
  else false.

(** [sanitize_filename], lines 271-288.  [std::regex_replace] with
    [[^A-Za-z0-9._-]+] replaces every maximal run of characters outside
    the class by one underscore. *)
Definition is_filename_char (c : ascii) : bool :=
  is_alnum c || (code c =? 46)%nat || (code c =? 95)%nat || (code c =? 45)%nat.

Fixpoint replace_invalid (in_run : bool) (s : string) : string :=
  match s with
  | EmptyString => EmptyString
  | String c r =>
      if is_filename_char c then String c (replace_invalid false r)
      else if in_run then replace_invalid true r
      else String "_" (replace_invalid true r)
  end.

Definition sanitize_filename (parts : UrlParts) (extension prefix : string)
  : string :=
  let pth := if is_empty (path parts) || String.eqb (path parts) "/"
             then "/index" else path parts in
  let safe := map_chars (fun c => if is_slash c then "_"%char else c) pth in
  let file_name := prefix ++ "__" ++ host parts ++ safe in
  let file_name :=
    if negb (is_empty extension) && negb (contains extension file_name)
    then file_name ++ extension else file_name in
  let file_name := replace_invalid false file_name in
  if (240 <? String.length file_name)%nat then take 240 file_name
  else file_name.

(** ** The fetcher *)

Record FetchResult := mkFetchResult {
  body : string;
  content_type : string
}.

(** [header_callback], lines 301-314: the new value of the string that
    [CURLOPT_HEADERDATA] points to after one header line. *)
Definition header_callback (header : string) (stored : string) : string :=
  let lower := to_lower header in
  if starts_with "content-type:" lower then
    match find ":" header with
    | Some colon => trim (drop (colon + 1) header)
    | None => stored
    end
  else stored.

(** What libcurl does during [curl_easy_perform]: the header lines and
    body chunks it hands to the two callbacks (over all responses of a
    redirect chain), the [CURLcode] it returns and the HTTP status of
    the last response.  [CURLOPT_FAILONERROR] is never set, so the
    return code reports the transport only. *)
Record Transfer := mkTransfer {
  curl_code : Z;
  response_code : Z;
  header_lines : list string;
  body_chunks : list string
}.

Definition CURLE_OK : Z := 0.

(** A line written to [std::cerr] by [fetch_url]:
    "Failed to fetch <url>: <curl_easy_strerror(res)>". *)
Inductive Diagnostic :=
  | FailedToFetch (url : string) (res : Z).

(** [fetch_url], lines 316-337.  [None] is a failed [curl_easy_init]. *)
Definition fetch_url (url : string) (handle : option Transfer)
  : FetchResult * list Diagnostic :=
  match handle with
  | None => (mkFetchResult "" "", [])
  | Some t =>
      let received := String.concat "" (body_chunks t) in
      let ctype := fold_left (fun acc h => header_callback h acc)
                             (header_lines t) "" in
      if negb (curl_code t =? CURLE_OK)%Z
      then (mkFetchResult "" ctype, [FailedToFetch url (curl_code t)])
      else (mkFetchResult received ctype, [])
  end.

(** ** Link extraction *)

Definition is_quote (c : ascii) : bool := (code c =? 39)%nat || (code c =? 34)%nat.

(** One attempt of the pattern of line 340 at the start of [s]:
    [href], spaces, [=], spaces, a quote, a non-empty run of characters
    that are not quotes, a quote; case-insensitive.  Returns the
    captured run and the length of the whole match. *)
Definition match_href (s : string) : option (string * nat) :=
  if String.eqb (to_lower (take 4 s)) "href" then
    let s1 := drop 4 s in
    let ws1 := take_while is_space s1 in
    match drop (String.length ws1) s1 with
    | String eq_sign s3 =>
        if (code eq_sign =? 61)%nat then
          let ws2 := take_while is_space s3 in
          match drop (String.length ws2) s3 with
          | String q s5 =>
              if is_quote q then
                let raw := take_while (fun c => negb (is_quote c)) s5 in
                match raw, drop (String.length raw) s5 with
                | String _ _, String _ _ =>
                    Some (raw, (4 + String.length ws1 + 1 + String.length ws2
                                + 1 + String.length raw + 1)%nat)
                | _, _ => None
                end
              else None
          | EmptyString => None
          end
        else None
    | EmptyString => None
    end
  else None.

(** The [std::sregex_iterator] loop: matches are searched left to
    right and the search resumes after the end of each match. *)
Fixpoint scan_hrefs (skip : nat) (s : string) : list string :=
  match s with
  | EmptyString => []
  | String _ r =>
      match skip with
      | S k => scan_hrefs k r
      | O =>
          match match_href s with
          | Some (raw, len) => raw :: scan_hrefs (len - 1) r
          | None => scan_hrefs 0 r
          end
      end
  end.

(** [extract_links], lines 339-352. *)
Definition extract_links (html base_url : string) : list string :=
  List.filter (fun absolute => negb (is_empty absolute))
              (List.map (make_absolute base_url) (scan_hrefs 0 html)).

(** ** Configuration and filters *)

(** [Config], lines 27-43.  [raw_output], [request_delay_seconds] and
    [timeout_seconds] only decide where artifacts are placed and how
    long a call lasts; they are not fields of the model. *)
Record Config := mkConfig {
  start_url : string;
  allowed_domains : list string;
  max_pages : Z;
  threads : Z;
  allowed_extensions : gset string
}.

Definition default_config : Config :=
  {| start_url := "https://www.bgsu.edu";
     allowed_domains := ["www.bgsu.edu"; "bgsu.edu"];
     max_pages := -1;
     threads := 8;
     allowed_extensions :=
       list_to_set
         [".html"; ".htm"; ".php"; ".asp"; ".aspx"; ".jsp";
          ".pdf"; ".txt"; ".json"; ".csv"; ".xml";
          ".doc"; ".docx"; ".ppt"; ".pptx"; ".xls"; ".xlsx";
          ".rtf"; ".srt"; ".vtt"; ".jpg"; ".jpeg"; ".png";
          ".gif"; ".svg"; ".zip"; ".tar"; ".gz"; ".mp3";
          ".mp4"] |}.

(** [ParallelCrawler::is_allowed_domain], lines 509-521. *)
Definition is_allowed_domain (cfg : Config) (url : string) : bool :=
  match parse_url url with
  | None => false
  | Some parts =>
      existsb (fun domain => String.eqb (host parts) (to_lower domain))
              (allowed_domains cfg)
  end.

(** [ParallelCrawler::should_enqueue], lines 490-507.  The branch on
    [query_indicates_download] has an empty body. *)
Definition should_enqueue (cfg : Config) (url : string) : bool :=
  let normalized := strip_fragment url in
  if is_empty normalized then false
  else if negb (is_allowed_domain cfg normalized) then false
  else
    let ext := extension_from_url normalized in
    if negb (is_empty ext) then
      if negb (bool_decide (ext ∈ allowed_extensions cfg)) then false
      else true
    else if negb (query_indicates_download normalized) then true
    else true.

(** The unlocked prefix of [ParallelCrawler::enqueue_url], lines
    524-530: the normalized URL that goes on to the locked part, or
    [None] when the call returns early. *)
Definition enqueue_candidate (cfg : Config) (url : string) : option string :=
  let normalized := strip_fragment url in
  if is_empty normalized then None
  else if negb (is_allowed_domain cfg normalized) then None
  else Some normalized.

(** ** Persisted data *)

(** The directory of an artifact: [html_dir_] or [files_dir_]. *)
Inductive Subtree := HtmlDir | FilesDir.

Record Artifact := mkArtifact {
  art_dir : Subtree;
  art_name : string;
  art_body : string
}.

(** One line of [metadata.tsv]: url, path, content type. *)
Record MetadataRecord := mkRow {
  row_url : string;
  row_path : Subtree * string;
  row_content_type : string
}.

(** The part of [process_url] between the fetch and the ledger, lines
    438-467, as a function of the fetch result: [None] when the URL is
    abandoned, otherwise whether the body is HTML, the artifact that is
    written and the ledger row that is appended. *)
Definition persist_plan (url : string) (result : FetchResult)
  : option (bool * Artifact * MetadataRecord) :=
  if is_empty (body result) then None
  else
    let ctype := to_lower (content_type result) in
    let is_html := contains "text/html" ctype || is_empty ctype in
    match parse_url url with
    | None => None
    | Some parts =>
        let saved :=
          if is_html
          then (HtmlDir, sanitize_filename parts ".html" "html")
          else
            let ext := extension_from_url url in
            let ext := if is_empty ext then ".bin" else ext in
            (FilesDir, sanitize_filename parts ext "file") in
        Some (is_html,
              mkArtifact (fst saved) (snd saved) (body result),
              mkRow url saved (if is_empty ctype then "" else ctype))
    end.

(** ** The shared state and the worker program *)

Definition wrap64 (z : Z) : Z :=
  ((z + 2 ^ 63) mod 2 ^ 64 - 2 ^ 63)%Z.

Definition LONG_MAX : Z := (2 ^ 63 - 1)%Z.
Definition INT_MAX : Z := (2 ^ 31 - 1)%Z.

(** Where a worker stands in the loop of [run], lines 378-409, and in
    the member functions it calls.  The number is the source line of
    the next statement. *)
Inductive pc :=
  | AtTop                                   (* 379: stop.load() *)
  | AtLockQueue                             (* 384: lock queue_mutex_ *)
  | InQueue                                 (* 385-387, queue_mutex_ held *)
  | AtClaimInc (url : string)               (* 388, queue_mutex_ held *)
  | AtLoadActive                            (* 390, queue_mutex_ held *)
  | AtStoreStop                             (* 391, queue_mutex_ held *)
  | AtMarkLock (url : string)               (* 417: lock visited_mutex_ *)
  | InMark (url : string)                   (* 418-422, visited_mutex_ held *)
  | AtLimitCheck (url : string)             (* 433 *)
  | AtFetch (url : string)                  (* 437 *)
  | AtPersist (url : string) (result : FetchResult)        (* 438-462 *)
  | AtMetaLock (url html : string) (is_html : bool) (row : MetadataRecord)
                                            (* 465: lock metadata_mutex_ *)
  | InMeta (url html : string) (is_html : bool) (row : MetadataRecord)
                                            (* 466-467, metadata_mutex_ held *)
  | AtCount (url html : string) (is_html : bool)           (* 470-472 *)
  | AtLinks (current : Z) (links : list string)            (* 473-487 *)
  | AtEnqueueLock (normalized : string) (current : Z) (links : list string)
                                            (* 531: lock visited_mutex_ *)
  | InEnqueue (normalized : string) (current : Z) (links : list string)
                                            (* 532-535, visited_mutex_ held *)
  | AtEnqueueLockQueue (normalized : string) (current : Z) (links : list string)
                                            (* 537: lock queue_mutex_ *)
  | InEnqueuePush (normalized : string) (current : Z) (links : list string)
                                            (* 538, both mutexes held *)
  | AtDecrement (keep_running : bool)       (* 426: fetch_sub *)
  | AtClamp (remaining : Z) (keep_running : bool)          (* 427-429 *)
  | AtAfter (keep_running : bool)           (* 400 or 405-408 *)
  | Exited.

(** The members of [ParallelCrawler] and what the run has written so
    far: [ledger], the rows appended to [metadata.tsv]; [files], the
    file writes of lines 448-462 in the order in which they happen (a
    write under a name that exists replaces that file, see
    [directory]); [cerr], the diagnostics; [workers], where each worker
    stands. *)
Record state := mkState {
  frontier : list string;
  visited : gset string;
  queued : gset string;
  queue_mutex : option nat;
  visited_mutex : option nat;
  metadata_mutex : option nat;
  pages_downloaded : Z;
  active_workers : Z;
  stop : bool;
  ledger : list MetadataRecord;
  files : list Artifact;
  cerr : list Diagnostic;
  workers : list pc
}.

Definition set_frontier (x : list string) (s : state) : state :=
  mkState x (visited s) (queued s) (queue_mutex s) (visited_mutex s)
    (metadata_mutex s) (pages_downloaded s) (active_workers s) (stop s)
    (ledger s) (files s) (cerr s) (workers s).
Definition set_visited (x : gset string) (s : state) : state :=
  mkState (frontier s) x (queued s) (queue_mutex s) (visited_mutex s)
    (metadata_mutex s) (pages_downloaded s) (active_workers s) (stop s)
    (ledger s) (files s) (cerr s) (workers s).
Definition set_queued (x : gset string) (s : state) : state :=
  mkState (frontier s) (visited s) x (queue_mutex s) (visited_mutex s)
    (metadata_mutex s) (pages_downloaded s) (active_workers s) (stop s)
    (ledger s) (files s) (cerr s) (workers s).
Definition set_queue_mutex (x : option nat) (s : state) : state :=
  mkState (frontier s) (visited s) (queued s) x (visited_mutex s)
    (metadata_mutex s) (pages_downloaded s) (active_workers s) (stop s)
    (ledger s) (files s) (cerr s) (workers s).
Definition set_visited_mutex (x : option nat) (s : state) : state :=
  mkState (frontier s) (visited s) (queued s) (queue_mutex s) x
    (metadata_mutex s) (pages_downloaded s) (active_workers s) (stop s)
    (ledger s) (files s) (cerr s) (workers s).
Definition set_metadata_mutex (x : option nat) (s : state) : state :=
  mkState (frontier s) (visited s) (queued s) (queue_mutex s) (visited_mutex s)
    x (pages_downloaded s) (active_workers s) (stop s)
    (ledger s) (files s) (cerr s) (workers s).
Definition set_pages_downloaded (x : Z) (s : state) : state :=
  mkState (frontier s) (visited s) (queued s) (queue_mutex s) (visited_mutex s)
    (metadata_mutex s) x (active_workers s) (stop s)
    (ledger s) (files s) (cerr s) (workers s).
Definition set_active_workers (x : Z) (s : state) : state :=
  mkState (frontier s) (visited s) (queued s) (queue_mutex s) (visited_mutex s)
    (metadata_mutex s) (pages_downloaded s) x (stop s)
    (ledger s) (files s) (cerr s) (workers s).
Definition set_stop (x : bool) (s : state) : state :=
  mkState (frontier s) (visited s) (queued s) (queue_mutex s) (visited_mutex s)
    (metadata_mutex s) (pages_downloaded s) (active_workers s) x
    (ledger s) (files s) (cerr s) (workers s).
Definition set_ledger (x : list MetadataRecord) (s : state) : state :=
  mkState (frontier s) (visited s) (queued s) (queue_mutex s) (visited_mutex s)
    (metadata_mutex s) (pages_downloaded s) (active_workers s) (stop s)
    x (files s) (cerr s) (workers s).
Definition set_files (x : list Artifact) (s : state) : state :=
  mkState (frontier s) (visited s) (queued s) (queue_mutex s) (visited_mutex s)
    (metadata_mutex s) (pages_downloaded s) (active_workers s) (stop s)
    (ledger s) x (cerr s) (workers s).
Definition set_cerr (x : list Diagnostic) (s : state) : state :=
  mkState (frontier s) (visited s) (queued s) (queue_mutex s) (visited_mutex s)
    (metadata_mutex s) (pages_downloaded s) (active_workers s) (stop s)
    (ledger s) (files s) x (workers s).

(** Worker [i] moves to [p]. *)
Definition goto (i : nat) (p : pc) (s : state) : state :=
  mkState (frontier s) (visited s) (queued s) (queue_mutex s) (visited_mutex s)
    (metadata_mutex s) (pages_downloaded s) (active_workers s) (stop s)
    (ledger s) (files s) (cerr s) (<[i := p]> (workers s)).

(** One step of worker [i], or [None] when the worker cannot move: it
    waits for a mutex that is held, it has left the loop, or there is no
    such worker.  [env] is what libcurl does if this step is the call
    of [fetch_url]; every other step ignores it.

    A [std::lock_guard] is taken in a step of its own.  The accesses it
    guards that touch only data protected by that mutex form one step
    together with the release at the end of the scope; an access to an
    atomic inside a guarded block is a step of its own.  Each load,
    store, [fetch_add] and [fetch_sub] of an atomic is one step. *)
Definition worker_step (cfg : Config) (i : nat) (env : option Transfer)
    (s : state) : option state :=
  match workers s !! i with
  | None => None
  | Some AtTop =>
      Some (goto i (if stop s then Exited else AtLockQueue) s)
  | Some AtLockQueue =>
      match queue_mutex s with
      | None => Some (goto i InQueue (set_queue_mutex (Some i) s))
      | Some _ => None
      end
  | Some InQueue =>
      match frontier s with
      | url :: rest => Some (goto i (AtClaimInc url) (set_frontier rest s))
      | [] => Some (goto i AtLoadActive s)
      end
  | Some (AtClaimInc url) =>
      Some (goto i (AtMarkLock url)
              (set_queue_mutex None
                 (set_active_workers (wrap64 (active_workers s + 1)) s)))
  | Some AtLoadActive =>
      if (active_workers s =? 0)%Z
      then Some (goto i AtStoreStop s)
      else Some (goto i AtTop (set_queue_mutex None s))
  | Some AtStoreStop =>
      Some (goto i Exited (set_queue_mutex None (set_stop true s)))
  | Some (AtMarkLock url) =>
      match visited_mutex s with
      | None => Some (goto i (InMark url) (set_visited_mutex (Some i) s))
      | Some _ => None
      end
  | Some (InMark url) =>
      if bool_decide (url ∈ visited s)
      then Some (goto i (AtDecrement true) (set_visited_mutex None s))
      else Some (goto i (AtLimitCheck url)
                   (set_visited_mutex None
                      (set_queued (queued s ∖ {[url]})
                         (set_visited ({[url]} ∪ visited s) s))))
  | Some (AtLimitCheck url) =>
      if (max_pages cfg >=? 0)%Z && (pages_downloaded s >=? max_pages cfg)%Z
      then Some (goto i (AtDecrement false) s)
      else Some (goto i (AtFetch url) s)
  | Some (AtFetch url) =>
      let '(result, diag) := fetch_url url env in
      Some (goto i (AtPersist url result) (set_cerr (cerr s ++ diag) s))
  | Some (AtPersist url result) =>
      match persist_plan url result with
      | None => Some (goto i (AtDecrement true) s)
      | Some (is_html, art, row) =>
          Some (goto i (AtMetaLock url (body result) is_html row)
                  (set_files (files s ++ [art]) s))
      end
  | Some (AtMetaLock url html is_html row) =>
      match metadata_mutex s with
      | None => Some (goto i (InMeta url html is_html row)
                        (set_metadata_mutex (Some i) s))
      | Some _ => None
      end
  | Some (InMeta url html is_html row) =>
      Some (goto i (AtCount url html is_html)
              (set_metadata_mutex None (set_ledger (ledger s ++ [row]) s)))
  | Some (AtCount url html is_html) =>
      let current := wrap64 (pages_downloaded s + 1) in
      Some (goto i (AtLinks current
                      (if is_html then extract_links html url else []))
              (set_pages_downloaded current s))
  | Some (AtLinks current links) =>
      match links with
      | [] =>
          let limit_reached :=
            (max_pages cfg >=? 0)%Z && (current >=? max_pages cfg)%Z in
          Some (goto i (AtDecrement (negb limit_reached)) s)
      | link :: rest =>
          if should_enqueue cfg link then
            match enqueue_candidate cfg link with
            | None => Some (goto i (AtLinks current rest) s)
            | Some normalized =>
                Some (goto i (AtEnqueueLock normalized current rest) s)
            end
          else Some (goto i (AtLinks current rest) s)
      end
  | Some (AtEnqueueLock normalized current links) =>
      match visited_mutex s with
      | None => Some (goto i (InEnqueue normalized current links)
                        (set_visited_mutex (Some i) s))
      | Some _ => None
      end
  | Some (InEnqueue normalized current links) =>
      if bool_decide (normalized ∈ visited s)
         || bool_decide (normalized ∈ queued s)
      then Some (goto i (AtLinks current links) (set_visited_mutex None s))
      else Some (goto i (AtEnqueueLockQueue normalized current links)
                   (set_queued ({[normalized]} ∪ queued s) s))
  | Some (AtEnqueueLockQueue normalized current links) =>
      match queue_mutex s with
      | None => Some (goto i (InEnqueuePush normalized current links)
                        (set_queue_mutex (Some i) s))
      | Some _ => None
      end
  | Some (InEnqueuePush normalized current links) =>
      Some (goto i (AtLinks current links)
              (set_visited_mutex None
                 (set_queue_mutex None
                    (set_frontier (frontier s ++ [normalized]) s))))
  | Some (AtDecrement keep_running) =>
      let remaining := wrap64 (active_workers s - 1) in
      Some (goto i (AtClamp remaining keep_running)
              (set_active_workers remaining s))
  | Some (AtClamp remaining keep_running) =>
      if (remaining <? 0)%Z
      then Some (goto i (AtAfter keep_running) (set_active_workers 0 s))
      else Some (goto i (AtAfter keep_running) s)
  | Some (AtAfter keep_running) =>
      if keep_running then Some (goto i AtTop s)
      else Some (goto i Exited (set_stop true s))
  | Some Exited => None
  end.

(** [ParallelCrawler::enqueue_url], lines 523-540, run by one thread
    while no other thread exists: the call of line 372. *)
Definition enqueue_url (cfg : Config) (url : string) (s : state) : state :=
  match enqueue_candidate cfg url with
  | None => s
  | Some normalized =>
      if bool_decide (normalized ∈ visited s)
         || bool_decide (normalized ∈ queued s)
      then s
      else set_frontier (frontier s ++ [normalized])
             (set_queued ({[normalized]} ∪ queued s) s)
  end.

(** The members of a fresh [ParallelCrawler] with [n] workers about to
    enter the loop.  [ledger] holds the rows appended to
    [metadata.tsv] by this run. *)
Definition fresh (n : nat) : state :=
  mkState [] ∅ ∅ None None None 0 0 false [] [] [] (replicate n AtTop).

(** The state at the start of the parallel region of [run]. *)
Definition init (cfg : Config) : state :=
  enqueue_url cfg (start_url cfg) (fresh (Z.to_nat (threads cfg))).

(** A schedule names, step by step, the worker that moves and what
    libcurl does if the step is a fetch. *)
Definition schedule := list (nat * option Transfer).

Fixpoint run_schedule (cfg : Config) (sched : schedule) (s : state)
  : option state :=
  match sched with
  | [] => Some s
  | (i, env) :: rest =>
      match worker_step cfg i env s with
      | Some s' => run_schedule cfg rest s'
      | None => None
      end
  end.

Definition reachable (cfg : Config) (s : state) : Prop :=
  exists sched, run_schedule cfg sched (init cfg) = Some s.

(** The run is over when every worker has left the loop. *)
Definition finished (s : state) : Prop :=
  Forall (fun p => p = Exited) (workers s).

Open Scope list_scope.

Arguments wrap64 : simpl never.
Arguments fetch_url : simpl never.
Arguments persist_plan : simpl never.
Arguments extract_links : simpl never.
Arguments should_enqueue : simpl never.
Arguments enqueue_candidate : simpl never.

(** ** Bookkeeping over the workers *)

(** Which workers hold which mutex, read off the program counter. *)
Definition holds_queue (p : pc) : bool :=
  match p with
  | InQueue | AtClaimInc _ | AtLoadActive | AtStoreStop
  | InEnqueuePush _ _ _ => true
  | _ => false
  end.

Definition holds_visited (p : pc) : bool :=
  match p with
  | InMark _ | InEnqueue _ _ _ | AtEnqueueLockQueue _ _ _
  | InEnqueuePush _ _ _ => true
  | _ => false
  end.

Definition holds_metadata (p : pc) : bool :=
  match p with
  | InMeta _ _ _ _ => true
  | _ => false
  end.

(** A worker between its [fetch_add] of line 388 and its [fetch_sub]
    of line 426. *)
Definition counted_active (p : pc) : nat :=
  match p with
  | AtMarkLock _ | InMark _ | AtLimitCheck _ | AtFetch _ | AtPersist _ _
  | AtMetaLock _ _ _ _ | InMeta _ _ _ _ | AtCount _ _ _ | AtLinks _ _
  | AtEnqueueLock _ _ _ | InEnqueue _ _ _ | AtEnqueueLockQueue _ _ _
  | InEnqueuePush _ _ _ | AtDecrement _ => 1
  | _ => 0
  end.

(** A worker past the test of line 433 that has not yet executed the
    [fetch_add] of line 470. *)
Definition in_flight (p : pc) : nat :=
  match p with
  | AtFetch _ | AtPersist _ _ | AtMetaLock _ _ _ _ | InMeta _ _ _ _
  | AtCount _ _ _ => 1
  | _ => 0
  end.

(** The URL a worker keeps in [queued_] while it is absent from
    [frontier_]: popped and not yet marked visited, or inserted into
    [queued_] and not yet pushed. *)
Definition owned (p : pc) : list string :=
  match p with
  | AtClaimInc url | AtMarkLock url | InMark url => [url]
  | AtEnqueueLockQueue n _ _ | InEnqueuePush n _ _ => [n]
  | _ => []
  end.

(** The URL a worker has claimed and may still add to the ledger. *)
Definition pending (p : pc) : list string :=
  match p with
  | AtLimitCheck url | AtFetch url | AtPersist url _ => [url]
  | AtMetaLock _ _ _ row | InMeta _ _ _ row => [row_url row]
  | _ => []
  end.

(** A worker that holds a URL: it has popped one and has not yet
    executed the [fetch_sub] of [decrement_active]. *)
Definition busy (p : pc) : bool :=
  match p with
  | AtClaimInc _ => true
  | AtMarkLock _ | InMark _ | AtLimitCheck _ | AtFetch _ | AtPersist _ _
  | AtMetaLock _ _ _ _ | InMeta _ _ _ _ | AtCount _ _ _ | AtLinks _ _
  | AtEnqueueLock _ _ _ | InEnqueue _ _ _ | AtEnqueueLockQueue _ _ _
  | InEnqueuePush _ _ _ | AtDecrement _ => true
  | _ => false
  end.

Fixpoint tally (f : pc -> nat) (l : list pc) : nat :=
  match l with
  | [] => 0
  | p :: r => f p + tally f r
  end.

Fixpoint gather (g : pc -> list string) (l : list pc) : list string :=
  match l with
  | [] => []
  | p :: r => g p ++ gather g r
  end.

(** ** Invariants of the worker loop *)

(** A mutex is held by worker [j] exactly when [j] stands inside a
    block guarded by it. *)
Definition lock_inv (m : option nat) (holds : pc -> bool) (l : list pc)
  : Prop :=
  forall j p, l !! j = Some p -> (holds p = true <-> m = Some j).

(** The three mutexes; the holder of [queue_mutex_] is one of the
    workers. *)
Record mutex_inv (s : state) : Prop := {
  mi_queue : lock_inv (queue_mutex s) holds_queue (workers s);
  mi_visited : lock_inv (visited_mutex s) holds_visited (workers s);
  mi_metadata : lock_inv (metadata_mutex s) holds_metadata (workers s);
  mi_queue_owner : forall i, queue_mutex s = Some i -> i < length (workers s)
}.

(** The value [remaining] that a worker tests at line 427 is not
    negative. *)
Definition clamp_ok (p : pc) : Prop :=
  match p with
  | AtClamp remaining _ => (0 <= remaining)%Z
  | _ => True
  end.

(** [active_workers_] counts the workers between their increment and
    their decrement. *)
Record active_inv (s : state) : Prop := {
  ai_count : active_workers s = Z.of_nat (tally counted_active (workers s));
  ai_clamp : Forall clamp_ok (workers s)
}.

(** [queued_] holds exactly the URLs of [frontier_] and those that a
    worker has just popped or is about to push; none of them occurs
    twice and none is in [visited_]. *)
Record frontier_inv (s : state) : Prop := {
  fi_nodup : NoDup (frontier s ++ gather owned (workers s));
  fi_queued : forall u,
    u ∈ queued s <-> u ∈ frontier s ++ gather owned (workers s);
  fi_disjoint : forall u, u ∈ visited s -> u ∉ queued s
}.

(** A worker inside the else-branch of line 389. *)
Definition sees_empty (p : pc) : bool :=
  match p with
  | AtLoadActive | AtStoreStop => true
  | _ => false
  end.

(** What such a worker has seen still holds: the frontier is empty
    (it holds [queue_mutex_], so nobody can push), and at line 391 the
    counter it has just read is still zero. *)
Record view_inv (s : state) : Prop := {
  vi_empty : forall j p,
    workers s !! j = Some p -> sees_empty p = true -> frontier s = [];
  vi_zero : forall j,
    workers s !! j = Some AtStoreStop -> active_workers s = 0%Z
}.

(** With [max_pages < 0], [process_url] returns [true]. *)
Definition keeps_running (p : pc) : Prop :=
  match p with
  | AtDecrement k | AtClamp _ k | AtAfter k => k = true
  | _ => True
  end.

(** The crawl is quiescent: nothing is queued and no worker holds a URL. *)
Record quiescent (s : state) : Prop := {
  q_frontier : frontier s = [];
  q_active : active_workers s = 0%Z;
  q_idle : Forall (fun p => busy p = false) (workers s)
}.

(** Without a page limit, the stop flag is set only in a quiescent
    state. *)
Record stop_inv (s : state) : Prop := {
  si_keep : Forall keeps_running (workers s);
  si_stop : stop s = true -> quiescent s
}.

(** The URLs of the ledger and the URLs that claimed workers may still
    add to it are pairwise distinct, and all of them are in [visited_]. *)
Record ledger_inv (s : state) : Prop := {
  li_nodup : NoDup ((row_url <$> ledger s) ++ gather pending (workers s));
  li_visited : forall u,
    u ∈ (row_url <$> ledger s) ++ gather pending (workers s) -> u ∈ visited s
}.

(** [pages_downloaded_] stays a [long]; and as long as the bound
    itself is a [long], the counter plus the number of workers that
    have passed the test of line 433 without having counted their page
    yet does not exceed [max_pages + threads - 1]. *)
Record pages_inv (cfg : Config) (s : state) : Prop := {
  pi_range : (- 2 ^ 63 <= pages_downloaded s <= LONG_MAX)%Z;
  pi_bound :
    (max_pages cfg + Z.of_nat (length (workers s)) - 1 <= LONG_MAX)%Z ->
    (0 <= pages_downloaded s)%Z
    /\ (pages_downloaded s + Z.of_nat (tally in_flight (workers s))
        <= max_pages cfg + Z.of_nat (length (workers s)) - 1)%Z
}.

(** The invariants that rely on [threads] being an [int]. *)
Record counting_inv (cfg : Config) (s : state) : Prop := {
  ci_length : length (workers s) = Z.to_nat (threads cfg);
  ci_mutex : mutex_inv s;
  ci_active : active_inv s;
  ci_view : view_inv s
}.

(** ** Claims of URLs *)

(** Worker [i] claims [url] in a step when it leaves [mark_visited]
    with [true] and goes on to [process_url(url)], line 403. *)
Definition claim_of_step (i : nat) (s s' : state) : list (nat * string) :=
  match workers s !! i, workers s' !! i with
  | Some (InMark url), Some (AtLimitCheck _) => [(i, url)]
  | _, _ => []
  end.

(** The claims made along a schedule, oldest first. *)
Fixpoint claims (cfg : Config) (sched : schedule) (s : state)
  : list (nat * string) :=
  match sched with
  | [] => []
  | (i, env) :: rest =>
      match worker_step cfg i env s with
      | Some s' => claim_of_step i s s' ++ claims cfg rest s'
      | None => []
      end
  end.

(** ** A seed that the filter of [enqueue_url] rejects *)

(** The program points of the loop header, lines 379-395. *)
Definition in_header (p : pc) : Prop :=
  match p with
  | AtTop | AtLockQueue | InQueue | AtLoadActive | AtStoreStop | Exited => True
  | _ => False
  end.

(** The number of steps a worker in the header can still take when
    the frontier stays empty and no worker is active. *)
Definition header_rank (p : pc) : nat :=
  match p with
  | AtTop => 5
  | AtLockQueue => 4
  | InQueue => 3
  | AtLoadActive => 2
  | AtStoreStop => 1
  | _ => 0
  end.

(** Nothing has been enqueued, fetched or written, and every worker
    is in the loop header. *)
Record nothing_crawled (s : state) : Prop := {
  nc_frontier : frontier s = [];
  nc_queued : queued s = ∅;
  nc_visited : visited s = ∅;
  nc_active : active_workers s = 0%Z;
  nc_pages : pages_downloaded s = 0%Z;
  nc_ledger : ledger s = [];
  nc_files : files s = [];
  nc_cerr : cerr s = [];
  nc_header : Forall in_header (workers s)
}.






(** ** Concrete runs *)

(** The state a schedule leads to from the initial state (the initial
    state itself if some step of the schedule is not enabled). *)
Definition state_after (cfg : Config) (sched : schedule) : state :=
  match run_schedule cfg sched (init cfg) with
  | Some s => s
  | None => init cfg
  end.

(** Worker [i] takes [n] steps in a row. *)
Definition turns (i n : nat) (env : option Transfer) : schedule :=
  replicate n (i, env).

(** A two-worker crawl of [ex.test] without page limit. *)
Definition demo_config : Config :=
  mkConfig "https://ex.test/a" ["ex.test"] (-1) 2
           (list_to_set [".html"; ".pdf"]).

(** The same crawl with [max_pages = 2]. *)
Definition limited_config : Config :=
  mkConfig "https://ex.test/a" ["ex.test"] 2 2
           (list_to_set [".html"; ".pdf"]).

(** A seed outside the allowed domains. *)
Definition foreign_seed_config : Config :=
  mkConfig "https://other.test/" ["ex.test"] (-1) 2
           (list_to_set [".html"; ".pdf"]).

(** The default configuration with a fragment on the seed, one worker. *)
Definition fragment_seed_config : Config :=
  mkConfig "https://www.bgsu.edu#top" (allowed_domains default_config)
           (max_pages default_config) 1 (allowed_extensions default_config).

(** A page that links twice to [/b], served with a mixed-case header. *)
Definition page_a : option Transfer :=
  Some (mkTransfer 0 200
          ["HTTP/1.1 200 OK"; "Content-Type: Text/HTML; charset=UTF-8"]
          ["<a href='/b'>b</a>"; "<a href='/b#x'>again</a>"]).

(** A page that links to [/b] and [/c]. *)
Definition page_two_links : option Transfer :=
  Some (mkTransfer 0 200 ["Content-Type: text/html"]
          ["<a href='/b'>b</a><a href='/c'>c</a>"]).

(** A page without links. *)
Definition page_plain : option Transfer :=
  Some (mkTransfer 0 200 ["Content-Type: text/html"] ["<html>hi</html>"]).

(** A transfer that libcurl completes ([CURLE_OK]) with status 404. *)
Definition page_not_found : option Transfer :=
  Some (mkTransfer 0 404 ["HTTP/1.1 404 Not Found"; "Content-Type: text/html"]
          ["<h1>Not Found</h1>"]).


(** A transfer that times out ([CURLE_OPERATION_TIMEDOUT] is 28) after
    part of the body has arrived. *)
Definition timed_out : Transfer :=
  mkTransfer 28 0 ["Content-Type: text/html"] ["<html>par"].

(** Worker 0 processes the seed and pushes [/b]; worker 1 pops [/b]
    and stands before [mark_visited]; worker 0 still has the second
    link to [/b] to offer. *)
Definition popped_not_marked : schedule :=
  turns 0 17 page_a ++ turns 1 4 None.

(** The whole demo crawl, up to the exit of both workers. *)
Definition full_crawl : schedule :=
  popped_not_marked ++ turns 0 8 None ++ turns 1 12 page_plain
  ++ turns 1 5 None ++ turns 0 4 None.

(** With [max_pages = 2]: the seed is counted, then both workers pass
    the test of line 433 while the counter is 1, and both count. *)
Definition overshoot : schedule :=
  turns 0 26 page_two_links ++ turns 0 7 None ++ turns 1 7 None
  ++ turns 0 5 page_plain ++ turns 1 5 page_plain.

(** ** Further invariants of the crawl *)

(** A URL as [enqueue_url] lets it into the frontier: free of a
    fragment, not empty, and of an allowed domain. *)
Definition accepted (cfg : Config) (url : string) : Prop :=
  enqueue_candidate cfg url = Some url.

(** The URLs a worker carries in its local variables [url] and
    [normalized], and in the row it is about to append. *)
Definition carried (p : pc) : list string :=
  match p with
  | AtClaimInc url | AtMarkLock url | InMark url | AtLimitCheck url
  | AtFetch url | AtPersist url _ | AtCount url _ _ => [url]
  | AtMetaLock url _ _ row | InMeta url _ _ row => [url; row_url row]
  | AtEnqueueLock n _ _ | InEnqueue n _ _ | AtEnqueueLockQueue n _ _
  | InEnqueuePush n _ _ => [n]
  | _ => []
  end.

(** Every URL held by the crawler has passed the filter of
    [enqueue_url]. *)
Record url_inv (cfg : Config) (s : state) : Prop := {
  ui_frontier : Forall (accepted cfg) (frontier s);
  ui_queued : forall u, u ∈ queued s -> accepted cfg u;
  ui_visited : forall u, u ∈ visited s -> accepted cfg u;
  ui_ledger : Forall (fun row => accepted cfg (row_url row)) (ledger s);
  ui_workers : Forall (fun p => Forall (accepted cfg) (carried p)) (workers s)
}.

(** The holders of [visited_mutex_] and [metadata_mutex_] are workers. *)
Record owner_inv (s : state) : Prop := {
  oi_visited : forall i, visited_mutex s = Some i -> i < length (workers s);
  oi_metadata : forall i, metadata_mutex s = Some i -> i < length (workers s)
}.

(** The artifact of a ledger row has been written. *)
Definition row_written (s : state) (row : MetadataRecord) : Prop :=
  exists art, art ∈ files s /\ row_path row = (art_dir art, art_name art).

Definition row_of (p : pc) : list MetadataRecord :=
  match p with
  | AtMetaLock _ _ _ row | InMeta _ _ _ row => [row]
  | _ => []
  end.

Record written_inv (s : state) : Prop := {
  wi_ledger : Forall (row_written s) (ledger s);
  wi_workers : Forall (fun p => Forall (row_written s) (row_of p)) (workers s)
}.

(** A worker between the file write of lines 449-462 and the append
    of line 467, and a worker between that append and the
    [fetch_add] of line 470. *)
Definition before_row (p : pc) : nat :=
  match p with
  | AtMetaLock _ _ _ _ | InMeta _ _ _ _ => 1
  | _ => 0
  end.

Definition before_count (p : pc) : nat :=
  match p with
  | AtCount _ _ _ => 1
  | _ => 0
  end.

(** Files, rows and the page counter move together. *)
Record count_inv (s : state) : Prop := {
  ci_files :
    length (files s) = length (ledger s) + tally before_row (workers s);
  ci_pages :
    pages_downloaded s
    = wrap64 (Z.of_nat (length (ledger s))
              - Z.of_nat (tally before_count (workers s)))
}.

(** A worker inside [process_url] past the test of line 433. *)
Definition fetching (p : pc) : Prop :=
  match p with
  | AtFetch _ | AtPersist _ _ | AtMetaLock _ _ _ _ | InMeta _ _ _ _
  | AtCount _ _ _ | AtLinks _ _ | AtEnqueueLock _ _ _ | InEnqueue _ _ _
  | AtEnqueueLockQueue _ _ _ | InEnqueuePush _ _ _ => True
  | _ => False
  end.

Record nothing_fetched (s : state) : Prop := {
  nf_pages : pages_downloaded s = 0%Z;
  nf_ledger : ledger s = [];
  nf_files : files s = [];
  nf_cerr : cerr s = [];
  nf_workers : Forall (fun p => ~ fetching p) (workers s)
}.

(** What a worker knows about the page counter: the value [current]
    it has read is not above the counter, and if [process_url] has
    returned [false] the limit has been reached. *)
Definition limit_seen (cfg : Config) (s : state) (p : pc) : Prop :=
  match p with
  | AtLinks current _ | AtEnqueueLock _ current _ | InEnqueue _ current _
  | AtEnqueueLockQueue _ current _ | InEnqueuePush _ current _ =>
      (current <= pages_downloaded s)%Z
  | AtDecrement false | AtClamp _ false | AtAfter false =>
      (max_pages cfg <= pages_downloaded s)%Z
  | _ => True
  end.

Record limit_inv (cfg : Config) (s : state) : Prop := {
  li_seen : Forall (limit_seen cfg s) (workers s);
  li_stop : stop s = true ->
            quiescent s \/ (max_pages cfg <= pages_downloaded s)%Z
}.

(** ** Artifacts on disk *)

(** What can be said of a file the crawler writes: a non-empty body
    under a name that is safe as a single path component and tells the
    subtree it belongs to. *)
Record well_named (art : Artifact) : Prop := {
  wn_body : art_body art <> "";
  wn_name : art_name art <> "";
  wn_length : String.length (art_name art) <= 240;
  wn_chars : all_chars is_filename_char (art_name art) = true;
  wn_prefix :
    starts_with (match art_dir art with
                 | HtmlDir => "html__"
                 | FilesDir => "file__"
                 end) (art_name art) = true
}.

(** The subtrees can be keys of a finite map. *)
#[global] Instance Subtree_eq_dec : EqDecision Subtree.
Proof. solve_decision. Defined.

#[global] Instance Subtree_countable : Countable Subtree.
Proof.
  refine (inj_countable'
            (fun d => match d with HtmlDir => true | FilesDir => false end)
            (fun b => if b : bool then HtmlDir else FilesDir) _).
  by intros [].
Defined.

(** [std::ofstream] on a path, lines 452 and 460: the file is created,
    or replaced when a file of that name exists. *)
Definition write_file (dir : gmap (Subtree * string) string) (art : Artifact)
  : gmap (Subtree * string) string :=
  <[(art_dir art, art_name art) := art_body art]> dir.

(** What the writes of this run leave under [raw_output]: the content
    of each path, the last write winning. *)
Definition directory (s : state) : gmap (Subtree * string) string :=
  fold_left write_file (files s) ∅.

(** ** Reading the configuration *)

(** The readers of lines 55-97 search the text of [pipeline.json] with
    a pattern built around the key.  The keys that [load_config] passes
    are made of letters and underscores, so a key stands for itself in
    the pattern.  [\s] is [std::isspace]. *)
Definition dquote : ascii := ascii_of_nat 34.

Definition is_dquote (c : ascii) : bool := (code c =? 34)%nat.

Definition is_word_char (c : ascii) : bool :=
  is_alnum c || (code c =? 95)%nat.

(** The key between double quotes. *)
Definition quoted (key : string) : string :=
  String dquote (key ++ String dquote "")%string.

(** [std::regex_search]: the first position, from the left, at which
    an attempt to match succeeds; the end of the text is a position
    too. *)
Fixpoint regex_search {A : Type} (attempt : string -> option A)
    (s : string) : option A :=
  match attempt s with
  | Some m => Some m
  | None =>
      match s with
      | EmptyString => None
      | String _ r => regex_search attempt r
      end
  end.

(** The common head of the four patterns, at the start of [s]: the
    quoted key, spaces, a colon, spaces.  The pieces cannot give
    characters to one another, so the attempt is deterministic.
    Returns what follows. *)
Definition match_key (key s : string) : option string :=
  if starts_with (quoted key) s then
    match drop_while is_space (drop (String.length (quoted key)) s) with
    | String c r =>
        if (code c =? 58)%nat then Some (drop_while is_space r) else None
    | EmptyString => None
    end
  else None.

(** The pattern of [read_string]: the head, a double quote, any number
    of characters other than a double quote (the capture), a double
    quote. *)
Definition match_string (key s : string) : option string :=
  match match_key key s with
  | Some (String q r) =>
      if is_dquote q then
        let value := take_while (fun c => negb (is_dquote c)) r in
        match drop (String.length value) r with
        | String _ _ => Some value
        | EmptyString => None
        end
      else None
  | _ => None
  end.

(** [read_string], lines 55-62. *)
Definition read_string (data key fallback : string) : string :=
  match regex_search (match_string key) data with
  | Some value => value
  | None => fallback
  end.

(** The pattern of [read_long]: the head and a non-empty run of digits
    and minus signs, as long as possible. *)
Definition is_long_char (c : ascii) : bool :=
  (code c =? 45)%nat || is_digit c.

Definition match_long (key s : string) : option string :=
  match match_key key s with
  | Some r =>
      let m := take_while is_long_char r in
      if is_empty m then None else Some m
  | None => None
  end.

Definition LONG_MIN : Z := (- 2 ^ 63)%Z.

Fixpoint digits_value (acc : Z) (s : string) : Z :=
  match s with
  | EmptyString => acc
  | String c r => digits_value (10 * acc + Z.of_nat (code c - 48)) r
  end.

(** [std::stol] in base 10: leading white space, an optional sign, the
    longest run of digits; what follows is ignored.  [None] is an
    exception: [std::invalid_argument] when there is no digit,
    [std::out_of_range] when the value is not a [long]. *)
Definition stol (s : string) : option Z :=
  let s := drop_while is_space s in
  let '(negative, rest) :=
    match s with
    | String c r =>
        if (code c =? 45)%nat then (true, r)
        else if (code c =? 43)%nat then (false, r)
        else (false, s)
    | EmptyString => (false, s)
    end in
  let digits := take_while is_digit rest in
  if is_empty digits then None
  else
    let value := if negative : bool then (- digits_value 0 digits)%Z
                 else digits_value 0 digits in
    if (LONG_MIN <=? value)%Z && (value <=? LONG_MAX)%Z then Some value
    else None.

(** [read_long], lines 64-71.  [None]: the exception of [std::stol]
    leaves the function. *)
Definition read_long (data key : string) (fallback : Z) : option Z :=
  match regex_search (match_long key) data with
  | Some m => stol m
  | None => Some fallback
  end.

(** The pattern of [read_double]: the head and a non-empty run of
    digits, dots and minus signs, as long as possible. *)
Definition is_double_char (c : ascii) : bool :=
  (code c =? 45)%nat || is_digit c || (code c =? 46)%nat.

Definition match_double (key s : string) : option string :=
  match match_key key s with
  | Some r =>
      let m := take_while is_double_char r in
      if is_empty m then None else Some m
  | None => None
  end.

(** Whether [strtod] finds a number at the start of a run of digits,
    dots and minus signs: an optional minus sign, then a digit, or a
    dot and a digit. *)
Definition starts_decimal (s : string) : bool :=
  let rest :=
    match s with
    | String c r => if (code c =? 45)%nat then r else s
    | EmptyString => s
    end in
  match rest with
  | String c r =>
      is_digit c
      || ((code c =? 46)%nat
          && match r with
             | String d _ => is_digit d
             | EmptyString => false
             end)
  | EmptyString => false
  end.

(** [std::stod] on a capture of [read_double].  It throws
    [std::invalid_argument] when no number starts the text and
    [std::out_of_range] when [strtod] reports a range error; for which
    texts it does so is the platform's choice, given by
    [out_of_range].  [None] is an exception.  The value is not
    modelled: the [Config] of the model has no field of type
    [double]. *)
Definition stod (out_of_range : string -> bool) (s : string) : option unit :=
  if negb (starts_decimal s) then None
  else if out_of_range s then None
  else Some tt.

(** [read_double], lines 73-80: whether the call returns. *)
Definition read_double (out_of_range : string -> bool) (data key : string)
  : option unit :=
  match regex_search (match_double key) data with
  | Some m => stod out_of_range m
  | None => Some tt
  end.

(** The first pattern of [read_string_array]: the head, an opening
    bracket, as few characters as possible (the capture), a closing
    bracket.  The capture ends at the first closing bracket; the
    ECMAScript [.] matches no line terminator, so the capture cannot
    span lines. *)
Definition is_close_bracket (c : ascii) : bool := (code c =? 93)%nat.

Definition match_array (key s : string) : option string :=
  match match_key key s with
  | Some (String b r) =>
      if (code b =? 91)%nat then
        let content := take_while (fun c => negb (is_close_bracket c)) r in
        match drop (String.length content) r with
        | String _ _ =>
            if all_chars (fun c => negb (is_line_terminator c)) content
            then Some content else None
        | EmptyString => None
        end
      else None
  | _ => None
  end.

(** The second pattern, at the start of [s]: a double quote, a
    non-empty run of characters other than a double quote (the
    capture), a double quote.  Returns the capture and the length of
    the match. *)
Definition match_quoted (s : string) : option (string * nat) :=
  match s with
  | String q r =>
      if is_dquote q then
        let value := take_while (fun c => negb (is_dquote c)) r in
        match value, drop (String.length value) r with
        | String _ _, String _ _ => Some (value, (String.length value + 2)%nat)
        | _, _ => None
        end
      else None
  | EmptyString => None
  end.

(** The [std::sregex_iterator] loop of lines 91-95. *)
Fixpoint scan_quoted (skip : nat) (s : string) : list string :=
  match s with
  | EmptyString => []
  | String _ r =>
      match skip with
      | S k => scan_quoted k r
      | O =>
          match match_quoted s with
          | Some (value, len) => value :: scan_quoted (len - 1) r
          | None => scan_quoted 0 r
          end
      end
  end.

(** [read_string_array], lines 82-97. *)
Definition read_string_array (data key : string) (fallback : list string)
  : list string :=
  match regex_search (match_array key) data with
  | None => fallback
  | Some content =>
      let values := scan_quoted 0 content in
      if bool_decide (values = []) then fallback else values
  end.

(** *** [load_config]

    The fields of the configuration are computed from the text of
    [pipeline.json], each by one reader. *)

(** [static_cast<int>] of a value that does not fit. *)
Definition wrap32 (z : Z) : Z :=
  ((z + 2 ^ 31) mod 2 ^ 32 - 2 ^ 31)%Z.

(** [cfg.start_url], line 139. *)
Definition configured_start_url (data : string) : string :=
  read_string data "start_url" (start_url default_config).

(** The loop of lines 153-159: one extension of the file is inserted
    with a leading dot. *)
Definition insert_extension (acc : gset string) (ext : string) : gset string :=
  match ext with
  | String c _ =>
      if (code c =? 46)%nat then {[ext]} ∪ acc
      else {[String "." ext]} ∪ acc
  | EmptyString => acc
  end.

(** [cfg.allowed_extensions], lines 150-160. *)
Definition configured_extensions (data : string) : gset string :=
  let extensions := read_string_array data "extensions" [] in
  if bool_decide (extensions = []) then allowed_extensions default_config
  else fold_left insert_extension extensions ∅.

(** [cfg.allowed_domains], lines 140 and 165-167. *)
Definition configured_domains (data : string) : list string :=
  map to_lower
      (read_string_array data "allowed_domains"
         (allowed_domains default_config)).

(** [load_config] from line 132 on, after the search for the
    directory of the file.  [file] is the text of [pipeline.json], or
    [None] when there is no such file at line 136; [hw] is what
    [std::thread::hardware_concurrency()] returns, an [unsigned].  The
    assignments are made in the order of lines 139-160, and a reader
    that throws ends the function: the result is [None].  [raw_output]
    is read without a throw and is not a field of the model. *)
Definition load_config (out_of_range : string -> bool) (hw : Z)
    (file : option string) : option Config :=
  let threads0 := wrap32 (Z.max 1 hw) in
  let defaults :=
    mkConfig (start_url default_config)
             (map to_lower (allowed_domains default_config))
             (max_pages default_config) threads0
             (allowed_extensions default_config) in
  match file with
  | None => Some defaults
  | Some data =>
      if is_empty data then Some defaults
      else
        match read_long data "max_pages" (max_pages default_config) with
        | None => None
        | Some pages =>
            match read_double out_of_range data "delay" with
            | None => None
            | Some _ =>
                match read_double out_of_range data "timeout" with
                | None => None
                | Some _ =>
                    match read_long data "crawler_threads" threads0 with
                    | None => None
                    | Some link_threads =>
                        Some (mkConfig
                                (configured_start_url data)
                                (configured_domains data)
                                pages
                                (if (0 <? link_threads)%Z
                                 then wrap32 link_threads else threads0)
                                (configured_extensions data))
                    end
                end
            end
        end
  end.

(** *** Sample inputs *)

(** The demo crawl with [max_pages = 0]. *)
Definition zero_limit_config : Config :=
  mkConfig "https://ex.test/a" ["ex.test"] 0 2
           (list_to_set [".html"; ".pdf"]).

(** The limited crawl of [overshoot], continued until worker 0 has
    left the loop and set the stop flag. *)
Definition overshoot_stopped : schedule := overshoot ++ turns 0 4 None.

(** The part of [full_crawl] after [popped_not_marked]. *)
Definition rest_of_crawl : schedule :=
  turns 0 8 None ++ turns 1 12 page_plain ++ turns 1 5 None
  ++ turns 0 4 None.

(** A configuration file on one line. *)
Definition pipeline_json : string :=
  ("{ " ++ quoted "start_url" ++ ": " ++ quoted "https://ex.test/a" ++ ", "
   ++ quoted "allowed_domains" ++ ": [" ++ quoted "Ex.Test" ++ "], "
   ++ quoted "max_pages" ++ ": -1, "
   ++ quoted "crawler_threads" ++ " : 4, "
   ++ quoted "extensions" ++ ": [" ++ quoted "pdf" ++ ", " ++ quoted ".html"
   ++ "] }")%string.

(** The line feed. *)
Definition LF : string := String (ascii_of_nat 10) "".

(** The same array of extensions written over three lines. *)
Definition extensions_on_lines : string :=
  ("{ " ++ quoted "extensions" ++ ": [" ++ LF ++ quoted "pdf" ++ "," ++ LF
   ++ quoted ".html" ++ LF ++ "] }")%string.

(** The response headers of [page_a]. *)
Definition headers_a : Transfer :=
  mkTransfer 0 200
    ["HTTP/1.1 200 OK"; "Content-Type: Text/HTML; charset=UTF-8";
     "Content-Length: 42"]
    ["<a href='/b'>b</a>"].

(** A page at [/a] that links to [/a.html]. *)
Definition page_links_to_html : option Transfer :=
  Some (mkTransfer 0 200 ["Content-Type: text/html"]
          ["<a href='/a.html'>same</a>"]).

(** Worker 0 crawls [/a] and then [/a.html]; both pages are saved
    under the name [html__ex.test_a.html]. *)
Definition colliding_crawl : schedule :=
  turns 0 21 page_links_to_html ++ turns 0 16 page_plain.

(** A configuration file with a number of threads and a timeout that
    is a lone minus sign. *)
Definition pipeline_json_bad_timeout : string :=
  ("{ " ++ quoted "crawler_threads" ++ ": 4, " ++ quoted "timeout"
   ++ ": - }")%string.

(** A platform on which [strtod] reports no range error. *)
Definition no_range_error (text : string) : bool := false.

(** * Properties *)

(** ** The URL utilities on examples *)

Example parse_url_seed :
  parse_url "https://WWW.bgsu.edu" = Some (mkUrlParts "https" "www.bgsu.edu" "/").
Proof. reflexivity. Qed.

Example parse_url_path :
  parse_url "HTTP://h:80/a/b?x#y"
  = Some (mkUrlParts "http" "h:80" "/a/b?x#y").
Proof. reflexivity. Qed.

Example parse_url_no_host : parse_url "https:///a" = None.
Proof. reflexivity. Qed.

Example extension_example :
  extension_from_url "https://h/a/b.PDF?x=1#f" = ".pdf".
Proof. reflexivity. Qed.

Example trim_example : trim "  /a b
 " = "/a b".
Proof. reflexivity. Qed.

Example sanitize_example :
  sanitize_filename (mkUrlParts "https" "ex.test" "/") ".html" "html"
  = "html__ex.test_index.html".
Proof. reflexivity. Qed.

Example sanitize_collapse :
  sanitize_filename (mkUrlParts "https" "h" "/a b??c") ".bin" "file"
  = "file__h_a_b_c.bin".
Proof. reflexivity. Qed.

Example extract_links_example :
  extract_links "<a HREF = '/b#x'>b</a><a href='mailto:a@b'>m</a><a href='c.html'>"
                "https://ex.test/dir/a"
  = ["https://ex.test/b#x"; "https://ex.test/dir/c.html"].
Proof. reflexivity. Qed.

(** The two quotes of an attribute need not be the same character. *)
Example extract_links_mixed_quotes :
  let dq := String (ascii_of_nat 34) EmptyString in
  extract_links ("<a href=" ++ dq ++ "/p'>") "https://ex.test/"
  = ["https://ex.test/p"].
Proof. reflexivity. Qed.

(** ** Tallies over the workers *)

Lemma tally_insert (f : pc -> nat) (l : list pc) i p q :
  l !! i = Some p ->
  tally f (<[i := q]> l) + f p = tally f l + f q.
Proof.
  revert i. induction l as [|a l IH]; intros [|i] H; simplify_eq/=; [lia|].
  specialize (IH _ H). lia.
Qed.

Lemma tally_lookup_le (f : pc -> nat) (l : list pc) i p :
  l !! i = Some p -> f p <= tally f l.
Proof.
  revert i. induction l as [|a l IH]; intros [|i] H; simplify_eq/=; [lia|].
  specialize (IH _ H). lia.
Qed.

Lemma tally_le_length (f : pc -> nat) (l : list pc) :
  (forall p, f p <= 1) -> tally f l <= length l.
Proof.
  intros Hf. induction l as [|a l IH]; simpl; [lia|].
  specialize (Hf a). lia.
Qed.

Lemma tally_replicate_0 (f : pc -> nat) n p :
  f p = 0 -> tally f (replicate n p) = 0.
Proof. intros H. induction n; simpl; lia. Qed.

Lemma gather_insert (g : pc -> list string) (l : list pc) i p q :
  l !! i = Some p ->
  exists others,
    gather g l ≡ₚ g p ++ others /\ gather g (<[i := q]> l) ≡ₚ g q ++ others.
Proof.
  revert i. induction l as [|a l IH]; intros [|i] H; simplify_eq/=.
  - by exists (gather g l).
  - destruct (IH _ H) as (others & H1 & H2).
    exists (g a ++ others). split.
    + rewrite H1. by rewrite !(assoc (++)), (comm (++) (g a)).
    + rewrite H2. by rewrite !(assoc (++)), (comm (++) (g a)).
Qed.

Lemma gather_lookup (g : pc -> list string) (l : list pc) i p u :
  l !! i = Some p -> u ∈ g p -> u ∈ gather g l.
Proof.
  revert i. induction l as [|a l IH]; intros [|i] H Hu; simplify_eq/=;
    apply elem_of_app; eauto.
Qed.

Lemma gather_elem (g : pc -> list string) (l : list pc) u :
  u ∈ gather g l -> exists i p, l !! i = Some p /\ u ∈ g p.
Proof.
  induction l as [|a l IH]; simpl; [by intros ?%elem_of_nil|].
  intros [H|H]%elem_of_app.
  - by exists 0, a.
  - destruct (IH H) as (i & p & Hi & Hp). by exists (S i), p.
Qed.

Lemma gather_replicate_nil (g : pc -> list string) n p :
  g p = [] -> gather g (replicate n p) = [].
Proof. intros H. induction n; simpl; [done|]. by rewrite H. Qed.

(** Case analysis on the step a worker takes. *)
Ltac step_inv H :=
  unfold worker_step in H;
  match type of H with
  | context [workers ?s !! ?i] =>
      let Hpc := fresh "Hpc" in
      destruct (workers s !! i) as [[]|] eqn:Hpc
  end;
  simplify_eq/=; repeat case_match; simplify_eq/=.

(** ** The mutexes *)

Lemma workers_enqueue_url cfg url s :
  workers (enqueue_url cfg url s) = workers s.
Proof. unfold enqueue_url. by repeat case_match. Qed.

Lemma workers_init cfg :
  workers (init cfg) = replicate (Z.to_nat (threads cfg)) AtTop.
Proof. unfold init. by rewrite workers_enqueue_url. Qed.

Lemma lock_inv_insert m m' holds l i p q :
  lock_inv m holds l ->
  l !! i = Some p ->
  (holds q = true <-> m' = Some i) ->
  (forall j, j <> i -> (m' = Some j <-> m = Some j)) ->
  lock_inv m' holds (<[i := q]> l).
Proof.
  intros IH Hi Hq Hother j r Hj.
  destruct (decide (j = i)) as [->|Hne].
  - rewrite list_lookup_insert_eq in Hj by (by eapply lookup_lt_Some).
    by simplify_eq.
  - rewrite list_lookup_insert_ne in Hj by done.
    rewrite (IH _ _ Hj). symmetry. by apply Hother.
Qed.

Lemma mutex_inv_init cfg : mutex_inv (init cfg).
Proof.
  assert (forall holds, holds AtTop = false ->
            lock_inv None holds (workers (init cfg))) as H.
  { intros holds Hh j p. rewrite workers_init.
    intros [-> _]%lookup_replicate. by rewrite Hh. }
  unfold init, enqueue_url in *.
  split; repeat case_match; simpl in *; try (by apply H);
    intros i Hi; discriminate.
Qed.

Lemma mutex_inv_step cfg i env s s' :
  mutex_inv s -> worker_step cfg i env s = Some s' -> mutex_inv s'.
Proof.
  intros [Hq Hv Hm Ho] H.
  step_inv H;
    pose proof (Hq _ _ Hpc); pose proof (Hv _ _ Hpc);
    pose proof (Hm _ _ Hpc); pose proof (lookup_lt_Some _ _ _ Hpc);
    simpl in *;
    (split; simpl;
     [ eapply (lock_inv_insert _ _ _ _ _ _ _ Hq Hpc)
     | eapply (lock_inv_insert _ _ _ _ _ _ _ Hv Hpc)
     | eapply (lock_inv_insert _ _ _ _ _ _ _ Hm Hpc)
     | rewrite length_insert; intros j Hj; simplify_eq;
       first [done | by apply Ho] ];
     simpl; intros; intuition congruence).
Qed.

(** ** The counter of active workers *)

Lemma wrap64_id z : (- 2 ^ 63 <= z < 2 ^ 63)%Z -> wrap64 z = z.
Proof.
  intros H. unfold wrap64.
  rewrite Z.mod_small by lia. lia.
Qed.

Lemma wrap64_range z : (- 2 ^ 63 <= wrap64 z <= LONG_MAX)%Z.
Proof.
  unfold wrap64, LONG_MAX.
  pose proof (Z.mod_pos_bound (z + 2 ^ 63) (2 ^ 64)). lia.
Qed.

Lemma worker_step_length cfg i env s s' :
  worker_step cfg i env s = Some s' ->
  length (workers s') = length (workers s).
Proof. intros H. step_inv H; by rewrite length_insert. Qed.

Lemma counted_active_le_1 p : counted_active p <= 1.
Proof. destruct p; simpl; lia. Qed.

Lemma in_flight_le_1 p : in_flight p <= 1.
Proof. destruct p; simpl; lia. Qed.

Lemma tally_insert_eq (f : pc -> nat) (l : list pc) i p q :
  l !! i = Some p -> tally f (<[i := q]> l) = tally f l + f q - f p.
Proof. intros H. pose proof (tally_insert f l i p q H). lia. Qed.

Lemma tally_others (f : pc -> nat) (l : list pc) i p :
  (forall p, f p <= 1) -> l !! i = Some p -> tally f l + 1 <= length l + f p.
Proof.
  intros Hf. revert i. induction l as [|a l IH]; intros [|i] H; simplify_eq/=.
  - pose proof (tally_le_length f l Hf). lia.
  - specialize (IH _ H). specialize (Hf a). lia.
Qed.

(** The tally after worker [i] has moved from [p] to [q], in terms of
    the tally before. *)
Ltac tally_step f Hf :=
  match goal with
  | Hpc : workers ?s !! ?i = Some ?p |- _ =>
      pose proof (tally_lookup_le f _ _ _ Hpc);
      pose proof (tally_others f _ _ _ Hf Hpc);
      rewrite ?(tally_insert_eq f _ _ _ _ Hpc)
  end.

Lemma active_inv_init cfg : active_inv (init cfg).
Proof.
  split.
  - rewrite workers_init, tally_replicate_0 by done.
    unfold init, enqueue_url. by repeat case_match.
  - rewrite workers_init. by apply Forall_replicate.
Qed.

Lemma active_inv_step cfg i env s s' :
  (Z.of_nat (length (workers s)) <= INT_MAX)%Z ->
  active_inv s -> worker_step cfg i env s = Some s' -> active_inv s'.
Proof.
  intros Hlen [Hc Hk] H. unfold INT_MAX in Hlen.
  step_inv H;
    pose proof (Forall_lookup_1 _ _ _ _ Hk Hpc) as Hki;
    (split; simpl in *;
     [ tally_step counted_active counted_active_le_1; simpl in *;
       rewrite ?(wrap64_id (active_workers s + 1)),
         ?(wrap64_id (active_workers s - 1)) by lia; lia
     | apply Forall_insert; [done|]; simpl; try done;
       tally_step counted_active counted_active_le_1; simpl in *;
       rewrite wrap64_id; lia ]).
Qed.

(** Facts about tests, as propositions. *)
Ltac test_facts :=
  repeat match goal with
  | H : _ || _ = true |- _ => apply orb_true_iff in H; destruct H
  | H : _ || _ = false |- _ => apply orb_false_iff in H; destruct H
  | H : _ && _ = true |- _ => apply andb_true_iff in H; destruct H
  | H : _ && _ = false |- _ => apply andb_false_iff in H; destruct H
  | H : negb _ = true |- _ => apply negb_true_iff in H
  | H : negb _ = false |- _ => apply negb_false_iff in H
  | H : bool_decide _ = true |- _ => apply bool_decide_eq_true in H
  | H : bool_decide _ = false |- _ => apply bool_decide_eq_false in H
  | H : (_ =? _)%Z = true |- _ => apply Z.eqb_eq in H
  | H : (_ =? _)%Z = false |- _ => apply Z.eqb_neq in H
  | H : (_ <? _)%Z = true |- _ => apply Z.ltb_lt in H
  | H : (_ <? _)%Z = false |- _ => apply Z.ltb_ge in H
  | H : (_ >=? _)%Z = true |- _ => apply Z.geb_le in H
  | H : (_ >=? _)%Z = false |- _ => rewrite Z.geb_leb in H; apply Z.leb_gt in H
  end.

(** ** The frontier and its sets *)

Lemma frontier_inv_init cfg : frontier_inv (init cfg).
Proof.
  unfold init, enqueue_url.
  repeat case_match; simpl in *;
    (split; simpl; rewrite ?gather_replicate_nil by done; simpl;
     [ first [apply NoDup_nil_2 | apply NoDup_singleton]
     | set_solver
     | set_solver ]).
Qed.

Lemma frontier_inv_frame s i p q :
  frontier_inv s -> workers s !! i = Some p ->
  exists others,
    NoDup (frontier s ++ owned p ++ others)
    /\ (forall u, u ∈ queued s <-> u ∈ frontier s ++ owned p ++ others)
    /\ gather owned (<[i := q]> (workers s)) ≡ₚ owned q ++ others.
Proof.
  intros [Hn Hq _] Hpc.
  destruct (gather_insert owned _ _ _ q Hpc) as (others & Ho & Ho').
  exists others. split; [by rewrite <- Ho|]. split; [|done].
  intros u. by rewrite Hq, Ho.
Qed.

Lemma frontier_inv_step cfg i env s s' :
  frontier_inv s -> worker_step cfg i env s = Some s' -> frontier_inv s'.
Proof.
  intros Hinv H. pose proof (fi_disjoint _ Hinv) as Hd.
  step_inv H; test_facts;
    match goal with
    | |- context [goto _ ?q _] =>
        destruct (frontier_inv_frame _ _ _ q Hinv Hpc)
          as (others & Hn & Hq & Ho)
    end;
    clear Hinv; simpl in *;
    (split; simpl; [rewrite Ho | intros u; rewrite Ho | ]);
    try match goal with
    | E : frontier s = _ |- _ =>
        try rewrite E in Hn; try rewrite E in Hq; try rewrite E
    end;
    simpl in *;
    rewrite ?NoDup_app, ?NoDup_cons, ?NoDup_app, ?NoDup_cons, ?NoDup_nil in *;
    try done; set_solver.
Qed.

(** ** What the stopping worker has seen *)

Lemma view_inv_init cfg : view_inv (init cfg).
Proof.
  split; intros j; rewrite workers_init.
  - by intros p [-> _]%lookup_replicate.
  - by intros [? _]%lookup_replicate.
Qed.

Lemma view_inv_step cfg i env s s' :
  mutex_inv s -> active_inv s -> view_inv s ->
  worker_step cfg i env s = Some s' -> view_inv s'.
Proof.
  intros [Hmq _ _ _] [Hc _] [He Hz] H.
  step_inv H; test_facts;
    pose proof (Hmq _ _ Hpc) as Hi;
    pose proof (tally_lookup_le counted_active _ _ _ Hpc) as Hle;
    (split; simpl;
     [ intros j p' [(-> & <- & _)|(Hne & Hj)]%list_lookup_insert_Some Hs;
       [ simpl in *; try done; by eauto
       | pose proof (Hmq _ _ Hj) as Hjq; pose proof (He _ _ Hj Hs) as Hf;
         destruct p'; simpl in *; try done; intuition congruence ]
     | intros j [(-> & ? & _)|(Hne & Hj)]%list_lookup_insert_Some;
       [ try done; simpl in *; by eauto
       | pose proof (Hmq _ _ Hj) as Hjq; pose proof (Hz _ Hj) as Hf;
         simpl in *; try done; try lia; intuition congruence ] ]).
Qed.

(** ** Stopping without a page limit *)

Lemma busy_cases p :
  busy p = true -> counted_active p = 1 \/ exists url, p = AtClaimInc url.
Proof. destruct p; simpl; eauto; done. Qed.

Lemma quiescent_at_store_stop s i :
  mutex_inv s -> active_inv s -> view_inv s ->
  workers s !! i = Some AtStoreStop -> quiescent s.
Proof.
  intros [Hmq _ _ _] [Hc _] [He Hz] Hpc. split.
  - by eapply He.
  - by eapply Hz.
  - apply Forall_lookup_2. intros j p Hj.
    destruct (busy p) eqn:Hb; [exfalso|done].
    apply busy_cases in Hb as [Hb|[url ->]].
    + pose proof (tally_lookup_le counted_active _ _ _ Hj).
      specialize (Hz _ Hpc). lia.
    + pose proof (Hmq _ _ Hj) as [Hjq _]. pose proof (Hmq _ _ Hpc) as [Hiq _].
      specialize (Hjq eq_refl). specialize (Hiq eq_refl). congruence.
Qed.

Lemma stop_inv_init cfg : stop_inv (init cfg).
Proof.
  split.
  - rewrite workers_init. by apply Forall_replicate.
  - unfold init, enqueue_url. by repeat case_match.
Qed.

Lemma stop_inv_step cfg i env s s' :
  (max_pages cfg < 0)%Z ->
  mutex_inv s -> active_inv s -> view_inv s -> stop_inv s ->
  worker_step cfg i env s = Some s' -> stop_inv s'.
Proof.
  intros Hmax Hmx Hact Hview [Hk Hs] H.
  pose proof (quiescent_at_store_stop s i Hmx Hact Hview) as Hstore.
  step_inv H; test_facts;
    pose proof (Forall_lookup_1 _ _ _ _ Hk Hpc) as Hki; simpl in Hki;
    (split; simpl;
     [ apply Forall_insert; [done|]; simpl; try done;
       try lia; try (destruct (_ >=? _)%Z eqn:?; [test_facts; lia|done])
     | intros Hst; try done; try congruence;
       first
         [ destruct (Hstore eq_refl) as [Hf Ha Hb]
         | destruct (Hs Hst) as [Hf Ha Hb]
         | destruct (Hs eq_refl) as [Hf Ha Hb] ];
       pose proof (Forall_lookup_1 _ _ _ _ Hb Hpc) as Hbi; simpl in *;
       try done; try congruence;
       (split; simpl; [congruence | done | by apply Forall_insert]) ]).
Qed.

(** ** The ledger *)

Lemma persist_plan_row url result is_html art row :
  persist_plan url result = Some (is_html, art, row) ->
  row_url row = url
  /\ row_content_type row = to_lower (content_type result)
  /\ is_html = (contains "text/html" (to_lower (content_type result))
                || is_empty (to_lower (content_type result)))
  /\ art_body art = body result
  /\ row_path row = (art_dir art, art_name art).
Proof.
  unfold persist_plan. intros H. repeat case_match; simplify_eq/=.
  all: repeat split; try done.
  all: by destruct (to_lower (content_type result)).
Qed.

Lemma ledger_inv_init cfg : ledger_inv (init cfg).
Proof.
  unfold init, enqueue_url.
  repeat case_match; simpl;
    (split; simpl; rewrite gather_replicate_nil by done;
     [apply NoDup_nil_2 | by intros u ?%elem_of_nil]).
Qed.

Lemma ledger_inv_frame s i p q :
  ledger_inv s -> workers s !! i = Some p ->
  exists others,
    NoDup ((row_url <$> ledger s) ++ pending p ++ others)
    /\ (forall u, u ∈ (row_url <$> ledger s) ++ pending p ++ others ->
                  u ∈ visited s)
    /\ gather pending (<[i := q]> (workers s)) ≡ₚ pending q ++ others.
Proof.
  intros [Hn Hv] Hpc.
  destruct (gather_insert pending _ _ _ q Hpc) as (others & Ho & Ho').
  exists others. split; [by rewrite <- Ho|]. split; [|done].
  intros u. rewrite <- Ho. apply Hv.
Qed.

Lemma ledger_inv_step cfg i env s s' :
  ledger_inv s -> worker_step cfg i env s = Some s' -> ledger_inv s'.
Proof.
  intros Hinv H.
  step_inv H; test_facts;
    match goal with
    | |- context [goto _ ?q _] =>
        destruct (ledger_inv_frame _ _ _ q Hinv Hpc)
          as (others & Hn & Hv & Ho)
    end;
    clear Hinv;
    try match goal with
    | E : persist_plan _ _ = Some _ |- _ =>
        apply persist_plan_row in E as (E & _)
    end;
    simpl in *;
    (split; simpl; [rewrite Ho | intros u; rewrite Ho]);
    rewrite ?fmap_app; simpl in *;
    rewrite ?NoDup_app, ?NoDup_cons, ?NoDup_app, ?NoDup_cons, ?NoDup_nil in *;
    try done; set_solver.
Qed.

(** ** The page counter *)

Lemma pages_inv_init cfg :
  (0 <= max_pages cfg)%Z -> (1 <= threads cfg)%Z -> pages_inv cfg (init cfg).
Proof.
  intros Hmax Hthr.
  assert (pages_downloaded (init cfg) = 0%Z) as Hp.
  { unfold init, enqueue_url. by repeat case_match. }
  split; rewrite Hp; [unfold LONG_MAX; lia|].
  rewrite workers_init, tally_replicate_0, length_replicate by done. lia.
Qed.

Lemma pages_inv_step cfg i env s s' :
  (0 <= max_pages cfg)%Z ->
  pages_inv cfg s -> worker_step cfg i env s = Some s' -> pages_inv cfg s'.
Proof.
  intros Hmax [Hr Hb] H.
  step_inv H; test_facts;
    (split; simpl; rewrite ?length_insert;
     [ try done; apply wrap64_range
     | intros Hlong; specialize (Hb Hlong);
       tally_step in_flight in_flight_le_1; simpl in *;
       unfold LONG_MAX in *;
       rewrite ?(wrap64_id (pages_downloaded s + 1)) by lia; lia ]).
Qed.

(** ** Reachable states *)

Lemma run_schedule_inv (P : state -> Prop) cfg :
  (forall i env s s', P s -> worker_step cfg i env s = Some s' -> P s') ->
  forall sched s s', P s -> run_schedule cfg sched s = Some s' -> P s'.
Proof.
  intros Hstep sched. induction sched as [|[i env] sched IH];
    intros s s' Hs H; simpl in H.
  - by simplify_eq.
  - destruct (worker_step cfg i env s) as [s1|] eqn:H1; [|done].
    eapply IH; [|done]. by eapply Hstep.
Qed.

Lemma reachable_mutex_inv cfg s : reachable cfg s -> mutex_inv s.
Proof.
  intros [sched H]. eapply (run_schedule_inv mutex_inv); [|apply mutex_inv_init|done].
  intros. by eapply mutex_inv_step.
Qed.

Lemma reachable_frontier_inv cfg s : reachable cfg s -> frontier_inv s.
Proof.
  intros [sched H].
  eapply (run_schedule_inv frontier_inv); [|apply frontier_inv_init|done].
  intros. by eapply frontier_inv_step.
Qed.

Lemma reachable_ledger_inv cfg s : reachable cfg s -> ledger_inv s.
Proof.
  intros [sched H].
  eapply (run_schedule_inv ledger_inv); [|apply ledger_inv_init|done].
  intros. by eapply ledger_inv_step.
Qed.

Lemma reachable_length cfg s :
  reachable cfg s -> length (workers s) = Z.to_nat (threads cfg).
Proof.
  intros [sched H].
  eapply (run_schedule_inv
            (fun s => length (workers s) = Z.to_nat (threads cfg))); [| |done].
  - intros i env s1 s2 Hl Hs. by rewrite (worker_step_length _ _ _ _ _ Hs).
  - by rewrite workers_init, length_replicate.
Qed.

Lemma counting_inv_init cfg : counting_inv cfg (init cfg).
Proof.
  split.
  - by rewrite workers_init, length_replicate.
  - apply mutex_inv_init.
  - apply active_inv_init.
  - apply view_inv_init.
Qed.

Lemma counting_inv_step cfg i env s s' :
  (threads cfg <= INT_MAX)%Z ->
  counting_inv cfg s -> worker_step cfg i env s = Some s' ->
  counting_inv cfg s'.
Proof.
  intros Hint [Hl Hm Ha Hv] Hs. split.
  - by rewrite (worker_step_length _ _ _ _ _ Hs).
  - by eapply mutex_inv_step.
  - eapply active_inv_step; [|done..]. rewrite Hl. unfold INT_MAX in *. lia.
  - by eapply view_inv_step.
Qed.

Lemma reachable_counting_inv cfg s :
  (threads cfg <= INT_MAX)%Z -> reachable cfg s -> counting_inv cfg s.
Proof.
  intros Hint [sched H].
  eapply (run_schedule_inv (counting_inv cfg));
    [|apply counting_inv_init|done].
  intros. by eapply counting_inv_step.
Qed.

Lemma reachable_stop_inv cfg s :
  (max_pages cfg < 0)%Z -> (threads cfg <= INT_MAX)%Z ->
  reachable cfg s -> counting_inv cfg s /\ stop_inv s.
Proof.
  intros Hmax Hint [sched H].
  eapply (run_schedule_inv (fun s => counting_inv cfg s /\ stop_inv s));
    [| |done].
  - intros i env s1 s2 [Hc Hs] Hstep. split.
    + by eapply counting_inv_step.
    + destruct Hc. by eapply stop_inv_step.
  - split; [apply counting_inv_init|apply stop_inv_init].
Qed.

Lemma reachable_pages_inv cfg s :
  (0 <= max_pages cfg)%Z -> (1 <= threads cfg)%Z ->
  reachable cfg s -> pages_inv cfg s.
Proof.
  intros Hmax Hthr [sched H].
  eapply (run_schedule_inv (pages_inv cfg)); [|by apply pages_inv_init|done].
  intros. by eapply pages_inv_step.
Qed.

(** ** Claims of URLs *)

Lemma visited_mono cfg i env s s' :
  worker_step cfg i env s = Some s' -> visited s ⊆ visited s'.
Proof. intros H. step_inv H; set_solver. Qed.

Lemma claim_of_step_spec cfg i env s s' j u :
  worker_step cfg i env s = Some s' ->
  In (j, u) (claim_of_step i s s') ->
  j = i /\ (u ∉ visited s) /\ (u ∈ visited s')
  /\ workers s !! i = Some (InMark u)
  /\ workers s' !! i = Some (AtLimitCheck u).
Proof.
  intros H.
  assert (i < length (workers s)) as Hlt.
  { unfold worker_step in H. destruct (workers s !! i) eqn:E; [|done].
    by eapply lookup_lt_Some. }
  step_inv H; test_facts; unfold claim_of_step; simpl;
    rewrite Hpc, list_lookup_insert_eq by done; simpl; try done.
  intros [Heq|[]]. simplify_eq. repeat split; [done|set_solver].
Qed.

Lemma claim_of_step_length i s s' : length (claim_of_step i s s') <= 1.
Proof. unfold claim_of_step. repeat case_match; simpl; lia. Qed.

Lemma claims_fresh cfg sched s :
  NoDup (snd <$> claims cfg sched s)
  /\ forall u, u ∈ (snd <$> claims cfg sched s) -> u ∉ visited s.
Proof.
  revert s. induction sched as [|[i env] sched IH]; intros s; simpl.
  { split; [apply NoDup_nil_2|by intros u ?%elem_of_nil]. }
  destruct (worker_step cfg i env s) as [s'|] eqn:Hs;
    [|split; [apply NoDup_nil_2|by intros u ?%elem_of_nil]].
  destruct (IH s') as [Hn Hf].
  pose proof (visited_mono _ _ _ _ _ Hs) as Hmono.
  pose proof (fun j u => claim_of_step_spec _ _ _ _ _ j u Hs) as Hc.
  pose proof (claim_of_step_length i s s') as Hlen.
  rewrite fmap_app.
  destruct (claim_of_step i s s') as [|[j u] [|? ?]]; simpl in *; [| |lia].
  - split; [done|]. intros u Hu. specialize (Hf u Hu). set_solver.
  - destruct (Hc j u) as (_ & Hu1 & Hu2 & _); [by left|].
    split.
    + apply NoDup_cons. split; [|done]. intros Hin. by apply (Hf u).
    + intros v [->|Hv]%elem_of_cons; [done|]. specialize (Hf v Hv). set_solver.
Qed.

(** ** The crawl engine *)

Lemma enqueue_rejects_known cfg i env s s' normalized current links :
  workers s !! i = Some (InEnqueue normalized current links) ->
  normalized ∈ visited s \/ normalized ∈ queued s ->
  worker_step cfg i env s = Some s' ->
  frontier s' = frontier s /\ queued s' = queued s /\ visited s' = visited s
  /\ workers s' !! i = Some (AtLinks current links).
Proof.
  intros Hpc Hin H. unfold worker_step in H. rewrite Hpc in H.
  assert (bool_decide (normalized ∈ visited s)
          || bool_decide (normalized ∈ queued s) = true) as Ht.
  { apply orb_true_iff. destruct Hin; [left|right]; by apply bool_decide_eq_true. }
  rewrite Ht in H. simplify_eq/=. repeat split.
  apply list_lookup_insert_eq. by eapply lookup_lt_Some.
Qed.

Lemma mark_visited_admits_fresh_only cfg i env s s' url :
  workers s !! i = Some (InMark url) ->
  worker_step cfg i env s = Some s' ->
  (url ∈ visited s -> workers s' !! i = Some (AtDecrement true)
                      /\ visited s' = visited s)
  /\ (url ∉ visited s -> workers s' !! i = Some (AtLimitCheck url)
                         /\ visited s' = {[url]} ∪ visited s
                         /\ queued s' = queued s ∖ {[url]}).
Proof.
  intros Hpc H. unfold worker_step in H. rewrite Hpc in H.
  pose proof (lookup_lt_Some _ _ _ Hpc) as Hlt.
  case_bool_decide; simplify_eq/=; split; intros Hx; try done;
    by rewrite list_lookup_insert_eq.
Qed.

Lemma ledger_from_claims_step cfg i env s s' u :
  worker_step cfg i env s = Some s' ->
  u ∈ (row_url <$> ledger s') ++ gather pending (workers s') ->
  u ∈ (row_url <$> ledger s) ++ gather pending (workers s)
  \/ u ∈ (snd <$> claim_of_step i s s').
Proof.
  intros H.
  assert (i < length (workers s)) as Hlt.
  { unfold worker_step in H. destruct (workers s !! i) eqn:E; [|done].
    by eapply lookup_lt_Some. }
  step_inv H;
    match goal with
    | |- context [goto _ ?q _] =>
        destruct (gather_insert pending _ _ _ q Hpc) as (others & Ho & Ho')
    end;
    try match goal with
    | E : persist_plan _ _ = Some _ |- _ =>
        apply persist_plan_row in E as (E & _)
    end;
    unfold claim_of_step; simpl;
    rewrite Hpc, ?list_lookup_insert_eq by done;
    rewrite Ho, Ho', ?fmap_app; simpl in *; set_solver.
Qed.

Lemma ledger_from_claims cfg sched s0 s u :
  run_schedule cfg sched s0 = Some s ->
  u ∈ (row_url <$> ledger s) ++ gather pending (workers s) ->
  u ∈ (row_url <$> ledger s0) ++ gather pending (workers s0)
  \/ u ∈ (snd <$> claims cfg sched s0).
Proof.
  revert s0. induction sched as [|[i env] sched IH]; intros s0 H Hu;
    simpl in *.
  - simplify_eq. by left.
  - destruct (worker_step cfg i env s0) as [s1|] eqn:H1; [|done].
    destruct (IH _ H Hu) as [Hu1|Hu1].
    + destruct (ledger_from_claims_step _ _ _ _ _ _ H1 Hu1); [by left|right].
      rewrite fmap_app. apply elem_of_app. by left.
    + right. rewrite fmap_app. apply elem_of_app. by right.
Qed.

(** C1. In every run, whatever the number of workers and the
    interleaving: no URL is claimed twice (the URLs for which
    [mark_visited] returned [true], after which [process_url] is
    called, are pairwise distinct over the whole run), every row of
    the ledger is for a claimed URL, and no URL occurs in two rows
    appended to the ledger.  The two mechanisms: [enqueue_url] leaves
    the frontier alone when the URL is already in [visited_] or
    [queued_], and [mark_visited] lets a popped URL through to
    [process_url] only if its insertion into [visited_] succeeds. *)
Theorem each_url_claimed_at_most_once cfg sched s :
  run_schedule cfg sched (init cfg) = Some s ->
  NoDup (snd <$> claims cfg sched (init cfg))
  /\ NoDup (row_url <$> ledger s)
  /\ (forall row, row ∈ ledger s ->
        row_url row ∈ (snd <$> claims cfg sched (init cfg)))
  /\ (forall i env s' normalized current links,
        workers s !! i = Some (InEnqueue normalized current links) ->
        normalized ∈ visited s \/ normalized ∈ queued s ->
        worker_step cfg i env s = Some s' ->
        frontier s' = frontier s /\ queued s' = queued s)
  /\ (forall i env s' url,
        workers s !! i = Some (InMark url) ->
        worker_step cfg i env s = Some s' ->
        (workers s' !! i = Some (AtLimitCheck url) <-> url ∉ visited s)).
Proof.
  intros Hrun. split; [apply claims_fresh|]. split; [|split].
  - assert (reachable cfg s) as Hr by (by exists sched).
    apply reachable_ledger_inv in Hr as [Hn _].
    by apply NoDup_app in Hn as [Hn _].
  - intros row Hrow.
    destruct (ledger_from_claims _ _ _ _ (row_url row) Hrun) as [Hu|Hu];
      [|exfalso|done].
    + apply elem_of_app. left. apply list_elem_of_fmap. by exists row.
    + revert Hu. unfold init, enqueue_url.
      repeat case_match; simpl; rewrite gather_replicate_nil by done;
        by intros ?%elem_of_nil.
  - split.
    + intros i env s' n c l Hpc Hin Hs.
      by destruct (enqueue_rejects_known _ _ _ _ _ _ _ _ Hpc Hin Hs) as (?&?&_).
    + intros i env s' url Hpc Hs.
      destruct (mark_visited_admits_fresh_only _ _ _ _ _ _ Hpc Hs) as [H1 H2].
      split.
      * intros Hw Hin. destruct (H1 Hin) as [Hw' _]. congruence.
      * intros Hn. by destruct (H2 Hn).
Qed.

Lemma gather_owned_idle (l : list pc) :
  Forall (fun p => busy p = false) l -> gather owned l = [].
Proof.
  induction 1 as [|p l Hp _ IH]; simpl; [done|].
  rewrite IH. by destruct p.
Qed.

Lemma exited_after_stop cfg s j :
  reachable cfg s -> workers s !! j = Some Exited -> stop s = true.
Proof.
  intros [sched H]. revert j.
  eapply (run_schedule_inv
            (fun s => forall j, workers s !! j = Some Exited -> stop s = true));
    [| |done].
  - intros i env s1 s2 IH Hs.
    step_inv Hs;
      intros j [(-> & Heq & _)|(Hne & Hj)]%list_lookup_insert_Some;
      simpl; try done; by eapply IH.
  - intros j. rewrite workers_init. by intros [? _]%lookup_replicate.
Qed.

(** C2. Without a page limit ([max_pages < 0]): the stop flag goes
    from false to true only in the step of line 391, taken by a worker
    that holds [queue_mutex_] and has seen the frontier empty and
    [active_workers_] zero, and at that moment no worker holds a URL
    or is inside [process_url], so none can still offer work; and
    whenever the stop flag is set the crawl is quiescent: the frontier
    is empty, [active_workers_] is zero, [queued_] is empty and no
    worker holds a URL.  With at least one worker, the flag is set
    when all workers have left the loop. *)
Theorem stop_only_at_quiescence cfg s :
  (max_pages cfg < 0)%Z -> (threads cfg <= INT_MAX)%Z -> reachable cfg s ->
  (stop s = true ->
     frontier s = [] /\ active_workers s = 0%Z /\ queued s = ∅
     /\ Forall (fun p => busy p = false) (workers s))
  /\ (forall i env s',
        worker_step cfg i env s = Some s' ->
        stop s = false -> stop s' = true ->
        workers s !! i = Some AtStoreStop /\ queue_mutex s = Some i
        /\ frontier s = [] /\ active_workers s = 0%Z
        /\ Forall (fun p => busy p = false) (workers s))
  /\ ((1 <= threads cfg)%Z -> finished s -> stop s = true).
Proof.
  intros Hmax Hint Hr.
  destruct (reachable_stop_inv _ _ Hmax Hint Hr) as [[Hl Hm Ha Hv] [Hk Hs]].
  pose proof (reachable_frontier_inv _ _ Hr) as [_ Hq _].
  split; [|split].
  - intros Hst. destruct (Hs Hst) as [Hf Hz Hb]. repeat split; try done.
    apply set_eq. intros u. rewrite Hq, Hf, gather_owned_idle by done.
    set_solver.
  - intros i env s' Hstep Hst Hst'.
    pose proof (quiescent_at_store_stop s i Hm Ha Hv) as Hstore.
    pose proof (mi_queue _ Hm) as Hmq.
    step_inv Hstep; try congruence;
      pose proof (Forall_lookup_1 _ _ _ _ Hk Hpc) as Hki; simpl in Hki;
      try done.
    destruct (Hstore eq_refl) as [Hf Hz Hb].
    repeat split; try done. by apply (Hmq _ _ Hpc).
  - intros Hthr Hfin.
    destruct (lookup_lt_is_Some_2 (workers s) 0) as [p Hp]; [rewrite Hl; lia|].
    pose proof (Forall_lookup_1 _ _ _ _ Hfin Hp) as Hex. simpl in Hex.
    subst p. by eapply exited_after_stop.
Qed.

(** C3. With [max_pages >= 0] and at least one worker, in every
    reachable state, hence also at the end of the run,
    [pages_downloaded <= max_pages + threads - 1]. *)
Theorem pages_downloaded_bound cfg s :
  (0 <= max_pages cfg)%Z -> (1 <= threads cfg)%Z -> reachable cfg s ->
  (pages_downloaded s <= max_pages cfg + threads cfg - 1)%Z.
Proof.
  intros Hmax Hthr Hr.
  destruct (reachable_pages_inv _ _ Hmax Hthr Hr) as [Hrange Hb].
  rewrite (reachable_length _ _ Hr) in Hb. rewrite Z2Nat.id in Hb by lia.
  destruct (decide (max_pages cfg + threads cfg - 1 <= LONG_MAX)%Z) as [Hle|Hgt].
  - destruct (Hb Hle). lia.
  - lia.
Qed.

(** C9. In every reachable state [active_workers_] is the number of
    workers between their [fetch_add] of line 388 and their
    [fetch_sub] of line 426, so it is never negative; a worker about
    to decrement finds it at least one; and the value [remaining]
    tested at line 427 is never negative, so the store of line 428 is
    never executed. *)
Theorem active_workers_never_negative cfg s :
  (threads cfg <= INT_MAX)%Z -> reachable cfg s ->
  active_workers s = Z.of_nat (tally counted_active (workers s))
  /\ (0 <= active_workers s)%Z
  /\ (forall i k, workers s !! i = Some (AtDecrement k) ->
        (1 <= active_workers s)%Z)
  /\ (forall i remaining k, workers s !! i = Some (AtClamp remaining k) ->
        (remaining <? 0)%Z = false).
Proof.
  intros Hint Hr.
  destruct (reachable_counting_inv _ _ Hint Hr) as [_ _ [Hc Hk] _].
  split; [done|]. split; [lia|]. split.
  - intros i k Hpc.
    pose proof (tally_lookup_le counted_active _ _ _ Hpc). simpl in *. lia.
  - intros i r k Hpc.
    pose proof (Forall_lookup_1 _ _ _ _ Hk Hpc) as Hr'. simpl in Hr'.
    by apply Z.ltb_ge.
Qed.

(** C4, as the code has it.  [queued_] holds every URL of the
    frontier, and besides those only URLs that some worker has popped
    and not yet marked visited (or has inserted and not yet pushed);
    no URL of the frontier occurs twice; [visited_] and [queued_] are
    disjoint.  A popped URL stays in [queued_], outside [visited_] and
    outside the frontier, while its worker is between the block of
    lines 383-396 ([queue_mutex_]) and the block of [mark_visited]
    ([visited_mutex_]); the move from [queued_] to [visited_] is the
    single step of lines 418-421. *)
Theorem queued_is_frontier_plus_owned cfg s :
  reachable cfg s ->
  (forall u, u ∈ frontier s -> u ∈ queued s)
  /\ (forall u, u ∈ queued s ->
        u ∈ frontier s \/ exists i p, workers s !! i = Some p /\ u ∈ owned p)
  /\ NoDup (frontier s)
  /\ (forall u, u ∈ visited s -> u ∉ queued s)
  /\ (forall i p u, workers s !! i = Some p -> u ∈ owned p ->
        (u ∈ queued s) /\ (u ∉ visited s) /\ (u ∉ frontier s))
  /\ (forall i env s' url,
        workers s !! i = Some (InMark url) ->
        worker_step cfg i env s = Some s' ->
        queued s' = queued s ∖ {[url]} /\ visited s' = {[url]} ∪ visited s).
Proof.
  intros Hr. destruct (reachable_frontier_inv _ _ Hr) as [Hn Hq Hd].
  assert (forall i p u, workers s !! i = Some p -> u ∈ owned p ->
            (u ∈ queued s) /\ (u ∉ visited s) /\ (u ∉ frontier s)) as Howned.
  { intros i p u Hpc Hu.
    pose proof (gather_lookup owned _ _ _ _ Hpc Hu) as Hg.
    assert (u ∈ queued s) as Hin by (apply Hq, elem_of_app; by right).
    split; [done|]. split; [by intros ?%Hd|].
    apply NoDup_app in Hn as (_ & Hn & _). intros Hf. by apply (Hn u). }
  split; [intros u Hu; apply Hq, elem_of_app; by left|].
  split.
  { intros u [Hu|Hu]%Hq%elem_of_app; [by left|right].
    by apply gather_elem in Hu. }
  split; [by apply NoDup_app in Hn as (Hn & _)|].
  split; [done|]. split; [done|].
  intros i env s' url Hpc Hs.
  destruct (Howned i _ url Hpc) as (_ & Hv & _); [by left|].
  destruct (mark_visited_admits_fresh_only _ _ _ _ _ _ Hpc Hs) as [_ H2].
  by destruct (H2 Hv) as (_ & ? & ?).
Qed.

(** ** A seed that the filter of [enqueue_url] rejects *)

Lemma is_allowed_domain_spec cfg url :
  is_allowed_domain cfg url = false <->
  parse_url url = None
  \/ exists parts, parse_url url = Some parts
       /\ Forall (fun domain => host parts <> to_lower domain)
                 (allowed_domains cfg).
Proof.
  unfold is_allowed_domain.
  destruct (parse_url url) as [parts|]; [|split; [by left|done]].
  split.
  - intros H. right. exists parts. split; [done|].
    induction (allowed_domains cfg) as [|d l IH]; [done|]. simpl in H.
    apply orb_false_iff in H as [H1 H2]. constructor; [|by apply IH].
    by apply String.eqb_neq.
  - intros [?|(parts' & ? & H)]; [done|]. simplify_eq.
    induction H as [|d l Hd _ IH]; [done|]. simpl.
    apply orb_false_iff. split; [by apply String.eqb_neq|done].
Qed.

Lemma enqueue_candidate_rejects cfg url :
  is_allowed_domain cfg (strip_fragment url) = false ->
  enqueue_candidate cfg url = None.
Proof.
  intros H. unfold enqueue_candidate. rewrite H. simpl. by case_match.
Qed.

Lemma nothing_crawled_init cfg :
  is_allowed_domain cfg (strip_fragment (start_url cfg)) = false ->
  nothing_crawled (init cfg)
  /\ tally header_rank (workers (init cfg)) = 5 * Z.to_nat (threads cfg).
Proof.
  intros H. unfold init, enqueue_url.
  rewrite (enqueue_candidate_rejects _ _ H). split.
  - split; try done. simpl. by apply Forall_replicate.
  - simpl. induction (Z.to_nat (threads cfg)) as [|n IH]; simpl; lia.
Qed.

Lemma nothing_crawled_step cfg i env s s' :
  nothing_crawled s -> worker_step cfg i env s = Some s' ->
  nothing_crawled s'
  /\ tally header_rank (workers s') < tally header_rank (workers s).
Proof.
  intros [Hf Hq Hv Ha Hp Hl Hfi Hc Hh] H.
  step_inv H; test_facts;
    pose proof (Forall_lookup_1 _ _ _ _ Hh Hpc) as Hhi; simpl in Hhi;
    try done; try congruence;
    (split;
     [ split; simpl; try done; by apply Forall_insert
     | simpl; rewrite (tally_insert_eq header_rank _ _ _ _ Hpc);
       pose proof (tally_lookup_le header_rank _ _ _ Hpc); simpl in *; lia ]).
Qed.

Lemma nothing_crawled_run cfg sched s s' :
  nothing_crawled s -> run_schedule cfg sched s = Some s' ->
  nothing_crawled s'
  /\ length sched + tally header_rank (workers s')
     <= tally header_rank (workers s).
Proof.
  revert s. induction sched as [|[i env] sched IH]; intros s Hs H; simpl in *.
  - simplify_eq. split; [done|lia].
  - destruct (worker_step cfg i env s) as [s1|] eqn:H1; [|done].
    destruct (nothing_crawled_step _ _ _ _ _ Hs H1) as [Hs1 Hlt].
    destruct (IH _ Hs1 H) as [Hs' Hle]. split; [done|lia].
Qed.

Lemma exited_or_not (l : list pc) :
  Forall (fun p => p = Exited) l
  \/ exists j p, l !! j = Some p /\ p <> Exited.
Proof.
  induction l as [|p l [IH|(j & q & Hj & Hq)]].
  - by left.
  - destruct p; try (right; eexists 0, _; by split); left. by constructor.
  - right. by exists (S j), q.
Qed.

Lemma header_progress cfg s :
  mutex_inv s -> nothing_crawled s ->
  finished s \/ exists i, is_Some (worker_step cfg i None s).
Proof.
  intros [Hmq _ _ Ho] [Hf _ _ Ha _ _ _ _ Hh].
  destruct (exited_or_not (workers s)) as [?|(j & p & Hj & Hne)]; [by left|].
  right. destruct (queue_mutex s) as [i|] eqn:Hm.
  - destruct (lookup_lt_is_Some_2 _ _ (Ho _ eq_refl)) as [q Hi].
    exists i. unfold worker_step. rewrite Hi.
    pose proof (proj2 (Hmq _ _ Hi) eq_refl) as Hq.
    pose proof (Forall_lookup_1 _ _ _ _ Hh Hi) as Hhi.
    destruct q; simpl in *; try done; rewrite ?Hf, ?Ha; simpl; by eexists.
  - exists j. unfold worker_step. rewrite Hj, Hm.
    pose proof (Forall_lookup_1 _ _ _ _ Hh Hj) as Hhj.
    destruct p; simpl in *; try done; rewrite ?Hf, ?Ha; simpl; by eexists.
Qed.

(** C10.  [enqueue_url] applies its filter to the URL without its
    fragment, and it leaves the crawler as it is for every URL,
    the seed included, that then does not parse or whose host is not
    one of [allowed_domains].  For a configuration with such a seed
    and at least one worker, the frontier is empty when the workers
    start; every schedule has at most five steps per worker (one pass
    through the loop header), no worker ever leaves the header, and
    throughout [pages_downloaded] is 0 and the frontier, the ledger
    and the file writes are empty; a state in which some worker has
    not exited always has an enabled step, so the run ends with every
    worker out of the loop. *)
Theorem rejected_seed_crawls_nothing cfg sched s :
  (1 <= threads cfg <= INT_MAX)%Z ->
  (parse_url (strip_fragment (start_url cfg)) = None
   \/ exists parts,
        parse_url (strip_fragment (start_url cfg)) = Some parts
        /\ Forall (fun domain => host parts <> to_lower domain)
                  (allowed_domains cfg)) ->
  run_schedule cfg sched (init cfg) = Some s ->
  (forall url s0,
     (parse_url (strip_fragment url) = None
      \/ exists parts,
           parse_url (strip_fragment url) = Some parts
           /\ Forall (fun domain => host parts <> to_lower domain)
                     (allowed_domains cfg)) ->
     enqueue_url cfg url s0 = s0)
  /\ frontier (init cfg) = []
  /\ length sched <= 5 * Z.to_nat (threads cfg)
  /\ pages_downloaded s = 0%Z /\ frontier s = [] /\ ledger s = []
  /\ files s = []
  /\ Forall in_header (workers s)
  /\ (finished s \/ exists i, is_Some (worker_step cfg i None s)).
Proof.
  intros _ Hrej%is_allowed_domain_spec Hrun.
  destruct (nothing_crawled_init _ Hrej) as [Hi Hrank].
  destruct (nothing_crawled_run _ _ _ _ Hi Hrun) as [Hs Hle].
  assert (mutex_inv s) as Hm by (apply (reachable_mutex_inv cfg); by exists sched).
  pose proof (header_progress cfg s Hm Hs) as Hprog.
  split.
  { intros url s0 Hurl%is_allowed_domain_spec. unfold enqueue_url.
    by rewrite (enqueue_candidate_rejects _ _ Hurl). }
  destruct Hs, Hi. repeat split; try done. lia.
Qed.

(** ** The filters and the fetcher *)

Lemma drop_0 s : drop 0 s = s.
Proof. by destruct s. Qed.

Lemma find_if_take p s n :
  find_if p s = Some n -> find_if p (take n s) = None.
Proof.
  revert n. induction s as [|c r IH]; intros n; simpl; [done|].
  destruct (p c) eqn:Hc.
  - intros [= <-]. reflexivity.
  - destruct (find_if p r) as [k|] eqn:Hk; simpl; [|done].
    intros [= <-]. simpl. by rewrite Hc, (IH k).
Qed.

Lemma strip_fragment_idem url :
  strip_fragment (strip_fragment url) = strip_fragment url.
Proof.
  unfold strip_fragment, substr.
  destruct (find "#" url) as [pos|] eqn:Hpos; [|by rewrite Hpos].
  rewrite drop_0. unfold find in *. by rewrite (find_if_take _ _ _ Hpos).
Qed.

Lemma extension_from_url_strip url :
  extension_from_url (strip_fragment url) = extension_from_url url.
Proof. unfold extension_from_url. by rewrite strip_fragment_idem. Qed.

Lemma is_empty_false s : s <> EmptyString -> is_empty s = false.
Proof. by destruct s. Qed.

(** C8. For a URL whose fragment-stripped form is non-empty and in
    an allowed domain, [should_enqueue] is decided by the extension
    alone: a non-empty extension outside [allowed_extensions] is
    rejected, one inside is accepted, and a URL without extension is
    accepted whatever [query_indicates_download] returns. *)
Theorem should_enqueue_by_extension cfg url :
  strip_fragment url <> EmptyString ->
  is_allowed_domain cfg (strip_fragment url) = true ->
  (extension_from_url url <> EmptyString ->
   extension_from_url url ∉ allowed_extensions cfg ->
   should_enqueue cfg url = false)
  /\ (extension_from_url url <> EmptyString ->
      extension_from_url url ∈ allowed_extensions cfg ->
      should_enqueue cfg url = true)
  /\ (extension_from_url url = EmptyString ->
      forall download download' : bool,
        query_indicates_download url = download ->
        query_indicates_download (strip_fragment url) = download' ->
        should_enqueue cfg url = true).
Proof.
  intros Hne Hdom. unfold should_enqueue.
  rewrite (is_empty_false _ Hne), Hdom, extension_from_url_strip. simpl.
  split; [|split].
  - intros Hext Hnot. rewrite (is_empty_false _ Hext). simpl.
    by rewrite bool_decide_eq_false_2.
  - intros Hext Hin. rewrite (is_empty_false _ Hext). simpl.
    by rewrite bool_decide_eq_true_2.
  - intros -> download download' _ Hq. simpl. by destruct (negb _).
Qed.

(** C7, as the code has it.  When [curl_easy_perform] reports an
    error, [fetch_url] writes one line to [std::cerr] and returns an
    empty body; and a worker that receives an empty body abandons the
    URL: it writes no file, appends no row, leaves [pages_downloaded_]
    alone and goes on to [decrement_active] with [keep_running = true].
    When [curl_easy_perform] returns [CURLE_OK], [fetch_url] returns
    the body received and logs nothing, whatever the HTTP status. *)
Theorem failed_transfer_is_abandoned cfg url t result i env s s' :
  curl_code t <> CURLE_OK ->
  body result = EmptyString ->
  workers s !! i = Some (AtPersist url result) ->
  worker_step cfg i env s = Some s' ->
  (body (fetch_url url (Some t)).1 = EmptyString
   /\ (fetch_url url (Some t)).2 = [FailedToFetch url (curl_code t)])
  /\ (files s' = files s /\ ledger s' = ledger s
      /\ pages_downloaded s' = pages_downloaded s
      /\ workers s' !! i = Some (AtDecrement true))
  /\ (forall t', curl_code t' = CURLE_OK ->
        body (fetch_url url (Some t')).1 = String.concat "" (body_chunks t')
        /\ (fetch_url url (Some t')).2 = []).
Proof.
  intros Hcode Hbody Hpc H. split; [|split].
  - unfold fetch_url. by rewrite (proj2 (Z.eqb_neq _ _) Hcode).
  - unfold worker_step in H. rewrite Hpc in H.
    unfold persist_plan in H. rewrite Hbody in H. simpl in H.
    simplify_eq/=. repeat split.
    apply list_lookup_insert_eq. by eapply lookup_lt_Some.
  - intros t' Hok. unfold fetch_url. by rewrite Hok.
Qed.

(** What [make_absolute] returns for a link that starts with one
    slash and has no blanks around it: the link itself after scheme
    and host, fragment included. *)
Lemma make_absolute_root_relative base_url rest parts :
  parse_url base_url = Some parts ->
  trim (String "/" rest) = String "/" rest ->
  starts_with "//" (String "/" rest) = false ->
  make_absolute base_url (String "/" rest)
  = (scheme parts ++ "://" ++ host parts ++ String "/" rest)%string.
Proof.
  intros Hparse Htrim Hslash. unfold make_absolute.
  rewrite Htrim. cbn [is_empty].
  replace (starts_with "mailto:" (String "/" rest)) with false by reflexivity.
  replace (starts_with "javascript:" (String "/" rest)) with false
    by reflexivity.
  replace (starts_with "http://" (String "/" rest)) with false by reflexivity.
  replace (starts_with "https://" (String "/" rest)) with false by reflexivity.
  rewrite Hslash, Hparse. cbn [orb].
  replace (starts_with "/" (String "/" rest)) with true; [done|].
  unfold starts_with. simpl. by destruct rest.
Qed.

(** C6.  For a link that starts with one [/], [make_absolute]
    returns scheme, host and the link as it is, and for a relative
    link the directory and the link as it is: the fragment stays.
    Only the branches for [http://], [https://] and [//] call
    [strip_fragment]. *)
Theorem make_absolute_keeps_fragment :
  (forall base_url rest parts,
     parse_url base_url = Some parts ->
     trim (String "/" rest) = String "/" rest ->
     starts_with "//" (String "/" rest) = false ->
     make_absolute base_url (String "/" rest)
     = (scheme parts ++ "://" ++ host parts ++ String "/" rest)%string)
  /\ make_absolute "https://www.bgsu.edu/a/b.html" "/x#frag"
     = "https://www.bgsu.edu/x#frag"
  /\ make_absolute "https://www.bgsu.edu/a/b.html" "c.html#sec"
     = "https://www.bgsu.edu/a/c.html#sec"
  /\ strip_fragment "/x#frag" = "/x"
  /\ make_absolute "https://www.bgsu.edu/a/b.html" "https://www.bgsu.edu/x#frag"
     = "https://www.bgsu.edu/x"
  /\ make_absolute "https://www.bgsu.edu/a/b.html" "//www.bgsu.edu/x#frag"
     = "https://www.bgsu.edu/x".
Proof.
  split; [apply make_absolute_root_relative|].
  repeat split; reflexivity.
Qed.

(** ** Concrete runs *)

Lemma state_after_reachable cfg sched :
  is_Some (run_schedule cfg sched (init cfg)) ->
  reachable cfg (state_after cfg sched).
Proof.
  intros [s Hs]. exists sched. unfold state_after. by rewrite Hs.
Qed.

(** The demo crawl ends with both workers out of the loop, two rows
    and two claims. *)
Example full_crawl_result :
  workers (state_after demo_config full_crawl) = [Exited; Exited]
  /\ claims demo_config full_crawl (init demo_config)
     = [(0, "https://ex.test/a"); (1, "https://ex.test/b")]
  /\ (row_url <$> ledger (state_after demo_config full_crawl))
     = ["https://ex.test/a"; "https://ex.test/b"]
  /\ (art_name <$> files (state_after demo_config full_crawl))
     = ["html__ex.test_a.html"; "html__ex.test_b.html"].
Proof. repeat split; vm_compute; reflexivity. Qed.

(** C1 at the demo crawl. *)
Lemma each_url_claimed_at_most_once_witness :
  NoDup (snd <$> claims demo_config full_crawl (init demo_config))
  /\ NoDup (row_url <$> ledger (state_after demo_config full_crawl)).
Proof.
  destruct (each_url_claimed_at_most_once demo_config full_crawl
              (state_after demo_config full_crawl)) as (H1 & H2 & _).
  - vm_compute. reflexivity.
  - split; assumption.
Defined.

(** C2 at the end of the demo crawl, where the stop flag is set. *)
Lemma stop_only_at_quiescence_witness :
  stop (state_after demo_config full_crawl) = true
  /\ frontier (state_after demo_config full_crawl) = []
  /\ active_workers (state_after demo_config full_crawl) = 0%Z
  /\ queued (state_after demo_config full_crawl) = ∅.
Proof.
  destruct (stop_only_at_quiescence demo_config
              (state_after demo_config full_crawl)) as [H _].
  - vm_compute. reflexivity.
  - vm_compute. discriminate.
  - exists full_crawl. vm_compute. reflexivity.
  - assert (stop (state_after demo_config full_crawl) = true) as Hs
      by (vm_compute; reflexivity).
    destruct (H Hs) as (? & ? & ? & _). repeat split; assumption.
Defined.

(** C3 where the bound is attained: [max_pages = 2], two workers,
    three pages counted. *)
Lemma pages_downloaded_bound_witness :
  pages_downloaded (state_after limited_config overshoot) = 3%Z
  /\ (pages_downloaded (state_after limited_config overshoot)
      <= max_pages limited_config + threads limited_config - 1)%Z.
Proof.
  split; [vm_compute; reflexivity|].
  apply (pages_downloaded_bound limited_config).
  - vm_compute. discriminate.
  - vm_compute. discriminate.
  - exists overshoot. vm_compute. reflexivity.
Defined.

(** C9 at a state in which worker 0 stands at line 427. *)
Lemma active_workers_never_negative_witness :
  workers (state_after demo_config (popped_not_marked ++ turns 0 5 None)) !! 0
  = Some (AtClamp 1 true)
  /\ (0 <= active_workers
            (state_after demo_config (popped_not_marked ++ turns 0 5 None)))%Z.
Proof.
  destruct (active_workers_never_negative demo_config
              (state_after demo_config (popped_not_marked ++ turns 0 5 None)))
    as (_ & H & _).
  - vm_compute. discriminate.
  - exists (popped_not_marked ++ turns 0 5 None). vm_compute. reflexivity.
  - split; [vm_compute; reflexivity|exact H].
Defined.

(** C4: a state between two operations (no mutex is held) in which
    [/b] has been popped by worker 1 but is still in [queued_] and not
    in [visited_], so that [queued_] is not the set of the frontier's
    elements; in that state worker 0 runs [enqueue_url] for its second
    link to [/b], which reads [queued_] and therefore returns without
    pushing. *)
Lemma claim_is_not_atomic_with_pop :
  run_schedule demo_config popped_not_marked (init demo_config)
  = Some (state_after demo_config popped_not_marked)
  /\ queue_mutex (state_after demo_config popped_not_marked) = None
  /\ visited_mutex (state_after demo_config popped_not_marked) = None
  /\ workers (state_after demo_config popped_not_marked)
     = [AtLinks 1 ["https://ex.test/b#x"]; AtMarkLock "https://ex.test/b"]
  /\ frontier (state_after demo_config popped_not_marked) = []
  /\ ("https://ex.test/b" ∈ queued (state_after demo_config popped_not_marked))
  /\ ("https://ex.test/b" ∉ visited (state_after demo_config popped_not_marked))
  /\ queued (state_after demo_config popped_not_marked)
     <> list_to_set (frontier (state_after demo_config popped_not_marked))
  /\ (workers <$> run_schedule demo_config (turns 0 3 None)
                    (state_after demo_config popped_not_marked))
     = Some [AtLinks 1 []; AtMarkLock "https://ex.test/b"]
  /\ (frontier <$> run_schedule demo_config (turns 0 3 None)
                     (state_after demo_config popped_not_marked))
     = Some [].
Proof.
  assert ("https://ex.test/b" ∈ queued (state_after demo_config popped_not_marked))
    as Hin by (apply (bool_decide_unpack _); vm_compute; exact I).
  split; [vm_compute; reflexivity|].
  split; [vm_compute; reflexivity|].
  split; [vm_compute; reflexivity|].
  split; [vm_compute; reflexivity|].
  split; [vm_compute; reflexivity|].
  split; [exact Hin|].
  split; [apply (bool_decide_unpack _); vm_compute; exact I|].
  split; [|split; vm_compute; reflexivity].
  intros Heq. rewrite Heq in Hin. revert Hin.
  apply (bool_decide_unpack _). vm_compute. exact I.
Defined.

(** C4, as the code has it, at that state. *)
Lemma queued_is_frontier_plus_owned_witness :
  ("https://ex.test/b" ∈ queued (state_after demo_config popped_not_marked))
  /\ ("https://ex.test/b" ∉ visited (state_after demo_config popped_not_marked))
  /\ ("https://ex.test/b" ∉ frontier (state_after demo_config popped_not_marked)).
Proof.
  destruct (queued_is_frontier_plus_owned demo_config
              (state_after demo_config popped_not_marked))
    as (_ & _ & _ & _ & H & _).
  - exists popped_not_marked. vm_compute. reflexivity.
  - apply (H 1 (AtMarkLock "https://ex.test/b")).
    + vm_compute. reflexivity.
    + simpl. apply list_elem_of_singleton. reflexivity.
Defined.

(** What [header_callback] keeps of a header line, and what reaches
    the ledger. *)
Example content_type_of_page_a :
  (content_type (fetch_url "https://ex.test/a" page_a).1)
  = "Text/HTML; charset=UTF-8".
Proof. vm_compute. reflexivity. Qed.

(** C7: libcurl completes the transfer of a 404 response;
    [fetch_url] returns its body and logs nothing, and the worker
    writes the file, appends the row and counts the page. *)
Lemma http_error_status_is_persisted :
  (response_code <$> page_not_found) = Some 404%Z
  /\ (body (fetch_url "https://ex.test/a" page_not_found).1)
     = "<h1>Not Found</h1>"
  /\ (fetch_url "https://ex.test/a" page_not_found).2 = []
  /\ run_schedule demo_config (turns 0 12 page_not_found) (init demo_config)
     = Some (state_after demo_config (turns 0 12 page_not_found))
  /\ (row_url <$> ledger (state_after demo_config (turns 0 12 page_not_found)))
     = ["https://ex.test/a"]
  /\ (art_body <$> files (state_after demo_config (turns 0 12 page_not_found)))
     = ["<h1>Not Found</h1>"]
  /\ pages_downloaded (state_after demo_config (turns 0 12 page_not_found))
     = 1%Z
  /\ cerr (state_after demo_config (turns 0 12 page_not_found)) = [].
Proof. repeat (split; [vm_compute; reflexivity|]). vm_compute. reflexivity. Defined.

(** C7, as the code has it, at a transfer that times out. *)
Lemma failed_transfer_is_abandoned_witness :
  (fetch_url "https://ex.test/a" (Some timed_out)).2
  = [FailedToFetch "https://ex.test/a" 28]
  /\ files (state_after demo_config (turns 0 9 (Some timed_out))) = []
  /\ ledger (state_after demo_config (turns 0 9 (Some timed_out))) = [].
Proof.
  destruct (failed_transfer_is_abandoned demo_config "https://ex.test/a"
              timed_out (fetch_url "https://ex.test/a" (Some timed_out)).1
              0 None
              (state_after demo_config (turns 0 8 (Some timed_out)))
              (state_after demo_config (turns 0 9 (Some timed_out))))
    as ((_ & Hlog) & (Hfiles & Hledger & _) & _).
  - vm_compute. discriminate.
  - vm_compute. reflexivity.
  - vm_compute. reflexivity.
  - vm_compute. reflexivity.
  - split; [exact Hlog|]. split.
    + rewrite Hfiles. vm_compute. reflexivity.
    + rewrite Hledger. vm_compute. reflexivity.
Defined.

(** C8 at a URL without extension whose query asks for a download. *)
Lemma should_enqueue_by_extension_witness :
  query_indicates_download "https://www.bgsu.edu/report?download=1" = true
  /\ should_enqueue default_config "https://www.bgsu.edu/report?download=1#top"
     = true
  /\ should_enqueue default_config "https://www.bgsu.edu/setup.exe" = false.
Proof.
  split; [vm_compute; reflexivity|]. split.
  - destruct (should_enqueue_by_extension default_config
                "https://www.bgsu.edu/report?download=1#top") as (_ & _ & H).
    + vm_compute. discriminate.
    + vm_compute. reflexivity.
    + apply (H eq_refl true true); vm_compute; reflexivity.
  - destruct (should_enqueue_by_extension default_config
                "https://www.bgsu.edu/setup.exe") as (H & _).
    + vm_compute. discriminate.
    + vm_compute. reflexivity.
    + apply H.
      * vm_compute. discriminate.
      * apply (bool_decide_unpack _). vm_compute. exact I.
Defined.

(** The filter of [enqueue_url] is not [is_allowed_domain] of the URL
    as written: [parse_url] gives the seed [https://www.bgsu.edu#top]
    the host [www.bgsu.edu#top], which is not an allowed domain, and
    [is_allowed_domain] rejects that URL; but [enqueue_url] tests the
    fragment-stripped URL, so the seed is enqueued, fetched and
    recorded. *)
Lemma seed_with_fragment_is_crawled :
  (host <$> parse_url (start_url fragment_seed_config))
  = Some "www.bgsu.edu#top"
  /\ is_allowed_domain fragment_seed_config (start_url fragment_seed_config)
     = false
  /\ frontier (init fragment_seed_config) = ["https://www.bgsu.edu"]
  /\ run_schedule fragment_seed_config (turns 0 12 page_plain)
       (init fragment_seed_config)
     = Some (state_after fragment_seed_config (turns 0 12 page_plain))
  /\ pages_downloaded (state_after fragment_seed_config (turns 0 12 page_plain))
     = 1%Z
  /\ (row_url <$> ledger (state_after fragment_seed_config
                            (turns 0 12 page_plain)))
     = ["https://www.bgsu.edu"].
Proof. repeat (split; [vm_compute; reflexivity|]). vm_compute. reflexivity. Defined.

(** C10 at a seed of another domain: six steps, then both workers
    are out of the loop. *)
Lemma rejected_seed_crawls_nothing_witness :
  workers (state_after foreign_seed_config (turns 0 5 None ++ turns 1 1 None))
  = [Exited; Exited]
  /\ length (turns 0 5 None ++ turns 1 1 None)
     <= 5 * Z.to_nat (threads foreign_seed_config)
  /\ pages_downloaded
       (state_after foreign_seed_config (turns 0 5 None ++ turns 1 1 None))
     = 0%Z
  /\ ledger (state_after foreign_seed_config (turns 0 5 None ++ turns 1 1 None))
     = [].
Proof.
  destruct (rejected_seed_crawls_nothing foreign_seed_config
              (turns 0 5 None ++ turns 1 1 None)
              (state_after foreign_seed_config
                 (turns 0 5 None ++ turns 1 1 None)))
    as (_ & _ & Hlen & Hpages & _ & Hledger & _).
  - split; vm_compute; discriminate.
  - right. exists (mkUrlParts "https" "other.test" "/").
    split; [vm_compute; reflexivity|].
    simpl. repeat constructor. vm_compute. discriminate.
  - vm_compute. reflexivity.
  - split; [vm_compute; reflexivity|]. split; [exact Hlen|].
    split; [exact Hpages|exact Hledger].
Defined.

(** ** Accepted URLs *)

Lemma enqueue_candidate_accepted cfg link n :
  enqueue_candidate cfg link = Some n -> accepted cfg n.
Proof.
  unfold accepted. intros H. unfold enqueue_candidate in H.
  destruct (is_empty (strip_fragment link)) eqn:He; [done|].
  destruct (is_allowed_domain cfg (strip_fragment link)) eqn:Ha; [|done].
  simpl in H. simplify_eq. unfold enqueue_candidate.
  by rewrite strip_fragment_idem, He, Ha.
Qed.

Lemma accepted_spec cfg url :
  accepted cfg url <->
  strip_fragment url = url /\ url <> EmptyString
  /\ is_allowed_domain cfg url = true.
Proof.
  unfold accepted, enqueue_candidate. split.
  - intros H. repeat case_match; simplify_eq.
    match goal with E : strip_fragment _ = _ |- _ => rewrite E in * end.
    repeat split; [by destruct url|]. by apply negb_false_iff.
  - intros (-> & Hne & ->). by destruct url.
Qed.

Lemma url_inv_init cfg : url_inv cfg (init cfg).
Proof.
  unfold init, enqueue_url.
  destruct (enqueue_candidate cfg (start_url cfg)) as [n|] eqn:Hn;
    [apply enqueue_candidate_accepted in Hn|];
    repeat case_match;
    (split; simpl;
     [ repeat first [done | constructor]
     | intros u Hu;
       first [ by apply elem_of_empty in Hu
             | apply elem_of_union in Hu as [->%elem_of_singleton|Hu];
               [done|by apply elem_of_empty in Hu] ]
     | by intros u Hu%elem_of_empty
     | constructor
     | apply Forall_replicate; constructor ]).
Qed.

Lemma is_empty_true_iff s : is_empty s = true -> s = EmptyString.
Proof. by destruct s. Qed.

Ltac solve_forall :=
  solve [ repeat first
            [ done | apply Forall_nil_2 | apply Forall_cons_2
            | apply Forall_app_2 | congruence ] ].

Lemma url_inv_step cfg i env s s' :
  url_inv cfg s -> worker_step cfg i env s = Some s' -> url_inv cfg s'.
Proof.
  intros [Hf Hq Hv Hl Hw] H.
  step_inv H; test_facts;
    pose proof (Forall_lookup_1 _ _ _ _ Hw Hpc) as Hi; simpl in Hi;
    repeat match goal with
    | H : Forall _ (_ :: _) |- _ => apply Forall_cons in H as [? ?]
    | E : frontier s = _ |- _ => rewrite E in Hf
    | E : persist_plan _ _ = Some _ |- _ =>
        apply persist_plan_row in E as (E & _)
    | E : enqueue_candidate _ _ = Some _ |- _ =>
        apply enqueue_candidate_accepted in E
    end;
    (split; simpl;
     [ solve_forall
     | try done; set_solver
     | try done; set_solver
     | solve_forall
     | apply Forall_insert; [done|]; simpl; solve_forall ]).
Qed.

Lemma reachable_url_inv cfg s : reachable cfg s -> url_inv cfg s.
Proof.
  intros [sched H].
  eapply (run_schedule_inv (url_inv cfg)); [|apply url_inv_init|done].
  intros. by eapply url_inv_step.
Qed.

(** X1. Every URL that the crawler has queued, visited or recorded is
    free of a fragment, not empty, and of an allowed domain, and so is
    the URL of every fetch; hence [parse_url] never fails inside
    [process_url], and a response with a body is always persisted. *)
Theorem crawled_urls_are_accepted cfg s :
  reachable cfg s ->
  (forall u, u ∈ frontier s \/ u ∈ queued s \/ u ∈ visited s
             \/ u ∈ (row_url <$> ledger s) ->
     strip_fragment u = u /\ u <> EmptyString
     /\ is_allowed_domain cfg u = true)
  /\ (forall i url result,
        workers s !! i = Some (AtPersist url result) ->
        is_allowed_domain cfg url = true
        /\ (persist_plan url result = None <-> body result = EmptyString)).
Proof.
  intros Hr. destruct (reachable_url_inv _ _ Hr) as [Hf Hq Hv Hl Hw].
  split.
  - intros u Hu. apply accepted_spec.
    destruct Hu as [Hu|[Hu|[Hu|Hu]]]; [|by apply Hq|by apply Hv|].
    + by eapply Forall_forall in Hf.
    + apply list_elem_of_fmap in Hu as (row & -> & Hrow).
      by eapply Forall_forall in Hl.
  - intros i url result Hpc.
    pose proof (Forall_lookup_1 _ _ _ _ Hw Hpc) as Hi. simpl in Hi.
    apply Forall_cons in Hi as [Hi _].
    apply accepted_spec in Hi as (_ & _ & Ha). split; [done|].
    unfold persist_plan. unfold is_allowed_domain in Ha.
    destruct (parse_url url); [|done].
    destruct (is_empty (body result)) eqn:He.
    + split; [intros _|done]. by apply is_empty_true_iff.
    + split; [done|]. intros Hb. rewrite Hb in He. done.
Qed.

(** ** Mutual exclusion and absence of deadlock *)

Lemma owner_inv_init cfg : owner_inv (init cfg).
Proof.
  unfold init, enqueue_url.
  split; repeat case_match; simpl; intros i Hi; discriminate.
Qed.

Lemma owner_inv_step cfg i env s s' :
  owner_inv s -> worker_step cfg i env s = Some s' -> owner_inv s'.
Proof.
  intros [Hv Hm] H.
  step_inv H; pose proof (lookup_lt_Some _ _ _ Hpc);
    (split; simpl; rewrite length_insert; intros j Hj; simplify_eq;
     first [done | by apply Hv | by apply Hm]).
Qed.

Lemma reachable_owner_inv cfg s : reachable cfg s -> owner_inv s.
Proof.
  intros [sched H].
  eapply (run_schedule_inv owner_inv); [|apply owner_inv_init|done].
  intros. by eapply owner_inv_step.
Qed.

(** X2. No two workers are inside blocks guarded by the same mutex, and a
    worker inside such a block is the recorded holder. *)
Theorem mutual_exclusion cfg s i j p q :
  reachable cfg s ->
  workers s !! i = Some p -> workers s !! j = Some q ->
  (holds_queue p = true -> holds_queue q = true ->
   i = j /\ queue_mutex s = Some i)
  /\ (holds_visited p = true -> holds_visited q = true ->
      i = j /\ visited_mutex s = Some i)
  /\ (holds_metadata p = true -> holds_metadata q = true ->
      i = j /\ metadata_mutex s = Some i).
Proof.
  intros Hr Hi Hj. destruct (reachable_mutex_inv _ _ Hr) as [Hq Hv Hm _].
  split; [|split]; intros Hp Hq'.
  - apply (Hq _ _ Hi) in Hp. apply (Hq _ _ Hj) in Hq'.
    split; [congruence|done].
  - apply (Hv _ _ Hi) in Hp. apply (Hv _ _ Hj) in Hq'.
    split; [congruence|done].
  - apply (Hm _ _ Hi) in Hp. apply (Hm _ _ Hj) in Hq'.
    split; [congruence|done].
Qed.

(** A worker that is not waiting for a mutex can always move. *)
Ltac enabled Hpc :=
  unfold worker_step; rewrite Hpc; simpl;
  repeat match goal with
  | E : _ = None |- _ => rewrite E
  end;
  repeat case_match; by eexists.

(** X3. In every reachable state in which some worker is still in the
    loop, some worker can take a step, whatever libcurl does: the two
    nested mutexes of [enqueue_url] cannot block the crawl. *)
Theorem no_deadlock cfg s :
  reachable cfg s ->
  finished s \/ exists i, forall env, is_Some (worker_step cfg i env s).
Proof.
  intros Hr.
  destruct (reachable_mutex_inv _ _ Hr) as [Hq Hv Hm Hoq].
  destruct (reachable_owner_inv _ _ Hr) as [Hov Hom].
  destruct (queue_mutex s) as [i|] eqn:Eq.
  { right. exists i. intros env.
    destruct (lookup_lt_is_Some_2 _ _ (Hoq _ eq_refl)) as [p Hp].
    pose proof (proj2 (Hq _ _ Hp) eq_refl) as Hh.
    destruct p; simpl in Hh; try done; enabled Hp. }
  destruct (visited_mutex s) as [i|] eqn:Ev.
  { right. exists i. intros env.
    destruct (lookup_lt_is_Some_2 _ _ (Hov _ eq_refl)) as [p Hp].
    pose proof (proj2 (Hv _ _ Hp) eq_refl) as Hh.
    destruct p; simpl in Hh; try done; enabled Hp. }
  destruct (metadata_mutex s) as [i|] eqn:Em.
  { right. exists i. intros env.
    destruct (lookup_lt_is_Some_2 _ _ (Hom _ eq_refl)) as [p Hp].
    pose proof (proj2 (Hm _ _ Hp) eq_refl) as Hh.
    destruct p; simpl in Hh; try done; enabled Hp. }
  destruct (exited_or_not (workers s)) as [?|(j & p & Hj & Hne)]; [by left|].
  right. exists j. intros env. destruct p; try done; enabled Hj.
Qed.

(** ** Files, rows and the page counter *)

Lemma row_written_mono s s' row :
  (forall art, art ∈ files s -> art ∈ files s') ->
  row_written s row -> row_written s' row.
Proof. intros Hsub (art & Hin & Hp). exists art. split; [by apply Hsub|done]. Qed.

Lemma files_mono cfg i env s s' :
  worker_step cfg i env s = Some s' ->
  forall art, art ∈ files s -> art ∈ files s'.
Proof. intros H art. step_inv H; simpl; set_solver. Qed.

Lemma written_inv_init cfg : written_inv (init cfg).
Proof.
  unfold init, enqueue_url.
  repeat case_match;
    (split; simpl; [constructor|apply Forall_replicate; constructor]).
Qed.

Lemma written_inv_step cfg i env s s' :
  written_inv s -> worker_step cfg i env s = Some s' -> written_inv s'.
Proof.
  intros [Hl Hw] H.
  pose proof (files_mono _ _ _ _ _ H) as Hmono.
  assert (Forall (row_written s') (ledger s)) as Hl'.
  { eapply Forall_impl; [exact Hl|]. intros row. by apply row_written_mono. }
  assert (Forall (fun p => Forall (row_written s') (row_of p)) (workers s))
    as Hw'.
  { eapply Forall_impl; [exact Hw|]. intros p Hp.
    eapply Forall_impl; [exact Hp|]. intros row. by apply row_written_mono. }
  clear Hl Hw Hmono.
  step_inv H;
    pose proof (Forall_lookup_1 _ _ _ _ Hw' Hpc) as Hi; simpl in Hi;
    (split; simpl;
     [ first [done | apply Forall_app_2; [done|simpl in *; done]]
     | apply Forall_insert; [done|]; simpl; try solve_forall ]).
  constructor; [|done].
  match goal with
  | E : persist_plan _ _ = Some (_, ?a, _) |- _ =>
      apply persist_plan_row in E as (_ & _ & _ & _ & E); exists a
  end.
  split; [|done]. simpl. apply elem_of_app. right. by apply list_elem_of_singleton.
Qed.

Lemma wrap64_wrap a b : wrap64 (wrap64 a + b) = wrap64 (a + b).
Proof.
  unfold wrap64. f_equal.
  replace (((a + 2 ^ 63) mod 2 ^ 64 - 2 ^ 63 + b + 2 ^ 63))%Z
    with ((a + 2 ^ 63) mod 2 ^ 64 + b)%Z by lia.
  replace (a + b + 2 ^ 63)%Z with ((a + 2 ^ 63) + b)%Z by lia.
  by rewrite Zplus_mod_idemp_l.
Qed.

Lemma count_inv_init cfg : count_inv (init cfg).
Proof.
  unfold init, enqueue_url.
  repeat case_match;
    (split; simpl; rewrite tally_replicate_0 by done; done).
Qed.

Lemma count_inv_step cfg i env s s' :
  count_inv s -> worker_step cfg i env s = Some s' -> count_inv s'.
Proof.
  intros [Hf Hp] H.
  step_inv H;
    pose proof (tally_lookup_le before_row _ _ _ Hpc);
    pose proof (tally_lookup_le before_count _ _ _ Hpc);
    (split; simpl;
     rewrite ?(tally_insert_eq before_row _ _ _ _ Hpc),
       ?(tally_insert_eq before_count _ _ _ _ Hpc), ?length_app;
     simpl in *;
     [ lia
     | rewrite ?Hp, ?wrap64_wrap; f_equal; lia ]).
Qed.

Lemma reachable_written_inv cfg s : reachable cfg s -> written_inv s.
Proof.
  intros [sched H].
  eapply (run_schedule_inv written_inv); [|apply written_inv_init|done].
  intros. by eapply written_inv_step.
Qed.

Lemma reachable_count_inv cfg s : reachable cfg s -> count_inv s.
Proof.
  intros [sched H].
  eapply (run_schedule_inv count_inv); [|apply count_inv_init|done].
  intros. by eapply count_inv_step.
Qed.

Lemma tally_finished (f : pc -> nat) (l : list pc) :
  f Exited = 0 -> Forall (fun p => p = Exited) l -> tally f l = 0.
Proof. intros Hf. induction 1 as [|p l -> _ IH]; simpl; [done|]. lia. Qed.

(** X4. The artifact of every ledger row has been written before the row
    was appended. *)
Theorem ledger_rows_have_artifacts cfg s row :
  reachable cfg s -> row ∈ ledger s ->
  exists art, art ∈ files s /\ row_path row = (art_dir art, art_name art).
Proof.
  intros Hr Hrow. destruct (reachable_written_inv _ _ Hr) as [Hl _].
  by eapply Forall_forall in Hl.
Qed.

Lemma write_file_size dir l :
  size (fold_left write_file l dir) <= size dir + length l.
Proof.
  revert dir. induction l as [|art l IH]; intros dir; simpl; [lia|].
  specialize (IH (write_file dir art)). unfold write_file in *.
  rewrite map_size_insert in IH.
  destruct (dir !! (art_dir art, art_name art)); simpl in IH; lia.
Qed.

Lemma write_file_dom dir l :
  dom dir ⊆ dom (fold_left write_file l dir).
Proof.
  revert dir. induction l as [|art l IH]; intros dir; simpl; [done|].
  etrans; [|apply IH]. unfold write_file. apply dom_insert_subseteq.
Qed.

Lemma directory_size s : size (directory s) <= length (files s).
Proof.
  unfold directory. pose proof (write_file_size ∅ (files s)) as H.
  rewrite map_size_empty in H. lia.
Qed.

(** X5. The number of file writes is the number of rows plus the workers
    between their file write and their row; the page counter is,
    modulo 2^64, the number of rows minus the workers that have
    appended a row and not yet counted it.  The files on disk are at
    most as many as the writes, since a write under a name that exists
    replaces the file.  When all workers have left the loop, writes,
    rows and counter agree, and the files on disk are at most as many
    as the rows. *)
Theorem writes_rows_and_counter_agree cfg s :
  reachable cfg s ->
  length (files s) = length (ledger s) + tally before_row (workers s)
  /\ pages_downloaded s
     = wrap64 (Z.of_nat (length (ledger s))
               - Z.of_nat (tally before_count (workers s)))
  /\ size (directory s) <= length (files s)
  /\ (finished s ->
      length (files s) = length (ledger s)
      /\ pages_downloaded s = wrap64 (Z.of_nat (length (ledger s)))
      /\ size (directory s) <= length (ledger s)).
Proof.
  intros Hr. destruct (reachable_count_inv _ _ Hr) as [Hf Hp].
  pose proof (directory_size s) as Hd.
  split; [done|]. split; [done|]. split; [done|]. intros Hfin.
  rewrite Hf, !tally_finished in Hd by done.
  rewrite Hf, Hp, !tally_finished by done.
  split; [lia|]. split; [f_equal; lia|lia].
Qed.

(** ** What a run only adds to *)

Lemma step_only_adds cfg i env s s' :
  worker_step cfg i env s = Some s' ->
  visited s ⊆ visited s' /\ ledger s `prefix_of` ledger s'
  /\ files s `prefix_of` files s' /\ cerr s `prefix_of` cerr s'
  /\ (stop s = true -> stop s' = true).
Proof.
  intros H.
  step_inv H; simpl;
    (split; [set_solver|]);
    repeat split; try done; try (by eexists); try congruence.
Qed.

Lemma run_only_adds_visited cfg sched s s' :
  run_schedule cfg sched s = Some s' -> visited s ⊆ visited s'.
Proof.
  revert s. induction sched as [|[i env] sched IH]; intros s H; simpl in H.
  - by simplify_eq.
  - destruct (worker_step cfg i env s) as [s1|] eqn:H1; [|done].
    destruct (step_only_adds _ _ _ _ _ H1) as (Hv & _).
    specialize (IH _ H). set_solver.
Qed.

Lemma run_only_adds_log cfg sched s s' :
  run_schedule cfg sched s = Some s' ->
  ledger s `prefix_of` ledger s' /\ files s `prefix_of` files s'
  /\ cerr s `prefix_of` cerr s' /\ (stop s = true -> stop s' = true).
Proof.
  revert s. induction sched as [|[i env] sched IH]; intros s H; simpl in H.
  - by simplify_eq.
  - destruct (worker_step cfg i env s) as [s1|] eqn:H1; [|done].
    destruct (step_only_adds _ _ _ _ _ H1) as (_ & Hl & Hf & Hc & Hs).
    destruct (IH _ H) as (Hl' & Hf' & Hc' & Hs').
    split; [by etrans|]. split; [by etrans|]. split; [by etrans|auto].
Qed.

(** X6. Along every schedule, from any state: [visited_] only grows; the
    ledger, the sequence of file writes and the diagnostics are only
    extended; a path that has a file on disk keeps having one, though
    a later write under the same name may replace its content; and the
    stop flag, once set, stays set. *)
Theorem run_only_adds cfg sched s s' :
  run_schedule cfg sched s = Some s' ->
  visited s ⊆ visited s' /\ ledger s `prefix_of` ledger s'
  /\ files s `prefix_of` files s'
  /\ dom (directory s) ⊆ dom (directory s')
  /\ cerr s `prefix_of` cerr s'
  /\ (stop s = true -> stop s' = true).
Proof.
  intros Hrun.
  pose proof (run_only_adds_visited _ _ _ _ Hrun) as Hv.
  destruct (run_only_adds_log _ _ _ _ Hrun) as (Hl & Hf & Hc & Hs).
  repeat split; try done.
  destruct Hf as [k Hk]. unfold directory. rewrite Hk, fold_left_app.
  apply write_file_dom.
Qed.

Lemma reachable_run cfg sched s s' :
  reachable cfg s -> run_schedule cfg sched s = Some s' -> reachable cfg s'.
Proof.
  intros [sched0 H0] H. exists (sched0 ++ sched).
  revert H0. generalize (init cfg). induction sched0 as [|[i env] l IH];
    intros s0 H0; simpl in *.
  - by simplify_eq.
  - destruct (worker_step cfg i env s0); [by apply IH|done].
Qed.

(** X7. A URL that has been marked visited stays visited and never
    returns to [queued_] or to the frontier: it is not processed
    again. *)
Theorem visited_is_final cfg sched s s' u :
  reachable cfg s -> run_schedule cfg sched s = Some s' ->
  u ∈ visited s ->
  (u ∈ visited s') /\ (u ∉ queued s') /\ (u ∉ frontier s')
  /\ (forall i p, workers s' !! i = Some p -> u ∉ owned p).
Proof.
  intros Hr Hrun Hu.
  pose proof (run_only_adds_visited _ _ _ _ Hrun) as Hv.
  pose proof (reachable_run _ _ _ _ Hr Hrun) as Hr'.
  destruct (reachable_frontier_inv _ _ Hr') as [_ Hq Hd].
  assert (u ∈ visited s') as Hu' by set_solver.
  pose proof (Hd _ Hu') as Hnq.
  split; [done|]. split; [done|]. split.
  - intros Hf. apply Hnq, Hq, elem_of_app. by left.
  - intros i p Hp Ho. apply Hnq, Hq, elem_of_app. right.
    by eapply gather_lookup.
Qed.

(** ** A page limit of zero *)

Lemma nothing_fetched_init cfg : nothing_fetched (init cfg).
Proof.
  unfold init, enqueue_url.
  repeat case_match;
    (split; simpl; try done; apply Forall_replicate; simpl; tauto).
Qed.

Lemma nothing_fetched_step cfg i env s s' :
  max_pages cfg = 0%Z ->
  nothing_fetched s -> worker_step cfg i env s = Some s' ->
  nothing_fetched s'.
Proof.
  intros Hmax [Hp Hl Hf Hc Hw] H.
  step_inv H; test_facts;
    pose proof (Forall_lookup_1 _ _ _ _ Hw Hpc) as Hi; simpl in Hi;
    try done; try lia;
    (split; simpl; try done; apply Forall_insert; [done|]; simpl; tauto).
Qed.

(** X8. With [max_pages = 0] no URL is ever fetched: in every reachable
    state no worker is past the test of line 433, the counter is 0,
    and nothing has been written to the files, the ledger or
    [std::cerr]. *)
Theorem zero_limit_fetches_nothing cfg s :
  max_pages cfg = 0%Z -> reachable cfg s ->
  pages_downloaded s = 0%Z /\ ledger s = [] /\ files s = [] /\ cerr s = []
  /\ Forall (fun p => ~ fetching p) (workers s).
Proof.
  intros Hmax [sched H].
  assert (nothing_fetched s) as [? ? ? ? ?]; [|done].
  eapply (run_schedule_inv nothing_fetched); [|apply nothing_fetched_init|done].
  intros. by eapply nothing_fetched_step.
Qed.

(** ** Stopping at the page limit *)

Lemma pages_step_mono cfg i env s s' :
  (0 <= max_pages cfg)%Z ->
  (max_pages cfg + Z.of_nat (length (workers s)) - 1 <= LONG_MAX)%Z ->
  pages_inv cfg s -> worker_step cfg i env s = Some s' ->
  (pages_downloaded s <= pages_downloaded s')%Z.
Proof.
  intros Hmax Hlong [_ Hb] H. destruct (Hb Hlong) as [H0 Hle].
  unfold LONG_MAX in *.
  step_inv H; simpl; try lia.
  all: pose proof (tally_lookup_le in_flight _ _ _ Hpc); simpl in *;
    rewrite wrap64_id; lia.
Qed.

Lemma limit_seen_mono cfg s s' p :
  (pages_downloaded s <= pages_downloaded s')%Z ->
  limit_seen cfg s p -> limit_seen cfg s' p.
Proof. intros Hle. destruct p as [| | | | | | | | | | | | | | | | | | |[]|? []|[]|]; simpl; lia. Qed.

Lemma limit_inv_init cfg : limit_inv cfg (init cfg).
Proof.
  split.
  - rewrite workers_init. by apply Forall_replicate.
  - unfold init, enqueue_url. by repeat case_match.
Qed.

Lemma quiescent_step cfg i env s s' :
  quiescent s -> worker_step cfg i env s = Some s' -> quiescent s'.
Proof.
  intros [Hf Ha Hb] H.
  step_inv H;
    pose proof (Forall_lookup_1 _ _ _ _ Hb Hpc) as Hbi; simpl in Hbi;
    try done; try congruence;
    (split; simpl; [done|done|by apply Forall_insert]).
Qed.

Lemma limit_inv_step cfg i env s s' :
  (0 <= max_pages cfg)%Z ->
  (max_pages cfg + Z.of_nat (length (workers s)) - 1 <= LONG_MAX)%Z ->
  pages_inv cfg s -> mutex_inv s -> active_inv s -> view_inv s ->
  limit_inv cfg s -> worker_step cfg i env s = Some s' -> limit_inv cfg s'.
Proof.
  intros Hmax Hlong Hpg Hmx Hact Hview [Hseen Hstop] H.
  pose proof (pages_step_mono _ _ _ _ _ Hmax Hlong Hpg H) as Hmono.
  pose proof (quiescent_step cfg i env s s') as Hqs.
  pose proof (quiescent_at_store_stop s i Hmx Hact Hview) as Hstore.
  assert (Forall (limit_seen cfg s') (workers s)) as Hseen'.
  { eapply Forall_impl; [exact Hseen|]. intros p. by apply limit_seen_mono. }
  pose proof (step_only_adds _ _ _ _ _ H) as (_ & _ & _ & _ & Hsticky).
  split.
  - clear Hqs Hstore Hstop Hsticky.
    step_inv H; test_facts;
      pose proof (Forall_lookup_1 _ _ _ _ Hseen' Hpc) as Hi; simpl in Hi;
      (apply Forall_insert; [done|]; simpl in *; try done; try lia).
    all: repeat case_match; test_facts; simpl in *; try done; lia.
  - intros Hst'. destruct (stop s) eqn:Hst.
    + destruct (Hstop eq_refl) as [Hq|Hle]; [left; by apply Hqs|right; lia].
    + clear Hqs Hsticky Hstop.
      step_inv H; try congruence;
        pose proof (Forall_lookup_1 _ _ _ _ Hseen' Hpc) as Hi; simpl in Hi.
      * left. destruct (Hstore eq_refl) as [Hf Ha Hb].
        split; simpl; [done|done|by apply Forall_insert].
      * right. done.
Qed.

(** X9. With a page limit, the stop flag is set only when the crawl is
    quiescent or the counter has reached the limit; in the second
    case the counter lies between [max_pages] and
    [max_pages + threads - 1]. *)
Theorem stop_at_limit_or_quiescence cfg s :
  (0 <= max_pages cfg)%Z -> (1 <= threads cfg <= INT_MAX)%Z ->
  (max_pages cfg + threads cfg - 1 <= LONG_MAX)%Z ->
  reachable cfg s -> stop s = true ->
  (frontier s = [] /\ active_workers s = 0%Z
   /\ Forall (fun p => busy p = false) (workers s))
  \/ (max_pages cfg <= pages_downloaded s <= max_pages cfg + threads cfg - 1)%Z.
Proof.
  intros Hmax [Hthr Hint] Hlong Hr Hst.
  pose proof (reachable_pages_inv _ _ Hmax Hthr Hr) as [_ Hb].
  pose proof (reachable_length _ _ Hr) as Hlen.
  rewrite Hlen in Hb. rewrite Z2Nat.id in Hb by lia. destruct (Hb Hlong).
  destruct Hr as [sched Hrun].
  assert (counting_inv cfg s /\ pages_inv cfg s /\ limit_inv cfg s)
    as (_ & _ & [_ Hstop]).
  { eapply (run_schedule_inv
              (fun s => counting_inv cfg s /\ pages_inv cfg s
                        /\ limit_inv cfg s)); [| |done].
    - intros i env s1 s2 ([Hl Hm Ha Hv] & Hp & Hli) Hs. split; [|split].
      + by eapply counting_inv_step.
      + by eapply pages_inv_step.
      + eapply limit_inv_step; try done. rewrite Hl, Z2Nat.id by lia. done.
    - split; [apply counting_inv_init|].
      split; [by apply pages_inv_init|apply limit_inv_init]. }
  destruct (Hstop Hst) as [[? ? ?]|?]; [by left|right; lia].
Qed.

(** ** Accepted URLs are never lost *)

Lemma step_keeps_known cfg i env s s' u :
  worker_step cfg i env s = Some s' ->
  u ∈ queued s \/ u ∈ visited s -> u ∈ queued s' \/ u ∈ visited s'.
Proof.
  intros H. step_inv H; simpl; try done.
  - destruct (decide (u = url)) as [->|Hne]; set_solver.
  - set_solver.
Qed.

Lemma run_keeps_known cfg sched s s' u :
  run_schedule cfg sched s = Some s' ->
  u ∈ queued s \/ u ∈ visited s -> u ∈ queued s' \/ u ∈ visited s'.
Proof.
  revert s. induction sched as [|[i env] sched IH]; intros s H Hu; simpl in H.
  - by simplify_eq.
  - destruct (worker_step cfg i env s) as [s1|] eqn:H1; [|done].
    eapply IH; [done|]. by eapply step_keeps_known.
Qed.

(** X10. Without a page limit, when all workers have left the loop every
    URL that was ever queued or visited has been visited: a crawl that
    ends has claimed every URL it accepted. *)
Theorem finished_crawl_visited_everything cfg sched s s' u :
  (max_pages cfg < 0)%Z -> (1 <= threads cfg <= INT_MAX)%Z ->
  reachable cfg s -> run_schedule cfg sched s = Some s' -> finished s' ->
  u ∈ queued s \/ u ∈ visited s ->
  (u ∈ visited s') /\ queued s' = ∅ /\ frontier s' = [].
Proof.
  intros Hmax [Hthr Hint] Hr Hrun Hfin Hu.
  pose proof (reachable_run _ _ _ _ Hr Hrun) as Hr'.
  destruct (reachable_stop_inv _ _ Hmax Hint Hr') as [[Hl _ _ _] [_ Hs]].
  pose proof (reachable_frontier_inv _ _ Hr') as [_ Hq _].
  assert (stop s' = true) as Hst.
  { destruct (lookup_lt_is_Some_2 (workers s') 0) as [p Hp]; [rewrite Hl; lia|].
    pose proof (Forall_lookup_1 _ _ _ _ Hfin Hp) as Hex. simpl in Hex.
    subst p. by eapply exited_after_stop. }
  destruct (Hs Hst) as [Hf _ Hb].
  assert (queued s' = ∅) as Hq0.
  { apply set_eq. intros v. rewrite Hq, Hf, gather_owned_idle by done.
    set_solver. }
  split; [|done].
  destruct (run_keeps_known _ _ _ _ _ Hrun Hu) as [Hin|Hin]; [|done].
  rewrite Hq0 in Hin. by apply elem_of_empty in Hin.
Qed.

(** ** Facts about the string primitives *)

Lemma app_nil_s (s : string) : ("" ++ s)%string = s.
Proof. reflexivity. Qed.

Lemma app_cons_s c (a b : string) :
  (String c a ++ b)%string = String c (a ++ b)%string.
Proof. reflexivity. Qed.

Ltac ssimpl := simpl; rewrite ?app_cons_s, ?app_nil_s; simpl.
Ltac ssimpl_in H := simpl in H; rewrite ?app_cons_s, ?app_nil_s in H; simpl in H.

Lemma take_drop n s : (take n s ++ drop n s)%string = s.
Proof.
  revert s. induction n as [|n IH]; intros [|c r]; ssimpl; try done.
  f_equal. apply IH.
Qed.

Lemma length_take_le n s : String.length (take n s) <= n.
Proof.
  revert s. induction n as [|n IH]; intros [|c r]; simpl; try lia.
  specialize (IH r). lia.
Qed.

Lemma take_length_app a b : take (String.length a) (a ++ b)%string = a.
Proof. induction a as [|c a IH]; ssimpl; [by destruct b|by rewrite IH]. Qed.

Lemma drop_length_app a b : drop (String.length a) (a ++ b)%string = b.
Proof. induction a as [|c a IH]; ssimpl; [by destruct b|done]. Qed.

Lemma drop_drop a k s : drop (a + k) s = drop k (drop a s).
Proof.
  revert s. induction a as [|a IH]; intros s; simpl.
  - done.
  - destruct s as [|c r]; [by destruct k|apply IH].
Qed.

Lemma app_empty_r (s : string) : (s ++ "")%string = s.
Proof. induction s as [|c s IH]; ssimpl; [done|by rewrite IH]. Qed.

Lemma app_assoc_s (a b c : string) :
  ((a ++ b) ++ c)%string = (a ++ b ++ c)%string.
Proof. induction a as [|x a IH]; ssimpl; [done|by rewrite IH]. Qed.

Lemma length_app_s (a b : string) :
  String.length (a ++ b) = String.length a + String.length b.
Proof. induction a as [|x a IH]; ssimpl; [done|by rewrite IH]. Qed.

Lemma all_chars_app p a b :
  all_chars p (a ++ b) = all_chars p a && all_chars p b.
Proof.
  induction a as [|x a IH]; ssimpl; [done|]. rewrite IH. by destruct (p x).
Qed.

Lemma all_chars_take p n s :
  all_chars p s = true -> all_chars p (take n s) = true.
Proof.
  revert s. induction n as [|n IH]; intros [|c r]; simpl; try done.
  intros [-> H]%andb_prop. simpl. by apply IH.
Qed.

Lemma all_chars_drop p n s :
  all_chars p s = true -> all_chars p (drop n s) = true.
Proof.
  revert s. induction n as [|n IH]; intros [|c r]; simpl; try done.
  intros [_ H]%andb_prop. by apply IH.
Qed.

Lemma all_chars_impl (p q : ascii -> bool) s :
  (forall c, p c = true -> q c = true) ->
  all_chars p s = true -> all_chars q s = true.
Proof.
  intros Hpq. induction s as [|c r IH]; simpl; [done|].
  intros [Hc H]%andb_prop. rewrite (Hpq _ Hc). simpl. by apply IH.
Qed.

Lemma all_chars_map p f s :
  all_chars p (map_chars f s) = all_chars (fun c => p (f c)) s.
Proof. induction s as [|c r IH]; simpl; [done|by rewrite IH]. Qed.

Lemma map_chars_app f a b :
  map_chars f (a ++ b) = (map_chars f a ++ map_chars f b)%string.
Proof. induction a as [|x a IH]; ssimpl; [done|by rewrite IH]. Qed.

Lemma length_map_chars f s : String.length (map_chars f s) = String.length s.
Proof. induction s as [|c r IH]; simpl; [done|by rewrite IH]. Qed.

Lemma find_if_None p s :
  find_if p s = None <-> all_chars (fun c => negb (p c)) s = true.
Proof.
  induction s as [|c r IH]; simpl; [done|].
  destruct (p c); simpl; [done|].
  destruct (find_if p r); simpl; [|tauto].
  split; [done|]. intros H. by apply IH in H.
Qed.

Lemma find_if_Some p s n :
  find_if p s = Some n ->
  all_chars (fun c => negb (p c)) (take n s) = true
  /\ exists c r, drop n s = String c r /\ p c = true.
Proof.
  revert n. induction s as [|c r IH]; intros n; simpl; [done|].
  destruct (p c) eqn:Hc.
  - intros [= <-]. split; [done|]. by exists c, r.
  - destruct (find_if p r) as [k|]; simpl; [|done].
    intros [= <-]. destruct (IH k eq_refl) as [H1 H2].
    simpl. by rewrite Hc, H1.
Qed.

Lemma find_last_if_None p s :
  find_last_if p s = None <-> all_chars (fun c => negb (p c)) s = true.
Proof.
  induction s as [|c r IH]; simpl; [done|].
  destruct (find_last_if p r).
  - split; [done|]. intros [_ H]%andb_prop. by apply IH in H.
  - destruct (p c); simpl; [done|]. split; [|done]. intros _. by apply IH.
Qed.

Lemma find_last_if_Some p s n :
  find_last_if p s = Some n ->
  exists c r, drop n s = String c r /\ p c = true
              /\ all_chars (fun c => negb (p c)) r = true.
Proof.
  revert n. induction s as [|c r IH]; intros n; simpl; [done|].
  destruct (find_last_if p r) as [k|] eqn:Hk.
  - intros [= <-]. simpl. by apply IH.
  - destruct (p c) eqn:Hc; [|done]. intros [= <-].
    exists c, r. repeat split; [done|]. by apply find_last_if_None.
Qed.

Lemma find_first_le_last p s a b :
  find_if p s = Some a -> find_last_if p s = Some b -> a <= b.
Proof.
  revert a b. induction s as [|c r IH]; intros a b; simpl; [done|].
  destruct (p c) eqn:Hc.
  - intros [= <-]. lia.
  - destruct (find_if p r) as [k|] eqn:Hk; simpl; [|done]. intros [= <-].
    destruct (find_last_if p r) as [j|] eqn:Hj; [|done]. intros [= <-].
    specialize (IH k j eq_refl eq_refl). lia.
Qed.

Lemma take_S_drop k t c r :
  drop k t = String c r -> take (S k) t = (take k t ++ String c "")%string.
Proof.
  revert t. induction k as [|k IH]; intros [|x t]; ssimpl; try done.
  - by intros [= -> ->].
  - intros H. by rewrite <- (IH _ H).
Qed.

Lemma drop_S_drop k t c r : drop k t = String c r -> drop (S k) t = r.
Proof.
  revert t. induction k as [|k IH]; intros [|x t]; simpl; try done.
  - by intros [= -> ->].
  - intros H. by apply IH.
Qed.

Lemma app_last_inj (a b : string) c d :
  (a ++ String c "")%string = (b ++ String d "")%string -> a = b /\ c = d.
Proof.
  revert b. induction a as [|x a IH]; intros [|y b]; ssimpl.
  - by intros [= ->].
  - intros [= -> H]. by destruct b.
  - intros [= -> H]. by destruct a.
  - intros [= -> H]. destruct (IH _ H) as [-> ->]. done.
Qed.

Lemma find_last_if_snoc p pre c :
  p c = true ->
  find_last_if p (pre ++ String c "") = Some (String.length pre).
Proof.
  intros Hc. induction pre as [|x pre IH]; ssimpl; [by rewrite Hc|].
  by rewrite IH.
Qed.

Lemma take_while_all p s : all_chars p (take_while p s) = true.
Proof.
  induction s as [|c r IH]; simpl; [done|].
  destruct (p c) eqn:Hc; simpl; [by rewrite Hc|done].
Qed.

Lemma take_while_drop p s :
  (take_while p s ++ drop (String.length (take_while p s)) s)%string = s.
Proof.
  induction s as [|c r IH]; ssimpl; [done|].
  destruct (p c); ssimpl; [by rewrite IH|done].
Qed.

Lemma take_while_stop p s c r :
  drop (String.length (take_while p s)) s = String c r -> p c = false.
Proof.
  induction s as [|x s IH]; simpl; [done|].
  destruct (p x) eqn:Hx; simpl; [done|]. by intros [= <- _].
Qed.

Lemma take_while_app p a b :
  all_chars p a = true ->
  match b with EmptyString => True | String c _ => p c = false end ->
  take_while p (a ++ b) = a.
Proof.
  intros Ha Hb. induction a as [|x a IH]; ssimpl; ssimpl_in Ha.
  - destruct b as [|c r]; ssimpl; [done|by rewrite Hb].
  - apply andb_prop in Ha as [Hx Ha]. rewrite Hx. by rewrite IH.
Qed.

Lemma tolower_idem c : tolower (tolower c) = tolower c.
Proof. destruct c as [[] [] [] [] [] [] [] []]; reflexivity. Qed.

Lemma to_lower_idem s : to_lower (to_lower s) = to_lower s.
Proof.
  unfold to_lower. induction s as [|c r IH]; simpl; [done|].
  by rewrite tolower_idem, IH.
Qed.

Lemma tolower_alpha c : is_alpha (tolower c) = is_alpha c.
Proof. destruct c as [[] [] [] [] [] [] [] []]; reflexivity. Qed.

Lemma tolower_scheme_char c : is_scheme_char (tolower c) = is_scheme_char c.
Proof. destruct c as [[] [] [] [] [] [] [] []]; reflexivity. Qed.

Lemma tolower_slash c : is_slash (tolower c) = is_slash c.
Proof. destruct c as [[] [] [] [] [] [] [] []]; reflexivity. Qed.

Lemma is_slash_eqb c : is_slash c = Ascii.eqb "/" c.
Proof. destruct c as [[] [] [] [] [] [] [] []]; reflexivity. Qed.

(** ** [strip_fragment] *)

Lemma strip_fragment_no_hash url : find "#" (strip_fragment url) = None.
Proof.
  unfold strip_fragment, substr, find.
  destruct (find_if (Ascii.eqb "#") url) as [pos|] eqn:Hpos; [|done].
  by apply find_if_take.
Qed.

(** X12. The result of [strip_fragment] is the part of the URL before the
    first [#]: it contains no [#], and what was cut off is empty or
    starts with [#]. *)
Theorem strip_fragment_cuts_at_first_hash url :
  find "#" (strip_fragment url) = None
  /\ exists rest, url = (strip_fragment url ++ rest)%string
       /\ (rest = "" \/ starts_with "#" rest = true).
Proof.
  unfold strip_fragment, substr, find.
  destruct (find_if (Ascii.eqb "#") url) as [pos|] eqn:Hpos.
  - simpl. split; [by apply find_if_take|].
    exists (drop pos url). split; [by rewrite take_drop|].
    destruct (find_if_Some _ _ _ Hpos) as (_ & c & r & -> & Hc).
    apply Ascii.eqb_eq in Hc as <-. right. by destruct r.
  - split; [done|]. exists "". split; [by rewrite app_empty_r|by left].
Qed.

(** ** [trim] *)

Lemma trim_empty : trim "" = "".
Proof. reflexivity. Qed.

(** The structure of a non-empty result of [trim]. *)
Lemma trim_shape input :
  trim input = ""
  \/ exists a k c r d r',
       drop a input = String c r /\ is_trim_char c = false
       /\ all_chars is_trim_char (take a input) = true
       /\ drop k (String c r) = String d r' /\ is_trim_char d = false
       /\ all_chars is_trim_char r' = true
       /\ trim input = (take k (String c r) ++ String d "")%string.
Proof.
  unfold trim.
  destruct (find_if _ input) as [a|] eqn:Ha; [|by left].
  destruct (find_last_if _ input) as [b|] eqn:Hb; [|by left].
  right. pose proof (find_first_le_last _ _ _ _ Ha Hb) as Hab.
  destruct (find_if_Some _ _ _ Ha) as (Hpre & c & r & Hc & Hnc).
  destruct (find_last_if_Some _ _ _ Hb) as (d & r' & Hd & Hnd & Hpost).
  exists a, (b - a), c, r, d, r'.
  assert (drop (b - a) (String c r) = String d r') as Hd'.
  { rewrite <- Hc, <- drop_drop. by replace (a + (b - a)) with b by lia. }
  repeat split.
  - done.
  - by apply negb_true_iff in Hnc.
  - eapply all_chars_impl; [|exact Hpre]. intros x Hx. simpl in Hx.
    by rewrite negb_involutive in Hx.
  - done.
  - by apply negb_true_iff in Hnd.
  - eapply all_chars_impl; [|exact Hpost]. intros x Hx. simpl in Hx.
    by rewrite negb_involutive in Hx.
  - unfold substr. rewrite Hc. replace (b - a + 1) with (S (b - a)) by lia.
    by apply (take_S_drop _ _ _ r').
Qed.

Lemma trim_fixed c r pre d :
  is_trim_char c = false -> is_trim_char d = false ->
  String c r = (pre ++ String d "")%string ->
  trim (String c r) = String c r.
Proof.
  intros Hc Hd E. unfold trim. simpl find_if. rewrite Hc. simpl negb. cbv iota.
  rewrite E, find_last_if_snoc by (by rewrite Hd).
  unfold substr. simpl drop. rewrite Nat.sub_0_r.
  replace (String.length pre + 1) with (String.length (pre ++ String d ""))
    by (rewrite length_app_s; simpl; lia).
  rewrite <- (app_empty_r (pre ++ String d "")) at 2.
  apply take_length_app.
Qed.

Lemma trim_idem input : trim (trim input) = trim input.
Proof.
  destruct (trim_shape input)
    as [->|(a & k & c & r & d & r' & _ & Hc & _ & Hd & Hnd & _ & E)]; [done|].
  rewrite E. destruct k as [|k]; ssimpl.
  - simpl in Hd. injection Hd as -> ->. by eapply (trim_fixed d "" "").
  - ssimpl_in E. eapply (trim_fixed c _ (String c (take k r))); done.
Qed.

(** X13. [trim] removes blanks (space, tab, LF, CR) from both ends and
    nothing else: the input is blanks, the result, blanks; a non-empty
    result neither starts nor ends with a blank; trimming twice changes
    nothing. *)
Theorem trim_removes_surrounding_blanks input :
  (exists l r, input = (l ++ trim input ++ r)%string
     /\ all_chars is_trim_char l = true /\ all_chars is_trim_char r = true)
  /\ (forall c r, trim input = String c r -> is_trim_char c = false)
  /\ (forall pre c, trim input = (pre ++ String c "")%string ->
        is_trim_char c = false)
  /\ trim (trim input) = trim input.
Proof.
  split; [|split; [|split]]; [| | |apply trim_idem].
  - unfold trim.
    destruct (find_if _ input) as [a|] eqn:Ha.
    + destruct (find_last_if _ input) as [b|] eqn:Hb.
      * pose proof (find_first_le_last _ _ _ _ Ha Hb) as Hab.
        destruct (find_if_Some _ _ _ Ha) as (Hpre & _).
        destruct (find_last_if_Some _ _ _ Hb) as (d & r' & Hd & _ & Hpost).
        exists (take a input), r'. split; [|split].
        -- unfold substr. rewrite <- (take_drop a input) at 1. f_equal.
           rewrite <- (take_drop (b - a + 1) (drop a input)) at 1. f_equal.
           rewrite <- drop_drop. replace (a + (b - a + 1)) with (S b) by lia.
           by apply drop_S_drop in Hd.
        -- eapply all_chars_impl; [|exact Hpre]. intros x Hx. simpl in Hx.
           by rewrite negb_involutive in Hx.
        -- eapply all_chars_impl; [|exact Hpost]. intros x Hx. simpl in Hx.
           by rewrite negb_involutive in Hx.
      * apply find_last_if_None in Hb. apply find_if_None in Hb.
        by rewrite Hb in Ha.
    + exists input, "". ssimpl. rewrite app_empty_r. split; [done|].
      split; [|done]. apply find_if_None in Ha.
      eapply all_chars_impl; [|exact Ha]. intros x Hx. simpl in Hx.
      by rewrite negb_involutive in Hx.
  - intros c0 r0 E0.
    destruct (trim_shape input)
      as [E|(a & k & c & r & d & r' & _ & Hc & _ & Hd & Hnd & _ & E)];
      [by rewrite E in E0|].
    rewrite E in E0. destruct k as [|k]; ssimpl_in E0.
    + simpl in Hd. injection Hd as -> ->. by injection E0 as <- _.
    + by injection E0 as <- _.
  - intros pre c0 E0.
    destruct (trim_shape input)
      as [E|(a & k & c & r & d & r' & _ & Hc & _ & Hd & Hnd & _ & E)].
    + rewrite E in E0. by destruct pre.
    + rewrite E in E0. by apply app_last_inj in E0 as [_ <-].
Qed.

(** ** [parse_url] *)

Lemma starts_with_app p s :
  starts_with p s = true -> s = (p ++ drop (String.length p) s)%string.
Proof.
  unfold starts_with. revert s. induction p as [|a p IH]; intros s; ssimpl.
  - intros _. by destruct s.
  - destruct s as [|b s]; [done|]. simpl.
    destruct (ascii_dec a b) as [->|]; [|done]. intros H. f_equal. by apply IH.
Qed.

Lemma starts_with_app_l p s : starts_with p (p ++ s) = true.
Proof.
  unfold starts_with. induction p as [|a p IH]; ssimpl; [by destruct s|].
  by destruct (ascii_dec a a).
Qed.

Lemma is_alpha_scheme_char c : is_alpha c = true -> is_scheme_char c = true.
Proof. unfold is_scheme_char, is_alnum. by intros ->. Qed.

(** A URL of the form scheme, [://], host, path is parsed into these
    three pieces. *)
Lemma parse_url_build c0 s0 hst pth :
  is_alpha c0 = true -> all_chars is_scheme_char s0 = true ->
  hst <> "" -> all_chars (fun c => negb (is_slash c)) hst = true ->
  (pth = "" \/ exists tail, pth = String "/" tail
      /\ all_chars (fun c => negb (is_line_terminator c)) tail = true) ->
  parse_url (String c0 s0 ++ "://" ++ hst ++ pth)
  = Some (mkUrlParts (to_lower (String c0 s0)) (to_lower hst)
                     (if is_empty pth then "/" else pth)).
Proof.
  intros Hc0 Hs0 Hne Hh Hp.
  assert (take_while is_scheme_char (String c0 s0 ++ "://" ++ hst ++ pth)
          = String c0 s0) as Hsch.
  { apply take_while_app; [|done]. simpl.
    by rewrite (is_alpha_scheme_char _ Hc0), Hs0. }
  assert (take_while (fun c => negb (is_slash c)) (hst ++ pth) = hst) as Hhst.
  { apply take_while_app; [done|]. destruct Hp as [->|(tail & -> & _)]; done. }
  unfold parse_url. rewrite app_cons_s, Hc0. rewrite <- app_cons_s.
  cbv zeta. rewrite Hsch. rewrite (drop_length_app (String c0 s0)).
  rewrite (starts_with_app_l "://"), (drop_length_app "://").
  rewrite Hhst. destruct hst as [|h hst]; [done|].
  rewrite (drop_length_app (String h hst)).
  destruct Hp as [->|(tail & -> & Ht)]; [done|]. by rewrite Ht.
Qed.

(** The pieces that [parse_url] returns, in terms of the text of the
    URL. *)
Lemma parse_url_pieces url parts :
  parse_url url = Some parts ->
  exists c0 s0 hst rest,
    url = (String c0 s0 ++ "://" ++ hst ++ rest)%string
    /\ is_alpha c0 = true /\ all_chars is_scheme_char s0 = true
    /\ hst <> "" /\ all_chars (fun c => negb (is_slash c)) hst = true
    /\ (rest = "" \/ exists tail, rest = String "/" tail
          /\ all_chars (fun c => negb (is_line_terminator c)) tail = true)
    /\ parts = mkUrlParts (to_lower (String c0 s0)) (to_lower hst)
                          (if is_empty rest then "/" else rest).
Proof.
  unfold parse_url. destruct url as [|c0 u]; [done|].
  destruct (is_alpha c0) eqn:Hc0; [|done]. cbv zeta.
  pose proof (take_while_all is_scheme_char (String c0 u)) as Hall.
  pose proof (take_while_drop is_scheme_char (String c0 u)) as Hsplit.
  destruct (take_while is_scheme_char (String c0 u)) as [|c1 s0] eqn:Hsch.
  { simpl in Hsch. by rewrite (is_alpha_scheme_char _ Hc0) in Hsch. }
  assert (c1 = c0) as ->.
  { simpl in Hsch. rewrite (is_alpha_scheme_char _ Hc0) in Hsch.
    by injection Hsch as ->. }
  remember (drop (String.length (String c0 s0)) (String c0 u)) as rest
    eqn:Hrest.
  destruct (starts_with "://" rest) eqn:Hsep; [|done].
  apply starts_with_app in Hsep. change (String.length "://") with 3 in Hsep.
  remember (drop 3 rest) as after eqn:Hafter.
  pose proof (take_while_all (fun c => negb (is_slash c)) after) as Hh.
  pose proof (take_while_drop (fun c => negb (is_slash c)) after) as Hsplit2.
  pose proof (take_while_stop (fun c => negb (is_slash c)) after) as Hstop.
  destruct (take_while (fun c => negb (is_slash c)) after) as [|h0 h] eqn:Hhst;
    [done|].
  remember (drop (String.length (String h0 h)) after) as pth eqn:Hpth.
  simpl in Hall. apply andb_prop in Hall as [_ Hall].
  assert (String c0 u = (String c0 s0 ++ "://" ++ String h0 h ++ pth)%string)
    as Hurl.
  { by rewrite Hsplit2, <- Hsep, Hsplit. }
  destruct pth as [|sl tail].
  - intros [= <-]. exists c0, s0, (String h0 h), "".
    repeat split; try done. by left.
  - destruct (all_chars _ tail) eqn:Ht; [|done]. intros [= <-].
    exists c0, s0, (String h0 h), (String sl tail).
    repeat split; try done. right. exists tail. split; [|done].
    specialize (Hstop sl tail eq_refl). apply negb_false_iff in Hstop.
    rewrite is_slash_eqb in Hstop. by apply Ascii.eqb_eq in Hstop as <-.
Qed.

Lemma all_chars_ext (p q : ascii -> bool) s :
  (forall c, p c = q c) -> all_chars p s = all_chars q s.
Proof.
  intros Hpq. induction s as [|c r IH]; simpl; [done|]. by rewrite Hpq, IH.
Qed.

Lemma to_lower_cons c s : to_lower (String c s) = String (tolower c) (to_lower s).
Proof. reflexivity. Qed.

Lemma to_lower_not_empty s : s <> "" -> to_lower s <> "".
Proof. by destruct s. Qed.

Lemma to_lower_scheme_chars s :
  all_chars is_scheme_char s = true ->
  all_chars is_scheme_char (to_lower s) = true.
Proof.
  intros H. unfold to_lower. rewrite all_chars_map.
  by rewrite (all_chars_ext _ is_scheme_char) by apply tolower_scheme_char.
Qed.

Lemma to_lower_no_slash s :
  all_chars (fun c => negb (is_slash c)) s = true ->
  all_chars (fun c => negb (is_slash c)) (to_lower s) = true.
Proof.
  intros H. unfold to_lower. rewrite all_chars_map.
  rewrite (all_chars_ext _ (fun c => negb (is_slash c))); [done|].
  intros c. by rewrite tolower_slash.
Qed.

Lemma find_slash_None s :
  all_chars (fun c => negb (is_slash c)) s = true -> find "/" s = None.
Proof.
  intros H. apply find_if_None.
  rewrite (all_chars_ext _ (fun c => negb (is_slash c))); [done|].
  intros c. by rewrite is_slash_eqb.
Qed.

Lemma starts_with_cons a p b s :
  starts_with (String a p) (String b s) = Ascii.eqb a b && starts_with p s.
Proof.
  unfold starts_with. simpl. destruct (ascii_dec a b) as [->|Hne].
  - by rewrite Ascii.eqb_refl.
  - apply Ascii.eqb_neq in Hne. by rewrite Hne.
Qed.

(** X14. What [parse_url] accepts and returns: the URL is a scheme, the
    separator [://], a host and a rest; scheme and host are returned in
    lower case, the host is non-empty and has no [/], and the path is
    the rest, or [/] when there is none, so it always starts with [/]. *)
Theorem parse_url_splits_the_url url parts :
  parse_url url = Some parts ->
  exists sch hst rest,
    url = (sch ++ "://" ++ hst ++ rest)%string
    /\ scheme parts = to_lower sch /\ host parts = to_lower hst
    /\ path parts = (if is_empty rest then "/" else rest)
    /\ scheme parts <> "" /\ host parts <> ""
    /\ find "/" (host parts) = None
    /\ starts_with "/" (path parts) = true.
Proof.
  intros (c0 & s0 & hst & rest & -> & Hc0 & Hs0 & Hne & Hh & Hp & ->)
    %parse_url_pieces.
  exists (String c0 s0), hst, rest. simpl. repeat split; try done.
  - by apply to_lower_not_empty.
  - by apply find_slash_None, to_lower_no_slash.
  - destruct Hp as [->|(tail & -> & _)]; [done|].
    change (starts_with "/" (String "/" tail) = true).
    rewrite starts_with_cons. by destruct tail.
Qed.

(** X15. Formatting the parts of a parsed URL and parsing the text again
    gives the same parts: the parts are a normal form. *)
Theorem parse_url_round_trip url parts :
  parse_url url = Some parts ->
  parse_url (scheme parts ++ "://" ++ host parts ++ path parts) = Some parts.
Proof.
  intros (c0 & s0 & hst & rest & -> & Hc0 & Hs0 & Hne & Hh & Hp & ->)
    %parse_url_pieces.
  simpl scheme. simpl host. simpl path. rewrite to_lower_cons.
  rewrite parse_url_build.
  - rewrite <- to_lower_cons, !to_lower_idem. f_equal. f_equal.
    by destruct Hp as [->|(tail & -> & _)].
  - by rewrite tolower_alpha.
  - by apply to_lower_scheme_chars.
  - by apply to_lower_not_empty.
  - by apply to_lower_no_slash.
  - destruct Hp as [->|(tail & -> & Ht)]; right; simpl.
    + by exists "".
    + by exists tail.
Qed.

(** ** [make_absolute] *)

(** X16. A link that starts with [http://] or [https://] is returned
    without its fragment, whatever the base is, also when the base
    cannot be parsed. *)
Theorem absolute_links_ignore_the_base base_url href :
  starts_with "http://" (trim href) || starts_with "https://" (trim href)
  = true ->
  make_absolute base_url href = strip_fragment (trim href)
  /\ find "#" (make_absolute base_url href) = None.
Proof.
  intros H.
  assert (make_absolute base_url href = strip_fragment (trim href)) as E.
  { unfold make_absolute. cbv zeta. destruct (trim href) as [|c r]; [done|].
    rewrite !starts_with_cons in *.
    destruct (Ascii.eqb "h" c) eqn:Hc; [|done].
    apply Ascii.eqb_eq in Hc as <-. simpl in H. simpl. by rewrite H. }
  split; [done|]. rewrite E. apply strip_fragment_no_hash.
Qed.

Lemma all_chars_tail p c r : all_chars p (String c r) = true -> all_chars p r = true.
Proof. simpl. by intros [_ H]%andb_prop. Qed.

(** X17. A relative link (not empty, no [mailto:], [javascript:], [http://],
    [https://] or [//] prefix, no line break) against a base that
    parses resolves to a URL with the scheme and the host of the base,
    so it is in an allowed domain exactly when the base is. *)
Theorem relative_links_stay_on_the_host cfg base_url href parts :
  parse_url base_url = Some parts ->
  is_empty (trim href) || starts_with "mailto:" (trim href)
  || starts_with "javascript:" (trim href) || starts_with "http://" (trim href)
  || starts_with "https://" (trim href) || starts_with "//" (trim href)
  = false ->
  all_chars (fun c => negb (is_line_terminator c)) (trim href) = true ->
  (exists pth,
     parse_url (make_absolute base_url href)
     = Some (mkUrlParts (scheme parts) (host parts) pth)
     /\ exists dir, pth = (dir ++ trim href)%string)
  /\ is_allowed_domain cfg (make_absolute base_url href)
     = is_allowed_domain cfg base_url.
Proof.
  intros Hbase Hrel Hlt.
  repeat (apply orb_false_elim in Hrel as [Hrel ?]).
  assert (exists dir tail,
    make_absolute base_url href
    = (scheme parts ++ "://" ++ host parts ++ String "/" tail)%string
    /\ String "/" tail = (dir ++ trim href)%string
    /\ all_chars (fun c => negb (is_line_terminator c)) tail = true)
    as (dir & tail & E & Edir & Ht).
  { unfold make_absolute. cbv zeta. rewrite Hbase.
    repeat match goal with H : _ = false |- _ => rewrite H end. simpl.
    destruct (starts_with "/" (trim href)) eqn:Hs.
    - destruct (trim href) as [|c r]; [done|].
      rewrite starts_with_cons in Hs. apply andb_prop in Hs as [Hc _].
      apply Ascii.eqb_eq in Hc as <-.
      exists "", r. repeat split; done.
    - apply parse_url_pieces in Hbase
        as (c0 & s0 & hst & rest & _ & _ & _ & _ & _ & Hp & ->).
      simpl path.
      assert (exists ptail, (if is_empty rest then "/" else rest)
                            = String "/" ptail
                /\ all_chars (fun c => negb (is_line_terminator c)) ptail
                   = true) as (ptail & -> & Hpt).
      { destruct Hp as [->|(t & -> & Ht)]; [by exists ""|by exists t]. }
      destruct (find_last_of "/" (String "/" ptail)) as [slash|].
      + unfold substr. replace (slash + 1) with (S slash) by lia. simpl.
        exists (String "/" (take slash ptail)),
               (take slash ptail ++ trim href)%string.
        repeat split; try done.
        rewrite all_chars_app, Hlt, andb_true_r. by apply all_chars_take.
      + exists "/", (trim href). done. }
  apply parse_url_pieces in Hbase as Hpieces.
  destruct Hpieces as (c0 & s0 & hst & rest & _ & Hc0 & Hs0 & Hne & Hh & _ & ->).
  simpl scheme in *. simpl host in *. rewrite to_lower_cons in E.
  assert (parse_url (make_absolute base_url href)
          = Some (mkUrlParts (to_lower (String c0 s0)) (to_lower hst)
                             (String "/" tail))) as Hparse.
  { rewrite E, parse_url_build.
    - by rewrite <- to_lower_cons, !to_lower_idem.
    - by rewrite tolower_alpha.
    - by apply to_lower_scheme_chars.
    - by apply to_lower_not_empty.
    - by apply to_lower_no_slash.
    - right. by exists tail. }
  split.
  - exists (String "/" tail). split; [done|]. by exists dir.
  - unfold is_allowed_domain. by rewrite Hparse, Hbase.
Qed.

(** ** [extension_from_url] *)

Lemma all_chars_and (p q : ascii -> bool) s :
  all_chars p s = true -> all_chars q s = true ->
  all_chars (fun c => p c && q c) s = true.
Proof.
  induction s as [|c r IH]; simpl; [done|].
  intros [-> Hp]%andb_prop [-> Hq]%andb_prop. simpl. by apply IH.
Qed.

Lemma tolower_keeps_delimiters c :
  negb (Ascii.eqb "." (tolower c)) && negb (Ascii.eqb "/" (tolower c))
  && negb (Ascii.eqb "?" (tolower c)) && negb (Ascii.eqb "#" (tolower c))
  = negb (Ascii.eqb "." c) && negb (Ascii.eqb "/" c)
    && negb (Ascii.eqb "?" c) && negb (Ascii.eqb "#" c).
Proof. destruct c as [[] [] [] [] [] [] [] []]; reflexivity. Qed.

(** X18. An extension is empty, or a dot followed by characters none of
    which is a dot, a slash, a question mark or a hash; it is in lower
    case. *)
Theorem extension_is_a_lowercase_dot_suffix url :
  to_lower (extension_from_url url) = extension_from_url url
  /\ (extension_from_url url = ""
      \/ exists r, extension_from_url url = String "." r
           /\ all_chars (fun c => negb (Ascii.eqb "." c)
                                  && negb (Ascii.eqb "/" c)
                                  && negb (Ascii.eqb "?" c)
                                  && negb (Ascii.eqb "#" c)) r = true).
Proof.
  split.
  { unfold extension_from_url. cbv zeta.
    destruct (find_last_of "." _); [|done]. apply to_lower_idem. }
  unfold extension_from_url.
  set (clean1 := strip_fragment url).
  assert (all_chars (fun c => negb (Ascii.eqb "#" c)) clean1 = true) as H1.
  { apply find_if_None, strip_fragment_no_hash. }
  set (clean := match find "?" clean1 with
                | Some q => substr 0 q clean1 | None => clean1 end).
  assert (all_chars (fun c => negb (Ascii.eqb "#" c)) clean = true
          /\ all_chars (fun c => negb (Ascii.eqb "?" c)) clean = true)
    as [H2 H3].
  { unfold clean, find, substr. destruct (find_if _ clean1) as [q|] eqn:Hq.
    - simpl. split; [by apply all_chars_take|].
      by apply find_if_None, find_if_take.
    - split; [done|]. by apply find_if_None. }
  set (filename := match find_last_of "/" clean with
                   | None => clean | Some slash => drop (slash + 1) clean end).
  assert (all_chars (fun c => negb (Ascii.eqb "#" c)) filename = true
          /\ all_chars (fun c => negb (Ascii.eqb "?" c)) filename = true
          /\ all_chars (fun c => negb (Ascii.eqb "/" c)) filename = true)
    as (H4 & H5 & H6).
  { unfold filename, find_last_of.
    destruct (find_last_if _ clean) as [slash|] eqn:Hs.
    - split; [by apply all_chars_drop|]. split; [by apply all_chars_drop|].
      destruct (find_last_if_Some _ _ _ Hs) as (c & r & Hd & _ & Hr).
      replace (slash + 1) with (S slash) by lia.
      by rewrite (drop_S_drop _ _ _ _ Hd).
    - repeat split; try done. by apply find_last_if_None. }
  cbv zeta. fold clean1. fold clean. fold filename.
  unfold find_last_of. destruct (find_last_if _ filename) as [dot|] eqn:Hdot;
    [|by left].
  right. destruct (find_last_if_Some _ _ _ Hdot) as (c & r & Hd & Hc & Hr).
  apply Ascii.eqb_eq in Hc as <-. rewrite Hd. simpl.
  exists (map_chars tolower r). split; [done|].
  rewrite all_chars_map.
  rewrite (all_chars_ext _ _ _ tolower_keeps_delimiters).
  pose proof (all_chars_drop _ dot _ H4) as H4'.
  pose proof (all_chars_drop _ dot _ H5) as H5'.
  pose proof (all_chars_drop _ dot _ H6) as H6'.
  rewrite Hd in H4', H5', H6'.
  apply all_chars_tail in H4', H5', H6'.
  repeat apply all_chars_and; done.
Qed.

(** ** [sanitize_filename] *)

Lemma replace_invalid_valid b s :
  all_chars is_filename_char (replace_invalid b s) = true.
Proof.
  revert b. induction s as [|c r IH]; intros b; simpl; [done|].
  destruct (is_filename_char c) eqn:Hc; simpl; [by rewrite Hc, IH|].
  destruct b; simpl; by rewrite IH.
Qed.

Lemma replace_invalid_not_empty s :
  s <> "" -> replace_invalid false s <> "".
Proof.
  destruct s as [|c r]; [done|]. intros _. simpl.
  by destruct (is_filename_char c).
Qed.

Lemma sanitize_filename_safe parts extension prefix :
  all_chars is_filename_char (sanitize_filename parts extension prefix) = true
  /\ String.length (sanitize_filename parts extension prefix) <= 240
  /\ sanitize_filename parts extension prefix <> "".
Proof.
  unfold sanitize_filename. cbv zeta.
  set (pth := if is_empty (path parts) || _ then _ else _).
  set (name := if negb (is_empty extension) && _ then _ else _).
  assert (name <> "") as Hne.
  { unfold name. destruct (_ && _); destruct prefix; done. }
  pose proof (replace_invalid_valid false name) as Hv.
  pose proof (replace_invalid_not_empty name Hne) as Hr.
  destruct (Nat.ltb 240 _) eqn:Hlen.
  - split; [by apply all_chars_take|]. split; [apply length_take_le|].
    by destruct (replace_invalid false name).
  - apply Nat.ltb_ge in Hlen. done.
Qed.

(** X19. A sanitized file name is non-empty, at most 240 characters long
    and made of letters, digits, dots, underscores and hyphens only: it
    has no slash and stays inside its directory. *)
Theorem sanitized_names_are_safe parts extension prefix :
  sanitize_filename parts extension prefix <> ""
  /\ String.length (sanitize_filename parts extension prefix) <= 240
  /\ all_chars is_filename_char (sanitize_filename parts extension prefix)
     = true
  /\ find "/" (sanitize_filename parts extension prefix) = None.
Proof.
  destruct (sanitize_filename_safe parts extension prefix) as (Hv & Hl & Hne).
  repeat split; try done. apply find_if_None.
  eapply all_chars_impl; [|exact Hv]. intros c.
  destruct c as [[] [] [] [] [] [] [] []]; done.
Qed.

(** ** The filters of [process_url] and [enqueue_url] *)

(** X20. [should_enqueue] is the filter of [enqueue_url] followed by the
    extension check: a link that [process_url] forwards is never
    rejected by the unlocked part of [enqueue_url], and is queued in
    its fragment-free form. *)
Theorem should_enqueue_refines_enqueue_filter cfg url :
  should_enqueue cfg url = true <->
  enqueue_candidate cfg url = Some (strip_fragment url)
  /\ (extension_from_url url = ""
      \/ extension_from_url url ∈ allowed_extensions cfg).
Proof.
  unfold should_enqueue, enqueue_candidate. cbv zeta.
  rewrite extension_from_url_strip.
  destruct (is_empty (strip_fragment url)); [naive_solver|].
  destruct (is_allowed_domain cfg (strip_fragment url)); simpl; [|naive_solver].
  destruct (extension_from_url url) as [|c r] eqn:Hext; simpl.
  - destruct (query_indicates_download _); naive_solver.
  - destruct (bool_decide _) eqn:Hdec; simpl.
    + apply bool_decide_eq_true in Hdec. naive_solver.
    + apply bool_decide_eq_false in Hdec. naive_solver.
Qed.

(** ** [header_callback] and [fetch_url] *)

Lemma ascii_colon_lower c : tolower c = ":"%char -> c = ":"%char.
Proof.
  destruct c as [[] [] [] [] [] [] [] []]; intros H;
    first [reflexivity | vm_compute in H; discriminate].
Qed.

Lemma ascii_lower_not_colon c x :
  tolower c = x -> x <> ":"%char -> Ascii.eqb ":" c = false.
Proof.
  intros <- Hx. apply Ascii.eqb_neq. intros <-. by apply Hx.
Qed.

Lemma content_type_colon h :
  starts_with "content-type:" (to_lower h) = true -> find ":" h = Some 12.
Proof.
  intros H.
  do 13 (destruct h as [|? h]; [done|];
         rewrite to_lower_cons, starts_with_cons in H;
         apply andb_prop in H as [?%Ascii.eqb_eq H]).
  unfold find. cbn [find_if].
  repeat match goal with
  | H : _ = tolower ?c |- context [Ascii.eqb ":" ?c] =>
      first [ rewrite (ascii_lower_not_colon c _ (eq_sym H)) by done
            | rewrite (ascii_colon_lower c (eq_sym H)) ]
  end.
  reflexivity.
Qed.

Lemma header_fold_other hs stored :
  Forall (fun x => starts_with "content-type:" (to_lower x) = false) hs ->
  fold_left (fun acc h => header_callback h acc) hs stored = stored.
Proof.
  revert stored. induction hs as [|h hs IH]; intros stored Hall; [done|].
  apply Forall_cons in Hall as [Hh Hall]. simpl.
  unfold header_callback at 2. rewrite Hh. by apply IH.
Qed.

(** X21. The content type of a fetch is the text after the header name of
    the last [Content-Type] line that libcurl delivered (over all
    responses of a redirect chain), trimmed. *)
Theorem content_type_comes_from_the_last_header url t before h after :
  header_lines t = before ++ h :: after ->
  starts_with "content-type:" (to_lower h) = true ->
  Forall (fun x => starts_with "content-type:" (to_lower x) = false) after ->
  content_type (fetch_url url (Some t)).1 = trim (drop 13 h).
Proof.
  intros Hl Hh Hafter.
  assert (fold_left (fun acc h => header_callback h acc) (header_lines t) ""
          = trim (drop 13 h)) as E.
  { rewrite Hl, fold_left_app. simpl. rewrite header_fold_other by done.
    unfold header_callback. by rewrite Hh, (content_type_colon _ Hh). }
  unfold fetch_url. rewrite E. by destruct (negb _).
Qed.

(** ** [extract_links] *)







(** ** [process_url]: what is written *)

Lemma sanitize_filename_prefix parts ext :
  starts_with "html__" (sanitize_filename parts ext "html") = true
  /\ starts_with "file__" (sanitize_filename parts ext "file") = true.
Proof.
  unfold sanitize_filename. cbv zeta.
  set (pth := if is_empty (path parts) || _ then _ else _).
  split.
  - destruct (negb (is_empty ext) && _);
      rewrite ?app_cons_s, ?app_nil_s; cbn [replace_invalid];
      change (is_filename_char "h") with true;
      change (is_filename_char "t") with true;
      change (is_filename_char "m") with true;
      change (is_filename_char "l") with true;
      change (is_filename_char "_") with true; cbv iota;
      destruct (Nat.ltb _ _); cbn [take]; rewrite !starts_with_cons; simpl;
      by match goal with |- starts_with "" ?x = true => destruct x end.
  - destruct (negb (is_empty ext) && _);
      rewrite ?app_cons_s, ?app_nil_s; cbn [replace_invalid];
      change (is_filename_char "f") with true;
      change (is_filename_char "i") with true;
      change (is_filename_char "l") with true;
      change (is_filename_char "e") with true;
      change (is_filename_char "_") with true; cbv iota;
      destruct (Nat.ltb _ _); cbn [take]; rewrite !starts_with_cons; simpl;
      by match goal with |- starts_with "" ?x = true => destruct x end.
Qed.

Lemma persist_plan_artifact url result is_html art row :
  persist_plan url result = Some (is_html, art, row) ->
  well_named art
  /\ (art_dir art = HtmlDir <-> is_html = true)
  /\ (is_html = true <-> contains "text/html" (to_lower (content_type result))
                         = true \/ content_type result = "")
  /\ row = mkRow url (art_dir art, art_name art)
                 (to_lower (content_type result)).
Proof.
  unfold persist_plan. destruct (is_empty (body result)) eqn:Hb; [done|].
  cbv zeta. destruct (parse_url url) as [parts|]; [|done].
  destruct (sanitize_filename_prefix parts ".html") as [Hhtml _].
  set (ext := if is_empty (extension_from_url url) then ".bin"
              else extension_from_url url).
  destruct (sanitize_filename_prefix parts ext) as [_ Hfile].
  destruct (sanitize_filename_safe parts ".html" "html") as (Hv1 & Hl1 & Hn1).
  destruct (sanitize_filename_safe parts ext "file") as (Hv2 & Hl2 & Hn2).
  assert (body result <> "") as Hbody by (by destruct (body result)).
  assert (to_lower (content_type result) = "" <-> content_type result = "")
    as Hct by (by destruct (content_type result)).
  destruct (contains "text/html" _) eqn:Hc; simpl.
  - intros [= <- <- <-]. simpl. split; [by constructor|].
    split; [done|]. split; [naive_solver|].
    by destruct (to_lower (content_type result)).
  - destruct (to_lower (content_type result)) as [|c r] eqn:Hl; simpl.
    + intros [= <- <- <-]. simpl. split; [by constructor|].
      split; [done|]. split; [naive_solver|done].
    + intros [= <- <- <-]. simpl. split; [by constructor|].
      split; [done|]. split; [|done].
      split; [done|]. intros [?|E]; [done|]. apply Hct in E. done.
Qed.

(** ** The content type in the ledger *)









(** ** Files written by a crawl *)

Lemma well_named_step cfg i env s s' :
  worker_step cfg i env s = Some s' ->
  Forall well_named (files s) -> Forall well_named (files s').
Proof.
  intros H Hf. step_inv H; simpl; try done.
  apply Forall_app. split; [done|]. constructor; [|done].
  match goal with
  | E : persist_plan _ _ = Some _ |- _ =>
      by destruct (persist_plan_artifact _ _ _ _ _ E) as [? _]
  end.
Qed.

(** X11. Every file a crawl writes has a non-empty body and a name that is
    non-empty, at most 240 characters long, made of letters, digits,
    dots, underscores and hyphens, and prefixed by [html__] in the HTML
    subtree and by [file__] in the files subtree. *)
Theorem written_files_are_well_named cfg s :
  reachable cfg s -> Forall well_named (files s).
Proof.
  intros [sched Hs].
  eapply (run_schedule_inv (fun s => Forall well_named (files s)) cfg);
    [|..|exact Hs].
  - intros i env s1 s2 Hf Hstep. by eapply well_named_step.
  - unfold init, enqueue_url. repeat case_match; simpl; constructor.
Qed.

(** ** The readers of the configuration *)

Lemma contains_nil sub : contains sub "" = starts_with sub "".
Proof. unfold starts_with. simpl. by rewrite orb_false_r. Qed.

Lemma contains_cons sub c r :
  contains sub (String c r) = starts_with sub (String c r) || contains sub r.
Proof. reflexivity. Qed.

Lemma regex_search_none {A} (attempt : string -> option A) sub s :
  (forall x, starts_with sub x = false -> attempt x = None) ->
  contains sub s = false -> regex_search attempt s = None.
Proof.
  intros Hatt. induction s as [|c r IH].
  - rewrite contains_nil. intros H. simpl. by rewrite (Hatt "" H).
  - rewrite contains_cons. intros [Hp Hc]%orb_false_elim.
    simpl. rewrite (Hatt _ Hp). by apply IH.
Qed.

Lemma regex_search_Some {A} (attempt : string -> option A) s m :
  regex_search attempt s = Some m -> exists k, attempt (drop k s) = Some m.
Proof.
  induction s as [|c r IH]; simpl.
  - destruct (attempt "") eqn:E; [|done]. intros [= ->]. by exists 0.
  - destruct (attempt (String c r)) eqn:E.
    + intros [= ->]. by exists 0.
    + intros [k Hk]%IH. by exists (S k).
Qed.

Lemma match_key_needs_key key x :
  starts_with (quoted key) x = false -> match_key key x = None.
Proof. unfold match_key. by intros ->. Qed.

Lemma match_string_needs_key key x :
  starts_with (quoted key) x = false -> match_string key x = None.
Proof. intros H. unfold match_string. by rewrite match_key_needs_key. Qed.

Lemma match_long_needs_key key x :
  starts_with (quoted key) x = false -> match_long key x = None.
Proof. intros H. unfold match_long. by rewrite match_key_needs_key. Qed.

Lemma match_array_needs_key key x :
  starts_with (quoted key) x = false -> match_array key x = None.
Proof. intros H. unfold match_array. by rewrite match_key_needs_key. Qed.

(** X23. When the quoted key does not occur in the text, each reader
    returns its fallback, and [read_long] does not throw. *)
Theorem readers_fall_back_without_key data key :
  all_chars is_word_char key = true ->
  contains (quoted key) data = false ->
  (forall fallback, read_string data key fallback = fallback)
  /\ (forall fallback, read_long data key fallback = Some fallback)
  /\ (forall fallback, read_string_array data key fallback = fallback).
Proof.
  intros _ H. unfold read_string, read_long, read_string_array.
  rewrite (regex_search_none _ _ _ (match_string_needs_key key) H).
  rewrite (regex_search_none _ _ _ (match_long_needs_key key) H).
  by rewrite (regex_search_none _ _ _ (match_array_needs_key key) H).
Qed.

Lemma regex_search_hit {A} (attempt : string -> option A) s m :
  attempt s = Some m -> regex_search attempt s = Some m.
Proof. intros H. destruct s; simpl; by rewrite H. Qed.

Lemma starts_with_app_long p a b :
  String.length p <= String.length a ->
  starts_with p (a ++ b) = starts_with p a.
Proof.
  revert a. induction p as [|x p IH]; intros a Hl.
  - unfold starts_with. by destruct a, b.
  - destruct a as [|y a]; [simpl in Hl; lia|].
    rewrite app_cons_s, !starts_with_cons. rewrite IH; [done|].
    simpl in Hl. lia.
Qed.

Lemma quoted_snoc key :
  quoted key = (String dquote key ++ String dquote "")%string.
Proof. reflexivity. Qed.

(** Before the first occurrence of the quoted key, no attempt of a
    pattern that starts with it can match. *)
Lemma regex_search_skip {A} (attempt : string -> option A) key pre body :
  (forall x, starts_with (quoted key) x = false -> attempt x = None) ->
  contains (quoted key) (pre ++ String dquote key) = false ->
  regex_search attempt (pre ++ quoted key ++ body)
  = regex_search attempt (quoted key ++ body).
Proof.
  intros Hatt Hpre. induction pre as [|c pre IH].
  - by rewrite app_nil_s.
  - rewrite app_cons_s in Hpre. rewrite contains_cons in Hpre.
    apply orb_false_elim in Hpre as [Hp Hc].
    rewrite app_cons_s. simpl. rewrite Hatt; [by apply IH|].
    rewrite <- app_cons_s in *. rewrite quoted_snoc in *.
    rewrite app_assoc_s, <- (app_assoc_s (String c pre)).
    rewrite starts_with_app_long; [done|].
    rewrite !length_app_s. simpl. lia.
Qed.

Lemma regex_search_entry {A} (attempt : string -> option A) key pre body m :
  (forall x, starts_with (quoted key) x = false -> attempt x = None) ->
  contains (quoted key) (pre ++ String dquote key) = false ->
  attempt (quoted key ++ body)%string = Some m ->
  regex_search attempt (pre ++ quoted key ++ body) = Some m.
Proof.
  intros Hatt Hpre Hm. rewrite regex_search_skip by done.
  by apply regex_search_hit.
Qed.

Lemma drop_while_app p a b :
  all_chars p a = true ->
  match b with EmptyString => True | String c _ => p c = false end ->
  drop_while p (a ++ b) = b.
Proof.
  intros Ha Hb. induction a as [|x a IH].
  - rewrite app_nil_s. destruct b as [|c r]; simpl; [done|by rewrite Hb].
  - rewrite app_cons_s. simpl in *. apply andb_prop in Ha as [-> Ha].
    by apply IH.
Qed.

Lemma match_key_entry key ws1 ws2 rest :
  all_chars is_space ws1 = true -> all_chars is_space ws2 = true ->
  match rest with EmptyString => True | String c _ => is_space c = false end ->
  match_key key (quoted key ++ ws1 ++ ":" ++ ws2 ++ rest) = Some rest.
Proof.
  intros H1 H2 Hr. unfold match_key.
  rewrite starts_with_app_l, drop_length_app.
  rewrite (drop_while_app _ ws1) by done.
  rewrite app_cons_s, app_nil_s. simpl code. simpl Nat.eqb. cbv iota.
  by rewrite drop_while_app.
Qed.

(** X24. [read_string] returns the value of the first entry for the key:
    the quoted key, optional spaces around the colon, and a value
    between double quotes, whatever surrounds the entry. *)
Theorem read_string_reads_the_first_entry
    key pre ws1 ws2 value post fallback :
  all_chars is_word_char key = true ->
  contains (quoted key) (pre ++ String dquote key) = false ->
  all_chars is_space ws1 = true -> all_chars is_space ws2 = true ->
  all_chars (fun c => negb (is_dquote c)) value = true ->
  read_string
    (pre ++ quoted key ++ ws1 ++ ":" ++ ws2
         ++ String dquote (value ++ String dquote post)) key fallback
  = value.
Proof.
  intros _ Hpre H1 H2 Hv. unfold read_string.
  rewrite (regex_search_entry _ key pre _ value); [done| |done|].
  - apply match_string_needs_key.
  - unfold match_string. rewrite match_key_entry by done.
    change (is_dquote dquote) with true. cbv iota zeta.
    rewrite take_while_app by done. by rewrite drop_length_app.
Qed.

Lemma digit_is_long_char c : is_digit c = true -> is_long_char c = true.
Proof. unfold is_long_char. intros ->. by rewrite orb_true_r. Qed.

Lemma digit_not_space c : is_digit c = true -> is_space c = false.
Proof. destruct c as [[] [] [] [] [] [] [] []]; done. Qed.

Lemma digit_not_sign c :
  is_digit c = true -> (code c =? 45)%nat = false /\ (code c =? 43)%nat = false.
Proof. destruct c as [[] [] [] [] [] [] [] []]; done. Qed.

Lemma stol_digits digits :
  digits <> "" -> all_chars is_digit digits = true ->
  stol digits
  = (if (digits_value 0 digits <=? LONG_MAX)%Z
     then Some (digits_value 0 digits) else None)
  /\ stol (String "-" digits)
    = (if (LONG_MIN <=? - digits_value 0 digits)%Z
       then Some (- digits_value 0 digits)%Z else None).
Proof.
  intros Hne Hd.
  assert (forall acc s, (0 <= acc)%Z -> (0 <= digits_value acc s)%Z) as Hpos.
  { intros acc s. revert acc. induction s as [|c r IH]; intros acc Hacc; simpl;
      [done|]. apply IH. lia. }
  pose proof (Hpos 0%Z digits (Z.le_refl 0)) as Hv.
  assert (take_while is_digit digits = digits) as Htw.
  { rewrite <- (app_empty_r digits) at 1. by apply take_while_app. }
  destruct digits as [|c r]; [done|].
  assert (is_digit c = true) as Hc.
  { simpl in Hd. by apply andb_prop in Hd as [? _]. }
  destruct (digit_not_sign c Hc) as [Hm Hp].
  assert (drop_while is_space (String c r) = String c r) as Hdw.
  { simpl. by rewrite (digit_not_space c Hc). }
  split.
  - unfold stol. cbv zeta. rewrite Hdw. cbv iota. rewrite Hm, Hp.
    cbv iota beta. rewrite Htw. simpl is_empty. cbv iota.
    replace (LONG_MIN <=? digits_value 0 (String c r))%Z with true; [done|].
    symmetry. apply Z.leb_le. unfold LONG_MIN. lia.
  - unfold stol. cbv zeta.
    change (drop_while is_space (String "-" (String c r)))
      with (String "-" (String c r)).
    cbv iota. change (code "-" =? 45)%nat with true.
    cbv iota beta. rewrite Htw. simpl is_empty. cbv iota.
    replace (- digits_value 0 (String c r) <=? LONG_MAX)%Z with true;
      [by rewrite andb_true_r|].
    symmetry. apply Z.leb_le. unfold LONG_MAX. lia.
Qed.

(** X25. [read_long] reads the first entry for the key as a decimal number
    with an optional minus sign and ignores what follows the digits; a
    number that is not a [long] makes it throw. *)
Theorem read_long_reads_the_first_entry
    key pre ws1 ws2 (negative : bool) digits post fallback :
  all_chars is_word_char key = true ->
  contains (quoted key) (pre ++ String dquote key) = false ->
  all_chars is_space ws1 = true -> all_chars is_space ws2 = true ->
  digits <> "" -> all_chars is_digit digits = true ->
  match post with
  | EmptyString => True
  | String c _ => is_long_char c = false
  end ->
  read_long
    (pre ++ quoted key ++ ws1 ++ ":" ++ ws2
         ++ (if negative then "-" else "") ++ digits ++ post) key fallback
  = (let value := if negative then (- digits_value 0 digits)%Z
                  else digits_value 0 digits in
     if (LONG_MIN <=? value)%Z && (value <=? LONG_MAX)%Z
     then Some value else None).
Proof.
  intros _ Hpre H1 H2 Hne Hd Hpost. unfold read_long.
  destruct (stol_digits digits Hne Hd) as [Hplus Hminus].
  assert (forall acc s, (0 <= acc)%Z -> (0 <= digits_value acc s)%Z) as Hpos.
  { intros acc s. revert acc. induction s as [|c r IH]; intros acc Hacc; simpl;
      [done|]. apply IH. lia. }
  pose proof (Hpos 0%Z digits (Z.le_refl 0)) as Hv.
  assert (all_chars is_long_char digits = true) as Hl.
  { eapply all_chars_impl; [|exact Hd]. apply digit_is_long_char. }
  set (m := ((if negative then "-" else "") ++ digits)%string).
  assert (all_chars is_long_char m = true /\ m <> ""
          /\ match m with
             | EmptyString => True
             | String c _ => is_space c = false
             end) as (Hm & Hmne & Hms).
  { unfold m. destruct negative.
    - rewrite app_cons_s, app_nil_s. simpl. by rewrite Hl.
    - rewrite app_nil_s. split; [done|]. split; [done|].
      destruct digits as [|c r]; [done|]. apply digit_not_space.
      simpl in Hd. by apply andb_prop in Hd as [? _]. }
  rewrite <- (app_assoc_s (if negative then "-" else "") digits post).
  fold m.
  rewrite (regex_search_entry _ key pre _ m).
  - unfold m. destruct negative.
    + rewrite app_cons_s, app_nil_s, Hminus. cbv zeta.
      replace (- digits_value 0 digits <=? LONG_MAX)%Z with true;
        [by rewrite andb_true_r|].
      symmetry. apply Z.leb_le. unfold LONG_MAX. lia.
    + rewrite app_nil_s, Hplus. cbv zeta.
      replace (LONG_MIN <=? digits_value 0 digits)%Z with true; [done|].
      symmetry. apply Z.leb_le. unfold LONG_MIN. lia.
  - apply match_long_needs_key.
  - done.
  - unfold match_long. rewrite match_key_entry.
    + cbv zeta. rewrite take_while_app by done. by rewrite is_empty_false.
    + done.
    + done.
    + destruct m as [|c r]; [done|]. by rewrite app_cons_s.
Qed.

Lemma all_chars_take_while p q s :
  all_chars p s = true -> all_chars p (take_while q s) = true.
Proof.
  induction s as [|c r IH]; simpl; [done|].
  intros [Hc Hr]%andb_prop. destruct (q c); simpl; [|done].
  by rewrite Hc, IH.
Qed.

Lemma all_chars_drop_while p q s :
  all_chars p s = true -> all_chars p (drop_while q s) = true.
Proof.
  induction s as [|c r IH]; simpl; [done|].
  intros [Hc Hr]%andb_prop. destruct (q c); simpl; [by apply IH|].
  by rewrite Hc, Hr.
Qed.

Lemma match_quoted_value p s value len :
  all_chars p s = true ->
  match_quoted s = Some (value, len) ->
  value <> "" /\ all_chars (fun c => negb (is_dquote c)) value = true
  /\ all_chars p value = true.
Proof.
  intros Hp. unfold match_quoted. destruct s as [|q r]; [done|].
  destruct (is_dquote q); [|done]. cbv zeta.
  pose proof (take_while_all (fun c => negb (is_dquote c)) r) as Hall.
  apply all_chars_tail in Hp.
  pose proof (all_chars_take_while p (fun c => negb (is_dquote c)) r Hp) as Hv.
  destruct (take_while _ r) as [|c v]; [done|].
  destruct (drop _ r); [done|]. by intros [= <- _].
Qed.

Lemma scan_quoted_cons skip c r :
  scan_quoted skip (String c r)
  = match skip with
    | S k => scan_quoted k r
    | O =>
        match match_quoted (String c r) with
        | Some (value, len) => value :: scan_quoted (len - 1) r
        | None => scan_quoted 0 r
        end
    end.
Proof. reflexivity. Qed.

Lemma scan_quoted_values p skip s :
  all_chars p s = true ->
  Forall (fun value => value <> ""
            /\ all_chars (fun c => negb (is_dquote c)) value = true
            /\ all_chars p value = true)
         (scan_quoted skip s).
Proof.
  revert skip. induction s as [|c r IH]; intros skip Hp; [by constructor|].
  rewrite scan_quoted_cons.
  pose proof (all_chars_tail _ _ _ Hp) as Hr.
  destruct skip as [|k]; [|by apply IH].
  destruct (match_quoted (String c r)) as [[value len]|] eqn:Hm; [|by apply IH].
  constructor; [|by apply IH]. exact (match_quoted_value p _ _ _ Hp Hm).
Qed.

Lemma match_array_content key s content :
  match_array key s = Some content ->
  all_chars (fun c => negb (is_close_bracket c)
                      && negb (is_line_terminator c)) content = true.
Proof.
  unfold match_array. destruct (match_key key s) as [[|b r]|]; try done.
  destruct (code b =? 91)%nat; [|done]. cbv zeta.
  pose proof (take_while_all (fun c => negb (is_close_bracket c)) r) as Hall.
  destruct (drop _ r); [done|].
  destruct (all_chars (fun c => negb (is_line_terminator c)) _) eqn:Hlt;
    [|done].
  intros [= <-]. by apply all_chars_and.
Qed.

(** X26. [read_string_array] returns its fallback or a non-empty list read
    from the text; a value read from the text is not empty and has no
    double quote, no closing bracket and no line break in it. *)
Theorem read_string_array_values data key fallback :
  all_chars is_word_char key = true ->
  read_string_array data key fallback = fallback
  \/ (read_string_array data key fallback <> []
      /\ Forall (fun value =>
                   value <> ""
                   /\ all_chars (fun c => negb (is_dquote c)) value = true
                   /\ all_chars (fun c => negb (is_close_bracket c)
                                          && negb (is_line_terminator c))
                                value = true)
                (read_string_array data key fallback)).
Proof.
  intros _. unfold read_string_array.
  destruct (regex_search (match_array key) data) as [content|] eqn:Hs;
    [|by left].
  cbv zeta. destruct (bool_decide _) eqn:Hd; [by left|]. right.
  apply bool_decide_eq_false in Hd. split; [done|].
  apply regex_search_Some in Hs as [k Hk].
  apply scan_quoted_values. by eapply match_array_content.
Qed.

(** X27. An array whose brackets are on different lines is not read: when
    a line break stands between the opening bracket and the first
    closing bracket of the only entry for the key,
    [read_string_array] returns its fallback. *)
Theorem array_on_several_lines_is_ignored
    key pre ws1 ws2 content post fallback :
  all_chars is_word_char key = true ->
  contains (quoted key) (pre ++ String dquote key) = false ->
  contains (quoted key)
           (key ++ String dquote
                     (ws1 ++ ":" ++ ws2 ++ "[" ++ content ++ "]" ++ post))
  = false ->
  all_chars is_space ws1 = true -> all_chars is_space ws2 = true ->
  all_chars (fun c => negb (is_close_bracket c)) content = true ->
  all_chars (fun c => negb (is_line_terminator c)) content = false ->
  read_string_array
    (pre ++ quoted key ++ ws1 ++ ":" ++ ws2 ++ "[" ++ content ++ "]" ++ post)
    key fallback
  = fallback.
Proof.
  intros _ Hpre Hpost H1 H2 Hc Hlt. unfold read_string_array.
  rewrite regex_search_skip; [|apply match_array_needs_key|done].
  assert (match_array key
            (quoted key ++ ws1 ++ ":" ++ ws2 ++ "[" ++ content ++ "]" ++ post)
          = None) as Hfail.
  { unfold match_array. rewrite match_key_entry by done.
    rewrite app_cons_s, app_nil_s. change (code "[" =? 91)%nat with true.
    cbv iota zeta. rewrite take_while_app by done.
    rewrite drop_length_app, app_cons_s. by rewrite Hlt. }
  unfold quoted in Hfail |- *. rewrite app_cons_s in Hfail |- *.
  simpl regex_search. rewrite Hfail.
  rewrite app_assoc_s, app_cons_s, app_nil_s.
  by rewrite (regex_search_none _ _ _ (match_array_needs_key key) Hpost).
Qed.

(** *** The fields computed by [load_config] *)

Lemma insert_extension_dots acc exts :
  set_Forall (fun ext => starts_with "." ext = true) acc ->
  set_Forall (fun ext => starts_with "." ext = true)
             (fold_left insert_extension exts acc).
Proof.
  revert acc. induction exts as [|e exts IH]; intros acc Hacc; [done|].
  simpl. apply IH. unfold insert_extension. destruct e as [|c r]; [done|].
  destruct (code c =? 46)%nat eqn:Hc.
  - apply set_Forall_union; [|done]. apply set_Forall_singleton.
    apply Nat.eqb_eq in Hc. rewrite starts_with_cons.
    assert (c = "."%char) as ->.
    { rewrite <- (ascii_nat_embedding c). unfold code in Hc. by rewrite Hc. }
    by destruct r.
  - apply set_Forall_union; [|done]. apply set_Forall_singleton.
    rewrite starts_with_cons. by destruct c.
Qed.

(** X28. Every allowed extension of a loaded configuration starts with a
    dot, whether it is a default or comes from the file with or without
    one. *)
Theorem configured_extensions_start_with_a_dot data :
  set_Forall (fun ext => starts_with "." ext = true)
             (configured_extensions data).
Proof.
  unfold configured_extensions. cbv zeta. destruct (bool_decide _).
  - intros ext Hin. simpl in Hin.
    rewrite !elem_of_union, !elem_of_singleton in Hin.
    rewrite elem_of_empty in Hin.
    repeat (destruct Hin as [->|Hin]; [reflexivity|]). done.
  - by apply insert_extension_dots.
Qed.

Lemma wrap32_id z : (- 2 ^ 31 <= z < 2 ^ 31)%Z -> wrap32 z = z.
Proof.
  intros H. unfold wrap32. rewrite Z.mod_small; lia.
Qed.

Lemma wrap32_wrap32 z : wrap32 (wrap32 z) = wrap32 z.
Proof.
  unfold wrap32.
  replace ((z + 2 ^ 31) mod 2 ^ 32 - 2 ^ 31 + 2 ^ 31)%Z
    with ((z + 2 ^ 31) mod 2 ^ 32)%Z by lia.
  by rewrite Z.mod_mod.
Qed.

Lemma readers_of_empty_text :
  configured_start_url "" = start_url default_config
  /\ configured_domains "" = map to_lower (allowed_domains default_config)
  /\ configured_extensions "" = allowed_extensions default_config
  /\ forall key n, read_long "" key n = Some n.
Proof.
  split; [reflexivity|]. split; [reflexivity|]. split.
  - unfold configured_extensions. cbv zeta.
    change (read_string_array "" "extensions" []) with (@nil string).
    by rewrite bool_decide_eq_true_2.
  - intros key n. unfold read_long, regex_search, match_long, match_key.
    by destruct key.
Qed.

(** The fields of the configuration that [load_config] returns, in
    terms of the readers; a missing file is read as the empty text. *)
Lemma load_config_fields out_of_range hw file cfg :
  load_config out_of_range hw file = Some cfg ->
  exists data,
    (file = Some data \/ (file = None /\ data = ""))
    /\ start_url cfg = configured_start_url data
    /\ allowed_domains cfg = configured_domains data
    /\ allowed_extensions cfg = configured_extensions data
    /\ read_long data "max_pages" (max_pages default_config)
       = Some (max_pages cfg)
    /\ exists link_threads,
         read_long data "crawler_threads" (wrap32 (Z.max 1 hw))
         = Some link_threads
         /\ threads cfg = (if (0 <? link_threads)%Z then wrap32 link_threads
                           else wrap32 (Z.max 1 hw)).
Proof.
  destruct readers_of_empty_text as (Hs & Hd & He & Hl).
  assert (forall cfg0,
    cfg0 = mkConfig (start_url default_config)
                    (map to_lower (allowed_domains default_config))
                    (max_pages default_config) (wrap32 (Z.max 1 hw))
                    (allowed_extensions default_config) ->
    start_url cfg0 = configured_start_url ""
    /\ allowed_domains cfg0 = configured_domains ""
    /\ allowed_extensions cfg0 = configured_extensions ""
    /\ read_long "" "max_pages" (max_pages default_config)
       = Some (max_pages cfg0)
    /\ exists link_threads,
         read_long "" "crawler_threads" (wrap32 (Z.max 1 hw))
         = Some link_threads
         /\ threads cfg0 = (if (0 <? link_threads)%Z
                            then wrap32 link_threads
                            else wrap32 (Z.max 1 hw))) as Hdef.
  { intros cfg0 ->. cbn [start_url allowed_domains allowed_extensions
                         max_pages threads].
    rewrite Hs, Hd, He, !Hl. repeat split.
    exists (wrap32 (Z.max 1 hw)). split; [done|].
    rewrite wrap32_wrap32. by destruct (0 <? _)%Z. }
  unfold load_config. cbv zeta. destruct file as [data|].
  - destruct (is_empty data) eqn:Hempty.
    + destruct data; [|done]. intros [= <-]. exists "".
      split; [by left|]. by apply Hdef.
    + destruct (read_long data "max_pages" _) as [pages|] eqn:Hp; [|done].
      destruct (read_double _ data "delay"); [|done].
      destruct (read_double _ data "timeout"); [|done].
      destruct (read_long data "crawler_threads" _) as [lt|] eqn:Ht; [|done].
      intros [= <-]. exists data.
      cbn [start_url allowed_domains allowed_extensions max_pages threads].
      split; [by left|]. repeat split; try done. by exists lt.
  - intros [= <-]. exists "". split; [by right|]. by apply Hdef.
Qed.

(** X29. When [load_config] returns, having at most [INT_MAX] hardware
    threads and read for [crawler_threads] a value of at most
    [INT_MAX], the number of threads of the configuration is that
    value when it is positive and the hardware count (at least one)
    otherwise; it lies between 1 and [INT_MAX], as the properties of
    the worker loop require.  A missing or empty file gives the
    hardware count. *)
Theorem loaded_threads_in_range out_of_range hw file cfg :
  (0 <= hw <= INT_MAX)%Z ->
  load_config out_of_range hw file = Some cfg ->
  (forall data v,
     file = Some data ->
     read_long data "crawler_threads" (Z.max 1 hw) = Some v ->
     (v <= INT_MAX)%Z) ->
  (1 <= threads cfg <= INT_MAX)%Z
  /\ (forall data v,
        file = Some data ->
        read_long data "crawler_threads" (Z.max 1 hw) = Some v ->
        threads cfg = (if (0 <? v)%Z then v else Z.max 1 hw))
  /\ (file = None \/ file = Some "" -> threads cfg = Z.max 1 hw).
Proof.
  unfold INT_MAX. intros Hhw Hload Hv.
  destruct readers_of_empty_text as (_ & _ & _ & Hl).
  assert (wrap32 (Z.max 1 hw) = Z.max 1 hw) as E0
    by (apply wrap32_id; lia).
  destruct (load_config_fields _ _ _ _ Hload)
    as (data & Hfile & _ & _ & _ & _ & lt & Ht & Hthreads).
  rewrite E0 in Ht, Hthreads.
  assert (threads cfg = (if (0 <? lt)%Z then lt else Z.max 1 hw)
          /\ (1 <= threads cfg <= 2 ^ 31 - 1)%Z) as [Heq Hrange].
  { assert (lt <= 2 ^ 31 - 1)%Z as Hlt.
    { destruct Hfile as [->|[-> ->]]; [by apply (Hv data lt)|].
      rewrite Hl in Ht. injection Ht as <-. lia. }
    rewrite Hthreads. destruct (0 <? lt)%Z eqn:E.
    - apply Z.ltb_lt in E. rewrite wrap32_id by lia. split; [done|lia].
    - split; [done|lia]. }
  split; [done|]. split.
  - intros data' v -> Hr.
    destruct Hfile as [[= <-]|[? _]]; [|done].
    rewrite Ht in Hr. injection Hr as <-. done.
  - intros Hnone. rewrite Heq.
    assert (lt = Z.max 1 hw) as ->.
    { destruct Hfile as [->|[_ ->]].
      - destruct Hnone as [?|[= ->]]; [done|].
        rewrite Hl in Ht. by injection Ht as <-.
      - rewrite Hl in Ht. by injection Ht as <-. }
    by destruct (0 <? _)%Z.
Qed.

(** X30. The allowed domains of a loaded configuration are in lower case,
    so a URL is in an allowed domain exactly when it parses and its
    lower-cased host is one of them. *)
Theorem loaded_domains_match_hosts cfg data url :
  allowed_domains cfg = configured_domains data ->
  is_allowed_domain cfg url = true <->
  exists parts, parse_url url = Some parts
                /\ host parts ∈ allowed_domains cfg.
Proof.
  intros Hdom. unfold is_allowed_domain.
  assert (forall d, d ∈ allowed_domains cfg -> to_lower d = d) as Hlow.
  { intros d Hd. rewrite Hdom in Hd. unfold configured_domains in Hd.
    apply list_elem_of_In, in_map_iff in Hd as (x & <- & _).
    apply to_lower_idem. }
  destruct (parse_url url) as [parts|]; [|naive_solver].
  rewrite existsb_exists. split.
  - intros (d & Hin & Heq). apply String.eqb_eq in Heq.
    apply list_elem_of_In in Hin. exists parts. split; [done|].
    rewrite Heq. by rewrite (Hlow _ Hin).
  - intros (parts' & [= <-] & Hin). exists (host parts).
    split; [by apply list_elem_of_In|]. apply String.eqb_eq.
    by rewrite (Hlow _ Hin).
Qed.

(** ** The properties above at concrete inputs *)

(** [load_config] on [pipeline_json], with eight hardware threads. *)
Example load_config_pipeline_json :
  load_config no_range_error 8 (Some pipeline_json)
  = Some (mkConfig "https://ex.test/a" ["ex.test"] (-1) 4
                   (list_to_set [".pdf"; ".html"])).
Proof. vm_compute. reflexivity. Qed.

(** Without a file, and with an empty one, the defaults remain, with
    the domains in lower case and the hardware count for the threads. *)
Example load_config_defaults :
  load_config no_range_error 8 None
  = Some (mkConfig (start_url default_config)
                   (allowed_domains default_config)
                   (max_pages default_config) 8
                   (allowed_extensions default_config))
  /\ load_config no_range_error 8 (Some "")
     = load_config no_range_error 8 None.
Proof. split; vm_compute; reflexivity. Qed.

(** A timeout that is a lone minus sign makes [std::stod] throw at
    line 145, before the number of threads is read at line 146. *)
Example load_config_bad_timeout :
  read_long pipeline_json_bad_timeout "crawler_threads" 8 = Some 4%Z
  /\ read_double no_range_error pipeline_json_bad_timeout "timeout" = None
  /\ load_config no_range_error 8 (Some pipeline_json_bad_timeout) = None.
Proof. repeat split; vm_compute; reflexivity. Qed.

(** Two URLs of one crawl can be saved under the same name: the
    second write replaces the file of the first, and the ledger has
    two rows for one file on disk. *)
Example colliding_names :
  (row_url <$> ledger (state_after demo_config colliding_crawl))
  = ["https://ex.test/a"; "https://ex.test/a.html"]
  /\ (art_name <$> files (state_after demo_config colliding_crawl))
     = ["html__ex.test_a.html"; "html__ex.test_a.html"]
  /\ map_to_list (directory (state_after demo_config colliding_crawl))
     = [((HtmlDir, "html__ex.test_a.html"), "<html>hi</html>")].
Proof. repeat split; vm_compute; reflexivity. Qed.

(** A value that is an empty pair of quotes shifts the pairing of the
    quotes that follow. *)
Example read_string_array_empty_value :
  read_string_array
    (quoted "k" ++ ": [" ++ quoted "" ++ ", " ++ quoted "a" ++ "]") "k" []
  = [", "].
Proof. vm_compute. reflexivity. Qed.

(** A minus sign without digits makes [read_long] throw. *)
Example read_long_lone_minus :
  read_long (quoted "max_pages" ++ ": -}") "max_pages" 7 = None.
Proof. vm_compute. reflexivity. Qed.

(** X1 at the seed of the demo crawl. *)
Lemma crawled_urls_are_accepted_witness :
  strip_fragment "https://ex.test/a" = "https://ex.test/a"
  /\ "https://ex.test/a" <> ""
  /\ is_allowed_domain demo_config "https://ex.test/a" = true.
Proof.
  destruct (crawled_urls_are_accepted demo_config (init demo_config))
    as [H _].
  - exists []. reflexivity.
  - apply H. left. vm_compute. left.
Defined.

(** X2 at a state in which worker 0 is inside the block of line 384. *)
Lemma mutual_exclusion_witness :
  queue_mutex (state_after demo_config (turns 0 2 None)) = Some 0.
Proof.
  destruct (mutual_exclusion demo_config
              (state_after demo_config (turns 0 2 None)) 0 0 InQueue InQueue)
    as [H _].
  - exists (turns 0 2 None). vm_compute. reflexivity.
  - vm_compute. reflexivity.
  - vm_compute. reflexivity.
  - destruct (H eq_refl eq_refl) as [_ Hq]. exact Hq.
Defined.

(** X3 at a state of the demo crawl with both workers in the loop. *)
Lemma no_deadlock_witness :
  finished (state_after demo_config popped_not_marked)
  \/ exists i, forall env,
       is_Some (worker_step demo_config i env
                  (state_after demo_config popped_not_marked)).
Proof.
  apply (no_deadlock demo_config).
  exists popped_not_marked. vm_compute. reflexivity.
Defined.

(** X4 at the second row of the demo crawl. *)
Lemma ledger_rows_have_artifacts_witness :
  exists art,
    art ∈ files (state_after demo_config full_crawl)
    /\ (HtmlDir, "html__ex.test_b.html") = (art_dir art, art_name art).
Proof.
  apply (ledger_rows_have_artifacts demo_config
           (state_after demo_config full_crawl)
           (mkRow "https://ex.test/b" (HtmlDir, "html__ex.test_b.html")
                  "text/html")).
  - exists full_crawl. vm_compute. reflexivity.
  - vm_compute. right. left.
Defined.

(** X5 after a crawl of two URLs that are saved under one name. *)
Lemma writes_rows_and_counter_agree_witness :
  length (files (state_after demo_config colliding_crawl)) = 2
  /\ length (ledger (state_after demo_config colliding_crawl)) = 2
  /\ size (directory (state_after demo_config colliding_crawl)) = 1
  /\ length (files (state_after demo_config colliding_crawl))
     = length (ledger (state_after demo_config colliding_crawl))
       + tally before_row (workers (state_after demo_config colliding_crawl))
  /\ size (directory (state_after demo_config colliding_crawl))
     <= length (files (state_after demo_config colliding_crawl)).
Proof.
  split; [vm_compute; reflexivity|].
  split; [vm_compute; reflexivity|].
  split; [vm_compute; reflexivity|].
  destruct (writes_rows_and_counter_agree demo_config
              (state_after demo_config colliding_crawl)) as (H1 & _ & H2 & _).
  - exists colliding_crawl. vm_compute. reflexivity.
  - split; [exact H1|exact H2].
Defined.

(** X6 along the demo crawl. *)
Lemma run_only_adds_witness :
  visited (init demo_config) ⊆ visited (state_after demo_config full_crawl)
  /\ ledger (init demo_config)
       `prefix_of` ledger (state_after demo_config full_crawl)
  /\ files (init demo_config)
       `prefix_of` files (state_after demo_config full_crawl)
  /\ dom (directory (init demo_config))
       ⊆ dom (directory (state_after demo_config full_crawl))
  /\ cerr (init demo_config)
       `prefix_of` cerr (state_after demo_config full_crawl)
  /\ (stop (init demo_config) = true ->
      stop (state_after demo_config full_crawl) = true).
Proof.
  assert (run_schedule demo_config full_crawl (init demo_config)
          = Some (state_after demo_config full_crawl)) as H
    by (vm_compute; reflexivity).
  exact (run_only_adds demo_config full_crawl _ _ H).
Defined.

(** X7 for the seed, from the state after [popped_not_marked] to the end
    of the demo crawl. *)
Lemma visited_is_final_witness :
  ("https://ex.test/a" ∈ visited (state_after demo_config full_crawl))
  /\ ("https://ex.test/a" ∉ queued (state_after demo_config full_crawl))
  /\ ("https://ex.test/a" ∉ frontier (state_after demo_config full_crawl)).
Proof.
  assert (reachable demo_config (state_after demo_config popped_not_marked))
    as Hr by (exists popped_not_marked; vm_compute; reflexivity).
  assert (run_schedule demo_config rest_of_crawl
            (state_after demo_config popped_not_marked)
          = Some (state_after demo_config full_crawl)) as Hrun
    by (vm_compute; reflexivity).
  assert ("https://ex.test/a"
          ∈ visited (state_after demo_config popped_not_marked)) as Hin
    by (apply (bool_decide_unpack _); vm_compute; exact I).
  destruct (visited_is_final demo_config rest_of_crawl _ _ _ Hr Hrun Hin)
    as (H1 & H2 & H3 & _).
  split; [exact H1|]. split; [exact H2|exact H3].
Defined.

(** X8 after worker 0 has claimed the seed and left the loop. *)
Lemma zero_limit_fetches_nothing_witness :
  workers (state_after zero_limit_config (turns 0 10 None)) = [Exited; AtTop]
  /\ pages_downloaded (state_after zero_limit_config (turns 0 10 None)) = 0%Z
  /\ ledger (state_after zero_limit_config (turns 0 10 None)) = []
  /\ files (state_after zero_limit_config (turns 0 10 None)) = []
  /\ cerr (state_after zero_limit_config (turns 0 10 None)) = [].
Proof.
  split; [vm_compute; reflexivity|].
  destruct (zero_limit_fetches_nothing zero_limit_config
              (state_after zero_limit_config (turns 0 10 None)))
    as (H1 & H2 & H3 & H4 & _).
  - reflexivity.
  - exists (turns 0 10 None). vm_compute. reflexivity.
  - split; [exact H1|]. split; [exact H2|]. split; [exact H3|exact H4].
Defined.

(** X9 where the limit is 2 and the counter has reached 3. *)
Lemma stop_at_limit_or_quiescence_witness :
  pages_downloaded (state_after limited_config overshoot_stopped) = 3%Z
  /\ ((frontier (state_after limited_config overshoot_stopped) = []
       /\ active_workers (state_after limited_config overshoot_stopped) = 0%Z
       /\ Forall (fun p => busy p = false)
                 (workers (state_after limited_config overshoot_stopped)))
      \/ (max_pages limited_config
          <= pages_downloaded (state_after limited_config overshoot_stopped)
          <= max_pages limited_config + threads limited_config - 1)%Z).
Proof.
  split; [vm_compute; reflexivity|].
  apply (stop_at_limit_or_quiescence limited_config).
  - vm_compute. discriminate.
  - split; vm_compute; discriminate.
  - vm_compute. discriminate.
  - exists overshoot_stopped. vm_compute. reflexivity.
  - vm_compute. reflexivity.
Defined.

(** X10 for the seed of the demo crawl. *)
Lemma finished_crawl_visited_everything_witness :
  ("https://ex.test/a" ∈ visited (state_after demo_config full_crawl))
  /\ queued (state_after demo_config full_crawl) = ∅
  /\ frontier (state_after demo_config full_crawl) = [].
Proof.
  apply (finished_crawl_visited_everything demo_config full_crawl
           (init demo_config)).
  - vm_compute. reflexivity.
  - split; vm_compute; discriminate.
  - exists []. reflexivity.
  - vm_compute. reflexivity.
  - vm_compute. repeat constructor.
  - left. apply (bool_decide_unpack _). vm_compute. exact I.
Defined.

(** X11 at the end of the demo crawl. *)
Lemma written_files_are_well_named_witness :
  Forall well_named (files (state_after demo_config full_crawl)).
Proof.
  apply (written_files_are_well_named demo_config).
  exists full_crawl. vm_compute. reflexivity.
Defined.

(** X14 at a URL with capitals. *)
Lemma parse_url_splits_the_url_witness :
  exists sch hst rest,
    "HTTPS://Ex.Test/A" = (sch ++ "://" ++ hst ++ rest)%string
    /\ "https" = to_lower sch /\ "ex.test" = to_lower hst
    /\ "/A" = (if is_empty rest then "/" else rest)
    /\ "https" <> "" /\ "ex.test" <> ""
    /\ find "/" "ex.test" = None
    /\ starts_with "/" "/A" = true.
Proof.
  apply (parse_url_splits_the_url "HTTPS://Ex.Test/A"
           (mkUrlParts "https" "ex.test" "/A")).
  vm_compute. reflexivity.
Defined.

(** X15 at a URL with capitals. *)
Lemma parse_url_round_trip_witness :
  parse_url ("https" ++ "://" ++ "ex.test" ++ "/A")
  = Some (mkUrlParts "https" "ex.test" "/A").
Proof.
  apply (parse_url_round_trip "HTTPS://Ex.Test/A"
           (mkUrlParts "https" "ex.test" "/A")).
  vm_compute. reflexivity.
Defined.

(** X16 with a base that does not parse. *)
Lemma absolute_links_ignore_the_base_witness :
  make_absolute "not a url" " https://ex.test/p#top "
  = strip_fragment (trim " https://ex.test/p#top ")
  /\ find "#" (make_absolute "not a url" " https://ex.test/p#top ") = None.
Proof.
  apply (absolute_links_ignore_the_base "not a url" " https://ex.test/p#top ").
  vm_compute. reflexivity.
Defined.

(** X17 for a link relative to the directory of the base. *)
Lemma relative_links_stay_on_the_host_witness :
  (exists pth,
     parse_url (make_absolute "https://ex.test/dir/page.html" " item.html#top ")
     = Some (mkUrlParts "https" "ex.test" pth)
     /\ exists dir, pth = (dir ++ trim " item.html#top ")%string)
  /\ is_allowed_domain demo_config
       (make_absolute "https://ex.test/dir/page.html" " item.html#top ")
     = is_allowed_domain demo_config "https://ex.test/dir/page.html".
Proof.
  apply (relative_links_stay_on_the_host demo_config
           "https://ex.test/dir/page.html" " item.html#top "
           (mkUrlParts "https" "ex.test" "/dir/page.html")).
  - vm_compute. reflexivity.
  - vm_compute. reflexivity.
  - vm_compute. reflexivity.
Defined.

(** X21 at [headers_a], where another header follows. *)
Lemma content_type_comes_from_the_last_header_witness :
  content_type (fetch_url "https://ex.test/a" (Some headers_a)).1
  = trim (drop 13 "Content-Type: Text/HTML; charset=UTF-8").
Proof.
  apply (content_type_comes_from_the_last_header "https://ex.test/a"
           headers_a ["HTTP/1.1 200 OK"]
           "Content-Type: Text/HTML; charset=UTF-8" ["Content-Length: 42"]).
  - reflexivity.
  - vm_compute. reflexivity.
  - repeat constructor.
Defined.

(** X23 for a key that [pipeline_json] does not have. *)
Lemma readers_fall_back_without_key_witness :
  (forall fallback, read_string pipeline_json "raw_output" fallback = fallback)
  /\ (forall fallback,
        read_long pipeline_json "raw_output" fallback = Some fallback)
  /\ (forall fallback,
        read_string_array pipeline_json "raw_output" fallback = fallback).
Proof.
  apply (readers_fall_back_without_key pipeline_json "raw_output").
  - vm_compute. reflexivity.
  - vm_compute. reflexivity.
Defined.

(** X24 for [start_url]. *)
Lemma read_string_reads_the_first_entry_witness :
  read_string
    ("{ " ++ quoted "start_url" ++ "" ++ ":" ++ " "
          ++ String dquote ("https://ex.test/a" ++ String dquote " }"))
    "start_url" "https://www.bgsu.edu"
  = "https://ex.test/a".
Proof.
  apply (read_string_reads_the_first_entry
           "start_url" "{ " "" " " "https://ex.test/a" " }"
           "https://www.bgsu.edu").
  - vm_compute. reflexivity.
  - vm_compute. reflexivity.
  - reflexivity.
  - reflexivity.
  - vm_compute. reflexivity.
Defined.

(** X25 for a negative [max_pages] followed by a fraction. *)
Lemma read_long_reads_the_first_entry_witness :
  read_long
    ("{ " ++ quoted "max_pages" ++ " " ++ ":" ++ " "
          ++ "-" ++ "15" ++ ".5 }")
    "max_pages" 7
  = Some (-15)%Z.
Proof.
  apply (read_long_reads_the_first_entry
           "max_pages" "{ " " " " " true "15" ".5 }" 7%Z).
  - vm_compute. reflexivity.
  - vm_compute. reflexivity.
  - reflexivity.
  - reflexivity.
  - discriminate.
  - reflexivity.
  - reflexivity.
Defined.

(** X26 for the extensions of [pipeline_json]. *)
Lemma read_string_array_values_witness :
  read_string_array pipeline_json "extensions" [] = []
  \/ (read_string_array pipeline_json "extensions" [] <> []
      /\ Forall (fun value =>
                   value <> ""
                   /\ all_chars (fun c => negb (is_dquote c)) value = true
                   /\ all_chars (fun c => negb (is_close_bracket c)
                                          && negb (is_line_terminator c))
                                value = true)
                (read_string_array pipeline_json "extensions" [])).
Proof.
  apply (read_string_array_values pipeline_json "extensions" []).
  vm_compute. reflexivity.
Defined.

(** X27 for the extensions written over three lines. *)
Lemma array_on_several_lines_is_ignored_witness :
  read_string_array
    ("{ " ++ quoted "extensions" ++ "" ++ ":" ++ " " ++ "["
          ++ (LF ++ quoted "pdf" ++ "," ++ LF ++ quoted ".html" ++ LF)
          ++ "]" ++ " }")
    "extensions" ["fallback"]
  = ["fallback"].
Proof.
  apply (array_on_several_lines_is_ignored
           "extensions" "{ " "" " "
           (LF ++ quoted "pdf" ++ "," ++ LF ++ quoted ".html" ++ LF)%string
           " }" ["fallback"]).
  - vm_compute. reflexivity.
  - vm_compute. reflexivity.
  - vm_compute. reflexivity.
  - reflexivity.
  - reflexivity.
  - vm_compute. reflexivity.
  - vm_compute. reflexivity.
Defined.

(** X29 for [pipeline_json] on eight hardware threads. *)
Lemma loaded_threads_in_range_witness :
  (1 <= 4 <= INT_MAX)%Z
  /\ (forall data v,
        Some pipeline_json = Some data ->
        read_long data "crawler_threads" (Z.max 1 8) = Some v ->
        4%Z = (if (0 <? v)%Z then v else Z.max 1 8))
  /\ (Some pipeline_json = None \/ Some pipeline_json = Some "" ->
      4%Z = Z.max 1 8).
Proof.
  apply (loaded_threads_in_range no_range_error 8 (Some pipeline_json)
           (mkConfig "https://ex.test/a" ["ex.test"] (-1) 4
                     (list_to_set [".pdf"; ".html"]))).
  - split; vm_compute; discriminate.
  - vm_compute. reflexivity.
  - intros data v [= <-] Hv.
    assert (read_long pipeline_json "crawler_threads" (Z.max 1 8) = Some 4%Z)
      as E by (vm_compute; reflexivity).
    rewrite E in Hv. injection Hv as <-. vm_compute. discriminate.
Defined.

(** X30 for the demo configuration, whose domains are those of
    [pipeline_json]. *)
Lemma loaded_domains_match_hosts_witness :
  is_allowed_domain demo_config "https://EX.test/A" = true <->
  exists parts, parse_url "https://EX.test/A" = Some parts
                /\ host parts ∈ allowed_domains demo_config.
Proof.
  apply (loaded_domains_match_hosts demo_config pipeline_json).
  vm_compute. reflexivity.
Defined.
